(** * FleetGuardian: bus fleet maintenance tracker

    A shallow embedding of [FleetGuardian_Main-Shayan_Shome.c] and the
    properties of its maintenance evaluator, record store and persistence
    codec.

    Conventions of the embedding:
    - a C [int] is a [Z]; the result of [+], [-] and [*] is reduced to the
      32-bit two's complement range ([wrap]), [/] and [%] truncate towards
      zero ([Z.quot], [Z.rem]);
    - a C [float] is an IEEE-754 binary32 number, a [spec_float] with 24 bits
      of precision, and every float operation rounds to nearest-even in
      binary32 (FLT_EVAL_METHOD 0);
    - a C string held in a [char] array is a [string] (its characters up to,
      and without, the terminating NUL);
    - the fleet array together with its [count] is the list of its first
      [count] elements. *)

From Stdlib Require Import ZArith Lia List Bool Ascii String.
From Stdlib Require Import Floats.SpecFloat.
Import ListNotations.

Local Open Scope Z_scope.

(** ** Machine integers *)

Definition INT_MIN : Z := - 2 ^ 31.
Definition INT_MAX : Z := 2 ^ 31 - 1.

Definition in_int_range (z : Z) : bool := (INT_MIN <=? z) && (z <=? INT_MAX).

Definition wrap (z : Z) : Z := (z + 2 ^ 31) mod 2 ^ 32 - 2 ^ 31.

Definition int_add (a b : Z) : Z := wrap (a + b).
Definition int_sub (a b : Z) : Z := wrap (a - b).
Definition int_mul (a b : Z) : Z := wrap (a * b).
Definition int_div (a b : Z) : Z := wrap (Z.quot a b).
Definition int_rem (a b : Z) : Z := Z.rem a b.

(** ** Single-precision floats *)

Definition float := spec_float.

Definition prec : Z := 24.
Definition emax : Z := 128.

Definition fadd : float -> float -> float := SFadd prec emax.
Definition fsub : float -> float -> float := SFsub prec emax.
Definition fmul : float -> float -> float := SFmul prec emax.
Definition fdiv : float -> float -> float := SFdiv prec emax.

Definition flt (a b : float) : bool := SFltb a b.
Definition fle (a b : float) : bool := SFleb a b.
Definition fgt (a b : float) : bool := SFltb b a.
Definition fge (a b : float) : bool := SFleb b a.
Definition feq (a b : float) : bool := SFeqb a b.

(** Conversion of an [int] to [float] (exact below 2^24, rounded above). *)
Definition float_of_int (z : Z) : float := binary_normalize prec emax z 0 false.

(** The literals of the evaluator. *)
Definition f0_0 : float := S754_zero false.
Definition f1_5 : float := binary_normalize prec emax 3 (-1) false.
Definition f100_0 : float := float_of_int 100.

(** The integral part of a finite float, towards zero. *)
Definition ftrunc (f : float) : option Z :=
  match f with
  | S754_zero _ => Some 0
  | S754_finite s m e =>
      let a := if 0 <=? e then Zpos m * 2 ^ e else Zpos m / 2 ^ (- e) in
      Some (if s then - a else a)
  | S754_infinity _ | S754_nan => None
  end.

(** A finite binary32 number in canonical form. *)
Definition is_finite32 (f : float) : bool :=
  match f with
  | S754_zero _ => true
  | S754_finite _ m e => bounded prec emax m e
  | S754_infinity _ | S754_nan => false
  end.

(** ** Status and data structures *)

Definition DUE_SOON_KM : Z := 500.

(** [Status] is a C enumeration: an integer type with three named values.
    A loaded file can store any integer in it. *)
Definition Status := Z.
Definition STATUS_OK : Status := 0.
Definition STATUS_DUE_SOON : Status := 1.
Definition STATUS_OVERDUE : Status := 2.

Record Date := mkDate { day : Z; month : Z; year : Z }.

Record Bus := mkBus {
  bus_code : string;
  driver_name : string;
  bus_no : Z;
  last_service : Date;
  next_due : Date;
  current_mileage : float;
  last_service_mileage : float;
  service_interval_km : float;
  service_interval_days : Z;
  service_history_count : Z;
  status : Status;
  km_left : float;
  health_score : Z;
  avg_daily_km : float;
  fuel_efficiency : float
}.

(** ** Date helpers (simplified calendar) *)

Definition is_valid_date (d : Date) : bool :=
  if (year d <=? 0) || (month d <? 1) || (12 <? month d)
     || (day d <? 1) || (31 <? day d)
  then false else true.

Definition date_to_days (d : Date) : Z :=
  int_add (int_add (int_mul (year d) 365) (int_mul (month d) 30)) (day d).

Definition days_to_date (total : Z) : Date :=
  let y := int_div total 365 in
  let rem := int_rem total 365 in
  let m := int_div rem 30 in
  let m := if m =? 0 then 1 else m in
  let d := int_rem rem 30 in
  let d := if d =? 0 then 1 else d in
  {| day := d; month := m; year := y |}.

Definition add_days (d : Date) (days : Z) : Date :=
  let total := int_add (date_to_days d) days in
  days_to_date total.

(** ** Maintenance logic *)

Section Evaluator.

(** Converting a NaN, an infinity or a float beyond the [int] range to
    [int] is undefined in C; [cast_undef] is whatever the platform
    produces there (INT_MIN on x86-64). *)
Variable cast_undef : Z.

Definition float_to_int (f : float) : Z :=
  match ftrunc f with
  | Some z => if in_int_range z then z else cast_undef
  | None => cast_undef
  end.

Definition update_maintenance_status (b : Bus) (today : Date) : Bus :=
  let due_mileage := fadd (last_service_mileage b) (service_interval_km b) in
  let km_left' := fsub due_mileage (current_mileage b) in
  let mileage_overdue := fge (current_mileage b) due_mileage in
  let mileage_due_soon :=
    negb mileage_overdue && fle km_left' (float_of_int DUE_SOON_KM) in
  let '(date_overdue, next_due') :=
    if (0 <? service_interval_days b)
       && is_valid_date (last_service b) && is_valid_date today
    then
      let days_since :=
        int_sub (date_to_days today) (date_to_days (last_service b)) in
      (service_interval_days b <=? days_since,
       add_days (last_service b) (service_interval_days b))
    else (false, {| day := 0; month := 0; year := 0 |}) in
  let status' :=
    if mileage_overdue || date_overdue then STATUS_OVERDUE
    else if mileage_due_soon then STATUS_DUE_SOON
    else STATUS_OK in
  let used := fsub (current_mileage b) (last_service_mileage b) in
  let health_score' :=
    if fgt (service_interval_km b) f0_0 then
      let ratio := fdiv used (service_interval_km b) in
      let ratio := if flt ratio f0_0 then f0_0 else ratio in
      let ratio := if fgt ratio f1_5 then f1_5 else ratio in
      let h := float_to_int (fmul (fdiv (fsub f1_5 ratio) f1_5) f100_0) in
      let h := if h <? 0 then 0 else h in
      let h := if 100 <? h then 100 else h in
      h
    else 50 in
  {| bus_code := bus_code b;
     driver_name := driver_name b;
     bus_no := bus_no b;
     last_service := last_service b;
     next_due := next_due';
     current_mileage := current_mileage b;
     last_service_mileage := last_service_mileage b;
     service_interval_km := service_interval_km b;
     service_interval_days := service_interval_days b;
     service_history_count := service_history_count b;
     status := status';
     km_left := km_left';
     health_score := health_score';
     avg_daily_km := avg_daily_km b;
     fuel_efficiency := fuel_efficiency b |}.

End Evaluator.


(** ** String helpers (case-insensitive) *)

Definition tolower (c : ascii) : ascii :=
  let n := nat_of_ascii c in
  if (65 <=? n)%nat && (n <=? 90)%nat then ascii_of_nat (n + 32) else c.

Definition toupper (c : ascii) : ascii :=
  let n := nat_of_ascii c in
  if (97 <=? n)%nat && (n <=? 122)%nat then ascii_of_nat (n - 32) else c.

Fixpoint str_ieq (a b : string) : bool :=
  match a, b with
  | String ca a', String cb b' =>
      if negb (Ascii.eqb (tolower ca) (tolower cb)) then false
      else str_ieq a' b'
  | EmptyString, EmptyString => true
  | _, _ => false
  end.

Fixpoint to_upper_str (s : string) : string :=
  match s with
  | EmptyString => EmptyString
  | String c s' => String (toupper c) (to_upper_str s')
  end.

(** [strncpy (dest, src, n)] followed by [dest[n] = 0]: the first [n]
    characters of [src]. *)
Fixpoint strncpy (src : string) (n : nat) : string :=
  match n, src with
  | S n', String c src' => String c (strncpy src' n')
  | _, _ => EmptyString
  end.

(** ** Search and uniqueness helpers *)

Fixpoint find_bus_index_from (i : nat) (fleet : list Bus) (no : Z) : Z :=
  match fleet with
  | [] => -1
  | b :: rest =>
      if bus_no b =? no then Z.of_nat i
      else find_bus_index_from (S i) rest no
  end.

Definition find_bus_index (fleet : list Bus) (no : Z) : Z :=
  find_bus_index_from 0 fleet no.

(** [exclude_index] is -1 when adding; otherwise that index is skipped. *)
Fixpoint bus_code_exists_from (i : nat) (fleet : list Bus) (code : string)
    (exclude_index : Z) : bool :=
  match fleet with
  | [] => false
  | b :: rest =>
      if Z.of_nat i =? exclude_index
      then bus_code_exists_from (S i) rest code exclude_index
      else if str_ieq (bus_code b) code then true
      else bus_code_exists_from (S i) rest code exclude_index
  end.

Definition bus_code_exists (fleet : list Bus) (code : string)
    (exclude_index : Z) : bool :=
  bus_code_exists_from 0 fleet code exclude_index.

Fixpoint bus_no_exists_from (i : nat) (fleet : list Bus) (no : Z)
    (exclude_index : Z) : bool :=
  match fleet with
  | [] => false
  | b :: rest =>
      if Z.of_nat i =? exclude_index
      then bus_no_exists_from (S i) rest no exclude_index
      else if bus_no b =? no then true
      else bus_no_exists_from (S i) rest no exclude_index
  end.

Definition bus_no_exists (fleet : list Bus) (no : Z) (exclude_index : Z)
    : bool :=
  bus_no_exists_from 0 fleet no exclude_index.

(** ** Add and delete *)

(** What the record store reports to the user. [DuplicateCode] is "This bus
    code already exists", [DuplicateNumber] "This bus number already
    exists", [NotFound] "Bus not found.", [AddAllocFailed] "Memory
    allocation failed while adding bus.", [LoadAllocFailed] "Memory
    allocation failed while loading file." *)
Inductive Message :=
  | AddAllocFailed
  | LoadAllocFailed
  | CodeEmpty
  | DuplicateCode
  | DuplicateNumber
  | BusAdded (total : nat)
  | NotFound
  | BusDeleted (remaining : nat)
  | DataFileInvalid
  | CorruptedLine
  | FleetLoaded (count : Z).

(** The answers [add_bus] gets from the validated prompts that follow the
    code and the number. *)
Record BusDetails := mkDetails {
  in_driver_name : string;
  in_last_service : Date;
  in_last_service_mileage : float;
  in_current_mileage : float;
  in_service_interval_km : float;
  in_service_interval_days : Z;
  in_avg_daily_km : float;
  in_fuel_efficiency : float;
  in_service_history_count : Z
}.

(** The code prompt of [add_bus]. [lines] are the successive contents of
    [tmp] after [read_line_stdin]; a rejected line is reported and the
    prompt repeats. With no line left the prompt is still waiting: [None]. *)
Fixpoint read_bus_code (fleet : list Bus) (lines : list string)
    : list Message * option string :=
  match lines with
  | [] => ([], None)
  | tmp :: rest =>
      match tmp with
      | EmptyString =>
          let '(ms, r) := read_bus_code fleet rest in (CodeEmpty :: ms, r)
      | _ =>
          let tmp := to_upper_str tmp in
          if bus_code_exists fleet tmp (-1) then
            let '(ms, r) := read_bus_code fleet rest in
            (DuplicateCode :: ms, r)
          else ([], Some (strncpy tmp 19))
      end
  end.

(** The number prompt of [add_bus]; [numbers] are the successive values
    returned by [read_int_strict]. *)
Fixpoint read_bus_no (fleet : list Bus) (numbers : list Z)
    : list Message * option Z :=
  match numbers with
  | [] => ([], None)
  | no :: rest =>
      if bus_no_exists fleet no (-1) then
        let '(ms, r) := read_bus_no fleet rest in (DuplicateNumber :: ms, r)
      else ([], Some no)
  end.

Definition new_bus (code : string) (no : Z) (d : BusDetails) : Bus :=
  {| bus_code := code;
     driver_name := strncpy (in_driver_name d) 49;
     bus_no := no;
     last_service := in_last_service d;
     next_due := {| day := 0; month := 0; year := 0 |};
     current_mileage := in_current_mileage d;
     last_service_mileage := in_last_service_mileage d;
     service_interval_km := in_service_interval_km d;
     service_interval_days := in_service_interval_days d;
     service_history_count := in_service_history_count d;
     status := STATUS_OK;
     km_left := f0_0;
     health_score := 100;
     avg_daily_km := in_avg_daily_km d;
     fuel_efficiency := in_fuel_efficiency d |}.

(** [add_bus]. [room] is the outcome of the first block of the function:
    [false] when the array is full ([*count >= *capacity]) and [realloc]
    returns NULL, in which case the function reports it and returns before
    any prompt; [true] when the array has room or could grow. Then the slot
    past the end is filled in while the prompts run and becomes part of the
    fleet only by the final increment of [count]. *)
Definition add_bus (fleet : list Bus) (room : bool) (codes : list string)
    (numbers : list Z) (d : BusDetails) : list Message * list Bus :=
  if negb room then ([AddAllocFailed], fleet)
  else
    match read_bus_code fleet codes with
    | (ms1, None) => (ms1, fleet)
    | (ms1, Some code) =>
        match read_bus_no fleet numbers with
        | (ms2, None) => (ms1 ++ ms2, fleet)
        | (ms2, Some no) =>
            let fleet' := fleet ++ [new_bus code no d] in
            (ms1 ++ ms2 ++ [BusAdded (List.length fleet')], fleet')
        end
    end.

(** [fleet[i] = b]; the loop of [delete_bus] never writes out of range. *)
Fixpoint array_set (fleet : list Bus) (i : nat) (b : Bus) : list Bus :=
  match fleet, i with
  | [], _ => []
  | _ :: rest, O => b :: rest
  | x :: rest, S i' => x :: array_set rest i' b
  end.

(** [for (i = idx; i < count - 1; i++) fleet[i] = fleet[i + 1];] with
    [steps] iterations left. *)
Fixpoint shift_left (fleet : list Bus) (i : nat) (steps : nat) : list Bus :=
  match steps with
  | O => fleet
  | S k =>
      match nth_error fleet (S i) with
      | Some b => shift_left (array_set fleet i b) (S i) k
      | None => fleet
      end
  end.

(** [delete_bus]; [no] is the number returned by [read_int_strict]. *)
Definition delete_bus (fleet : list Bus) (no : Z) : list Message * list Bus :=
  let count := List.length fleet in
  let idx := find_bus_index fleet no in
  if idx =? -1 then ([NotFound], fleet)
  else
    let i := Z.to_nat idx in
    let shifted := shift_left fleet i (count - 1 - i) in
    ([BusDeleted (count - 1)], firstn (count - 1) shifted).

(** ** Formatted output ([fprintf]) *)

Local Open Scope string_scope.
Local Open Scope Z_scope.

Definition digit_char (d : Z) : ascii := ascii_of_nat (48 + Z.to_nat d).

(** The decimal digits of [n >= 0], most significant first, put in front
    of [acc]; [fuel] bounds the number of digits. *)
Fixpoint dec_digits (fuel : nat) (n : Z) (acc : string) : string :=
  match fuel with
  | O => acc
  | S f =>
      let acc' := String (digit_char (n mod 10)) acc in
      if n <? 10 then acc' else dec_digits f (n / 10) acc'
  end.

Definition dec (n : Z) : string :=
  dec_digits (S (Z.to_nat (Z.log2 n))) n "".

(** [%d] *)
Definition print_int (z : Z) : string :=
  if z <? 0 then String "-" (dec (- z)) else dec z.

(** [n / d] rounded to the nearest integer, ties to even
    ([0 <= n], [0 < d]). *)
Definition rne_div (n d : Z) : Z :=
  let q := n / d in
  let r := n mod d in
  match 2 * r ?= d with
  | Lt => q
  | Gt => q + 1
  | Eq => if Z.even q then q else q + 1
  end.

(** The value [m * 2^e] in hundredths, correctly rounded: what [%.2f]
    prints without the decimal point. *)
Definition cents (m : positive) (e : Z) : Z :=
  if 0 <=? e then 100 * Zpos m * 2 ^ e
  else rne_div (100 * Zpos m) (2 ^ (- e)).

Definition sign_str (s : bool) : string := if s then "-" else "".

(** [%.2f] (a [float] argument is promoted to [double] without change of
    value). *)
Definition print_f2 (f : float) : string :=
  match f with
  | S754_zero s => sign_str s ++ "0.00"
  | S754_finite s m e =>
      let h := cents m e in
      sign_str s ++ dec (h / 100)
      ++ String "." (String (digit_char (h / 10 mod 10))
                       (String (digit_char (h mod 10)) ""))
  | S754_infinity s => sign_str s ++ "inf"
  | S754_nan => "nan"
  end.

Definition LF : ascii := "010"%char.
Definition bar : string := "|".

(** The record line written by [save_fleet_to_file]. *)
Definition fprintf_bus (b : Bus) : string :=
  bus_code b ++ bar ++ driver_name b ++ bar ++ print_int (bus_no b) ++ bar
  ++ print_int (day (last_service b)) ++ bar
  ++ print_int (month (last_service b)) ++ bar
  ++ print_int (year (last_service b)) ++ bar
  ++ print_int (day (next_due b)) ++ bar
  ++ print_int (month (next_due b)) ++ bar
  ++ print_int (year (next_due b)) ++ bar
  ++ print_f2 (current_mileage b) ++ bar
  ++ print_f2 (last_service_mileage b) ++ bar
  ++ print_f2 (service_interval_km b) ++ bar
  ++ print_int (service_interval_days b) ++ bar
  ++ print_int (service_history_count b) ++ bar
  ++ print_int (status b) ++ bar
  ++ print_f2 (km_left b) ++ bar
  ++ print_int (health_score b) ++ bar
  ++ print_f2 (avg_daily_km b) ++ bar
  ++ print_f2 (fuel_efficiency b) ++ String LF "".

Fixpoint fprintf_fleet (fleet : list Bus) : string :=
  match fleet with
  | [] => ""
  | b :: rest => fprintf_bus b ++ fprintf_fleet rest
  end.

(** [save_fleet_to_file]: the text written to the file, when it can be
    opened for writing; nothing is written otherwise. *)
Definition save_fleet_to_file (fleet : list Bus) (fopen_ok : bool)
    : option string :=
  if fopen_ok then
    Some (print_int (Z.of_nat (List.length fleet)) ++ String LF ""
          ++ fprintf_fleet fleet)
  else None.

(** ** Formatted input ([fscanf]) *)

Definition is_space (c : ascii) : bool :=
  let n := nat_of_ascii c in
  (n =? 32)%nat || ((9 <=? n)%nat && (n <=? 13)%nat).

Definition is_digit (c : ascii) : bool :=
  let n := nat_of_ascii c in (48 <=? n)%nat && (n <=? 57)%nat.

Definition digit_val (c : ascii) : Z := Z.of_nat (nat_of_ascii c) - 48.

Fixpoint skip_space (input : string) : string :=
  match input with
  | String c rest => if is_space c then skip_space rest else input
  | EmptyString => input
  end.

Definition scan_sign (input : string) : bool * string :=
  match input with
  | String "-" rest => (true, rest)
  | String "+" rest => (false, rest)
  | _ => (false, input)
  end.

(** A run of decimal digits read into [acc]; [len] counts them. *)
Fixpoint scan_digits (input : string) (acc : Z) (len : Z)
    : Z * Z * string :=
  match input with
  | String c rest =>
      if is_digit c then scan_digits rest (acc * 10 + digit_val c) (len + 1)
      else (acc, len, input)
  | EmptyString => (acc, len, input)
  end.

(** The range of [long], 64 bits. *)
Definition LONG_MIN : Z := - 2 ^ 63.
Definition LONG_MAX : Z := 2 ^ 63 - 1.

(** [%d]: white space, an optional sign, digits. A conversion gives its
    value, or fails, and the input that is left. A number that does not
    fit an [int] has no defined result in C; the C library converts the
    digits as [strtol] does, to a [long] with a value beyond the range
    replaced by [LONG_MAX] or [LONG_MIN], and stores the [long] as an
    [int]: -1 or 0 for a number beyond [long]. *)
Definition scan_int (input : string) : option Z * string :=
  let input := skip_space input in
  let '(neg, input) := scan_sign input in
  let '(v, len, rest) := scan_digits input 0 0 in
  if len =? 0 then (None, rest)
  else
    (Some (wrap (Z.max LONG_MIN (Z.min LONG_MAX (if neg then - v else v)))),
     rest).

(** The binary32 number nearest to [N / D] ([0 < N], [0 < D]), ties to
    even, with sign [s]. Finite binary32 numbers are the multiples
    [q * 2^g] of 2^-149 with [q < 2^24] and [g <= 253]. *)
Definition round_ratio (s : bool) (N D : Z) : float :=
  let T := N * 2 ^ 149 in
  let g := Z.max (Z.log2 (T / D) - 23) 0 in
  let q := rne_div T (D * 2 ^ g) in
  let '(q, g) := if q =? 2 ^ 24 then (2 ^ 23, g + 1) else (q, g) in
  match q with
  | Zpos m => if g <=? 253 then S754_finite s m (g - 149)
              else S754_infinity s
  | _ => S754_zero s
  end.

(** The float for the decimal [M * 10^E] with sign [s], as [strtof]
    rounds it. *)
Definition float_of_decimal (s : bool) (M E : Z) : float :=
  if M =? 0 then S754_zero s
  else if 0 <=? E then round_ratio s (M * 10 ^ E) 1
  else round_ratio s M (10 ^ (- E)).

(** [%f]: white space, an optional sign, digits with an optional point,
    an optional exponent. (The spellings of infinity and NaN and
    hexadecimal floats are left out: they fail to match.) *)
Definition scan_float (input : string) : option float * string :=
  let input := skip_space input in
  let '(neg, input) := scan_sign input in
  let '(i, ilen, input) := scan_digits input 0 0 in
  let '(m, flen, input) :=
    match input with
    | String "." rest => scan_digits rest i 0
    | _ => (i, 0, input)
    end in
  if ilen + flen =? 0 then (None, input)
  else
    match input with
    | String ("e" | "E") rest =>
        let '(eneg, rest) := scan_sign rest in
        let '(x, xlen, rest) := scan_digits rest 0 0 in
        if xlen =? 0 then (None, rest)
        else (Some (float_of_decimal neg m ((if eneg then - x else x) - flen)),
              rest)
    | _ => (Some (float_of_decimal neg m (- flen)), input)
    end.

(** [%N[^|]]: at most [width] characters other than the bar, at least
    one. *)
Fixpoint scan_not_bar (width : nat) (input : string) : string * string :=
  match width, input with
  | S w, String c rest =>
      if Ascii.eqb c "|" then (EmptyString, input)
      else let '(s, rest') := scan_not_bar w rest in (String c s, rest')
  | _, _ => (EmptyString, input)
  end.

Definition scan_set (width : nat) (input : string) : option string * string :=
  match scan_not_bar width input with
  | (EmptyString, rest) => (None, rest)
  | (s, rest) => (Some s, rest)
  end.

(** The record being filled in by [fscanf]: the array slot and the local
    [status_int]. *)
Definition Slot : Type := Bus * Z.

Inductive item :=
  | ConvSet (width : nat) (store : string -> Slot -> Slot)
  | ConvInt (store : Z -> Slot -> Slot)
  | ConvFloat (store : float -> Slot -> Slot)
  | Lit (c : ascii)
  | Space.

(** [fscanf] runs the directives in order and stops at the first that
    fails; it returns the number of conversions stored (0 also where C
    returns EOF, at the end of the file: the loader only compares the
    number with 19), the input that is left, and the slot. What was not
    stored keeps its old value. *)
Fixpoint fscanf (fmt : list item) (input : string) (slot : Slot)
    : Z * string * Slot :=
  match fmt with
  | [] => (0, input, slot)
  | ConvSet w store :: fmt' =>
      match scan_set w input with
      | (Some s, rest) =>
          let '(n, rest', slot') := fscanf fmt' rest (store s slot) in
          (1 + n, rest', slot')
      | (None, rest) => (0, rest, slot)
      end
  | ConvInt store :: fmt' =>
      match scan_int input with
      | (Some z, rest) =>
          let '(n, rest', slot') := fscanf fmt' rest (store z slot) in
          (1 + n, rest', slot')
      | (None, rest) => (0, rest, slot)
      end
  | ConvFloat store :: fmt' =>
      match scan_float input with
      | (Some f, rest) =>
          let '(n, rest', slot') := fscanf fmt' rest (store f slot) in
          (1 + n, rest', slot')
      | (None, rest) => (0, rest, slot)
      end
  | Lit c :: fmt' =>
      match input with
      | String c' rest =>
          if Ascii.eqb c' c then fscanf fmt' rest slot else (0, input, slot)
      | EmptyString => (0, input, slot)
      end
  | Space :: fmt' => fscanf fmt' (skip_space input) slot
  end.

Definition set_date (f : Date -> Date) (which : bool) (b : Bus) : Bus :=
  {| bus_code := bus_code b; driver_name := driver_name b;
     bus_no := bus_no b;
     last_service := if which then f (last_service b) else last_service b;
     next_due := if which then next_due b else f (next_due b);
     current_mileage := current_mileage b;
     last_service_mileage := last_service_mileage b;
     service_interval_km := service_interval_km b;
     service_interval_days := service_interval_days b;
     service_history_count := service_history_count b;
     status := status b; km_left := km_left b;
     health_score := health_score b; avg_daily_km := avg_daily_km b;
     fuel_efficiency := fuel_efficiency b |}.

Definition to_bus (f : Bus -> Bus) (slot : Slot) : Slot :=
  (f (fst slot), snd slot).

Definition st_bus_code (s : string) : Slot -> Slot :=
  to_bus (fun b => mkBus s (driver_name b) (bus_no b) (last_service b)
    (next_due b) (current_mileage b) (last_service_mileage b)
    (service_interval_km b) (service_interval_days b)
    (service_history_count b) (status b) (km_left b) (health_score b)
    (avg_daily_km b) (fuel_efficiency b)).
Definition st_driver_name (s : string) : Slot -> Slot :=
  to_bus (fun b => mkBus (bus_code b) s (bus_no b) (last_service b)
    (next_due b) (current_mileage b) (last_service_mileage b)
    (service_interval_km b) (service_interval_days b)
    (service_history_count b) (status b) (km_left b) (health_score b)
    (avg_daily_km b) (fuel_efficiency b)).
Definition st_bus_no (z : Z) : Slot -> Slot :=
  to_bus (fun b => mkBus (bus_code b) (driver_name b) z (last_service b)
    (next_due b) (current_mileage b) (last_service_mileage b)
    (service_interval_km b) (service_interval_days b)
    (service_history_count b) (status b) (km_left b) (health_score b)
    (avg_daily_km b) (fuel_efficiency b)).
Definition st_last_day (z : Z) : Slot -> Slot :=
  to_bus (set_date (fun d => mkDate z (month d) (year d)) true).
Definition st_last_month (z : Z) : Slot -> Slot :=
  to_bus (set_date (fun d => mkDate (day d) z (year d)) true).
Definition st_last_year (z : Z) : Slot -> Slot :=
  to_bus (set_date (fun d => mkDate (day d) (month d) z) true).
Definition st_due_day (z : Z) : Slot -> Slot :=
  to_bus (set_date (fun d => mkDate z (month d) (year d)) false).
Definition st_due_month (z : Z) : Slot -> Slot :=
  to_bus (set_date (fun d => mkDate (day d) z (year d)) false).
Definition st_due_year (z : Z) : Slot -> Slot :=
  to_bus (set_date (fun d => mkDate (day d) (month d) z) false).
Definition st_current_mileage (x : float) : Slot -> Slot :=
  to_bus (fun b => mkBus (bus_code b) (driver_name b) (bus_no b)
    (last_service b) (next_due b) x (last_service_mileage b)
    (service_interval_km b) (service_interval_days b)
    (service_history_count b) (status b) (km_left b) (health_score b)
    (avg_daily_km b) (fuel_efficiency b)).
Definition st_last_service_mileage (x : float) : Slot -> Slot :=
  to_bus (fun b => mkBus (bus_code b) (driver_name b) (bus_no b)
    (last_service b) (next_due b) (current_mileage b) x
    (service_interval_km b) (service_interval_days b)
    (service_history_count b) (status b) (km_left b) (health_score b)
    (avg_daily_km b) (fuel_efficiency b)).
Definition st_service_interval_km (x : float) : Slot -> Slot :=
  to_bus (fun b => mkBus (bus_code b) (driver_name b) (bus_no b)
    (last_service b) (next_due b) (current_mileage b)
    (last_service_mileage b) x (service_interval_days b)
    (service_history_count b) (status b) (km_left b) (health_score b)
    (avg_daily_km b) (fuel_efficiency b)).
Definition st_service_interval_days (z : Z) : Slot -> Slot :=
  to_bus (fun b => mkBus (bus_code b) (driver_name b) (bus_no b)
    (last_service b) (next_due b) (current_mileage b)
    (last_service_mileage b) (service_interval_km b) z
    (service_history_count b) (status b) (km_left b) (health_score b)
    (avg_daily_km b) (fuel_efficiency b)).
Definition st_service_history_count (z : Z) : Slot -> Slot :=
  to_bus (fun b => mkBus (bus_code b) (driver_name b) (bus_no b)
    (last_service b) (next_due b) (current_mileage b)
    (last_service_mileage b) (service_interval_km b)
    (service_interval_days b) z (status b) (km_left b) (health_score b)
    (avg_daily_km b) (fuel_efficiency b)).
Definition st_status_int (z : Z) (slot : Slot) : Slot := (fst slot, z).
Definition st_km_left (x : float) : Slot -> Slot :=
  to_bus (fun b => mkBus (bus_code b) (driver_name b) (bus_no b)
    (last_service b) (next_due b) (current_mileage b)
    (last_service_mileage b) (service_interval_km b)
    (service_interval_days b) (service_history_count b) (status b) x
    (health_score b) (avg_daily_km b) (fuel_efficiency b)).
Definition st_health_score (z : Z) : Slot -> Slot :=
  to_bus (fun b => mkBus (bus_code b) (driver_name b) (bus_no b)
    (last_service b) (next_due b) (current_mileage b)
    (last_service_mileage b) (service_interval_km b)
    (service_interval_days b) (service_history_count b) (status b)
    (km_left b) z (avg_daily_km b) (fuel_efficiency b)).
Definition st_avg_daily_km (x : float) : Slot -> Slot :=
  to_bus (fun b => mkBus (bus_code b) (driver_name b) (bus_no b)
    (last_service b) (next_due b) (current_mileage b)
    (last_service_mileage b) (service_interval_km b)
    (service_interval_days b) (service_history_count b) (status b)
    (km_left b) (health_score b) x (fuel_efficiency b)).
Definition st_fuel_efficiency (x : float) : Slot -> Slot :=
  to_bus (fun b => mkBus (bus_code b) (driver_name b) (bus_no b)
    (last_service b) (next_due b) (current_mileage b)
    (last_service_mileage b) (service_interval_km b)
    (service_interval_days b) (service_history_count b) (status b)
    (km_left b) (health_score b) (avg_daily_km b) x).

(** [b->status = (Status)status_int] *)
Definition st_status (slot : Slot) : Bus :=
  let b := fst slot in
  mkBus (bus_code b) (driver_name b) (bus_no b) (last_service b)
    (next_due b) (current_mileage b) (last_service_mileage b)
    (service_interval_km b) (service_interval_days b)
    (service_history_count b) (snd slot) (km_left b) (health_score b)
    (avg_daily_km b) (fuel_efficiency b).

(** The format of a record line, nineteen conversions:
    ["%19[^|]|%49[^|]|%d|%d|%d|%d|%d|%d|%d|%f|%f|%f|%d|%d|%d|%f|%d|%f|%f\n"] *)
Definition bus_format : list item :=
  [ ConvSet 19 st_bus_code; Lit "|"; ConvSet 49 st_driver_name; Lit "|";
    ConvInt st_bus_no; Lit "|";
    ConvInt st_last_day; Lit "|"; ConvInt st_last_month; Lit "|";
    ConvInt st_last_year; Lit "|";
    ConvInt st_due_day; Lit "|"; ConvInt st_due_month; Lit "|";
    ConvInt st_due_year; Lit "|";
    ConvFloat st_current_mileage; Lit "|";
    ConvFloat st_last_service_mileage; Lit "|";
    ConvFloat st_service_interval_km; Lit "|";
    ConvInt st_service_interval_days; Lit "|";
    ConvInt st_service_history_count; Lit "|";
    ConvInt st_status_int; Lit "|";
    ConvFloat st_km_left; Lit "|"; ConvInt st_health_score; Lit "|";
    ConvFloat st_avg_daily_km; Lit "|"; ConvFloat st_fuel_efficiency;
    Space ].

(** The loop of [load_fleet_from_file] from record [i], with [k] records
    to go. [slot0 i] is what the array slot [i] holds before the load and
    [status0 i] what [status_int] holds when iteration [i] starts; both
    are indeterminate in C when the array is fresh. *)
Fixpoint load_records (k : nat) (i : nat) (input : string)
    (slot0 : nat -> Bus) (status0 : nat -> Z) : list Message * list Bus :=
  match k with
  | O => ([], [])
  | S k' =>
      let '(n, rest, slot) := fscanf bus_format input (slot0 i, status0 i) in
      let warn := if n =? 19 then [] else [CorruptedLine] in
      let b := st_status slot in
      let '(ms, fleet) := load_records k' (S i) rest slot0 status0 in
      ((warn ++ ms)%list, b :: fleet)
  end.

(** [load_fleet_from_file]; [file] is the content of the data file, [None]
    when it cannot be opened. [room] is the outcome of the block that
    follows the count line: [false] when the count exceeds the capacity
    and [realloc] returns NULL, in which case the function reports it and
    leaves the fleet empty; [true] when the array is large enough or could
    grow. *)
Definition load_fleet_from_file (file : option string) (room : bool)
    (slot0 : nat -> Bus) (status0 : nat -> Z) : list Message * list Bus :=
  match file with
  | None => ([], [])
  | Some text =>
      match scan_int text with
      | (Some n, rest) =>
          if n <=? 0 then ([DataFileInvalid], [])
          else if negb room then ([LoadAllocFailed], [])
          else
            let '(ms, fleet) :=
              load_records (Z.to_nat n) 0 (skip_space rest) slot0 status0 in
            ((ms ++ [FleetLoaded n])%list, fleet)
      | (None, _) => ([DataFileInvalid], [])
      end
  end.

Local Close Scope string_scope.

(** ** Well-formed records *)

Fixpoint no_bar (s : string) : bool :=
  match s with
  | EmptyString => true
  | String c s' => negb (Ascii.eqb c "|") && no_bar s'
  end.

(** A text field of the data file: not empty, within the array, and free
    of the field separator. *)
Definition wf_text (width : nat) (s : string) : bool :=
  match s with
  | EmptyString => false
  | String _ _ => (String.length s <=? width)%nat && no_bar s
  end.

Definition starts_with_space (s : string) : bool :=
  match s with
  | String c _ => is_space c
  | EmptyString => false
  end.

Definition wf_date (d : Date) : bool :=
  in_int_range (day d) && in_int_range (month d) && in_int_range (year d).

Definition wf_bus (b : Bus) : bool :=
  wf_text 19 (bus_code b) && negb (starts_with_space (bus_code b))
  && wf_text 49 (driver_name b)
  && in_int_range (bus_no b)
  && wf_date (last_service b) && wf_date (next_due b)
  && is_finite32 (current_mileage b)
  && is_finite32 (last_service_mileage b)
  && is_finite32 (service_interval_km b)
  && in_int_range (service_interval_days b)
  && in_int_range (service_history_count b)
  && in_int_range (status b)
  && is_finite32 (km_left b)
  && in_int_range (health_score b)
  && is_finite32 (avg_daily_km b)
  && is_finite32 (fuel_efficiency b).

Definition wf_fleet (fleet : list Bus) : bool :=
  forallb wf_bus fleet && (Z.of_nat (List.length fleet) <=? INT_MAX).

(** ** Notions used in the statements *)

Fixpoint to_lower_str (s : string) : string :=
  match s with
  | EmptyString => EmptyString
  | String c s' => String (tolower c) (to_lower_str s')
  end.

(** Two codes are case variants of each other when they are equal once
    every letter is folded to lower case. *)
Definition case_variant (a b : string) : Prop :=
  to_lower_str a = to_lower_str b.

(** A character that ends a field of the data file. *)
Definition terminator (c : ascii) : Prop := c = "|"%char \/ c = LF.

(** The float read back from the [%.2f] rendering of [x]. *)
Definition reread (x : float) : float :=
  match x with
  | S754_finite s m e => float_of_decimal s (cents m e) (- 2)
  | _ => x
  end.

(** The record read back: every decimal field went through its two-digit
    rendering. *)
Definition reread_bus (b : Bus) : Bus :=
  {| bus_code := bus_code b;
     driver_name := driver_name b;
     bus_no := bus_no b;
     last_service := last_service b;
     next_due := next_due b;
     current_mileage := reread (current_mileage b);
     last_service_mileage := reread (last_service_mileage b);
     service_interval_km := reread (service_interval_km b);
     service_interval_days := service_interval_days b;
     service_history_count := service_history_count b;
     status := status b;
     km_left := reread (km_left b);
     health_score := health_score b;
     avg_daily_km := reread (avg_daily_km b);
     fuel_efficiency := reread (fuel_efficiency b) |}.

(** Two decimals agree to two decimal places when [%.2f] renders them
    alike. *)
Definition same_2dp (x y : float) : Prop := print_f2 x = print_f2 y.

Definition same_record (b b' : Bus) : Prop :=
  bus_code b' = bus_code b
  /\ driver_name b' = driver_name b
  /\ bus_no b' = bus_no b
  /\ last_service b' = last_service b
  /\ next_due b' = next_due b
  /\ same_2dp (current_mileage b) (current_mileage b')
  /\ same_2dp (last_service_mileage b) (last_service_mileage b')
  /\ same_2dp (service_interval_km b) (service_interval_km b')
  /\ service_interval_days b' = service_interval_days b
  /\ service_history_count b' = service_history_count b
  /\ status b' = status b
  /\ same_2dp (km_left b) (km_left b')
  /\ health_score b' = health_score b
  /\ same_2dp (avg_daily_km b) (avg_daily_km b')
  /\ same_2dp (fuel_efficiency b) (fuel_efficiency b').

(** One more conversion stored. *)
Definition bump (r : Z * string * Slot) : Z * string * Slot :=
  let '(n, rest, slot) := r in (1 + n, rest, slot).

(** ** Example records and files *)

(** The scenario record of the specification: bus 7, last serviced at
    9000 km, with a 10000 km interval and no day interval. *)
Definition scenario_bus (interval_km current_km : Z) : Bus :=
  {| bus_code := "CHD-101A"; driver_name := "Asha Rao"; bus_no := 7;
     last_service := mkDate 1 1 2024; next_due := mkDate 0 0 0;
     current_mileage := float_of_int current_km;
     last_service_mileage := float_of_int 9000;
     service_interval_km := float_of_int interval_km;
     service_interval_days := 0; service_history_count := 0;
     status := STATUS_OK; km_left := f0_0; health_score := 100;
     avg_daily_km := f0_0; fuel_efficiency := f0_0 |}.

(** A record serviced on an impossible date, as a hand-edited data file can
    hold it: 32/01/2024, 30-day interval, mileage far from due. *)
Definition bad_date_bus : Bus :=
  {| bus_code := "CHD-101A"; driver_name := "Asha Rao"; bus_no := 7;
     last_service := mkDate 32 1 2024; next_due := mkDate 0 0 0;
     current_mileage := float_of_int 9200;
     last_service_mileage := float_of_int 9000;
     service_interval_km := float_of_int 10000;
     service_interval_days := 30; service_history_count := 0;
     status := STATUS_OK; km_left := f0_0; health_score := 100;
     avg_daily_km := f0_0; fuel_efficiency := f0_0 |}.

(** Bus 7 last serviced on 15/01/2024 with a 180-day interval, 200 km into
    a 10000 km interval, seen on 01/09/2024. *)
Definition day_interval_bus : Bus :=
  {| bus_code := "CHD-101A"; driver_name := "Asha Rao"; bus_no := 7;
     last_service := mkDate 15 1 2024; next_due := mkDate 0 0 0;
     current_mileage := float_of_int 9200;
     last_service_mileage := float_of_int 9000;
     service_interval_km := float_of_int 10000;
     service_interval_days := 180; service_history_count := 0;
     status := STATUS_OK; km_left := f0_0; health_score := 100;
     avg_daily_km := f0_0; fuel_efficiency := f0_0 |}.

Definition details_example : BusDetails :=
  {| in_driver_name := "Ravi Kumar"; in_last_service := mkDate 10 3 2024;
     in_last_service_mileage := float_of_int 50;
     in_current_mileage := float_of_int 80;
     in_service_interval_km := float_of_int 10000;
     in_service_interval_days := 180;
     in_avg_daily_km := float_of_int 120;
     in_fuel_efficiency := float_of_int 4;
     in_service_history_count := 2 |}.

Definition bus_8 : Bus := new_bus "CHD-202B" 8 details_example.
Definition bus_9 : Bus := new_bus "CHD-303C" 9 details_example.

(** A one-bus fleet holding CHD-101A as bus 7. *)
Definition fleet_chd : list Bus := [scenario_bus 10000 9200].

(** A driver name as [read_driver_name] accepts it, with a bar in it. *)
Definition details_bar : BusDetails :=
  {| in_driver_name := "Ravi|Kumar"; in_last_service := mkDate 10 3 2024;
     in_last_service_mileage := float_of_int 50;
     in_current_mileage := float_of_int 80;
     in_service_interval_km := float_of_int 10000;
     in_service_interval_days := 180;
     in_avg_daily_km := float_of_int 120;
     in_fuel_efficiency := float_of_int 4;
     in_service_history_count := 2 |}.

Definition fleet_bar : list Bus :=
  snd (add_bus [] true ["chd-202b"%string] [8] details_bar).

(** A code as the code prompt of [add_bus] accepts it, typed with a space
    in front. *)
Definition fleet_space : list Bus :=
  snd (add_bus [] true [" x1"%string] [8] details_example).

(** A slot of unused memory, for the examples. *)
Definition blank_bus : Bus :=
  {| bus_code := ""; driver_name := ""; bus_no := 0;
     last_service := mkDate 0 0 0; next_due := mkDate 0 0 0;
     current_mileage := f0_0; last_service_mileage := f0_0;
     service_interval_km := f0_0; service_interval_days := 0;
     service_history_count := 0; status := 0; km_left := f0_0;
     health_score := 0; avg_daily_km := f0_0; fuel_efficiency := f0_0 |}.

(** Two evaluated records: bus 8 on 01/09/2024 and the scenario bus at
    18700 km. *)
Definition fleet_evaluated : list Bus :=
  [update_maintenance_status INT_MIN bus_8 (mkDate 1 9 2024);
   update_maintenance_status INT_MIN (scenario_bus 10000 18700)
     (mkDate 1 9 2024)].

(** A data file of two records in which the number of the first was
    overwritten by the word "seven". *)
Definition corrupt_file : string :=
  ("2" ++ String LF
   "CHD-101A|Asha Rao|seven|1|1|2024|0|0|0|9200.00|9000.00|10000.00|0|0|0|0.00|100|0.00|0.00"
   ++ String LF
   "CHD-202B|Ravi Kumar|8|10|3|2024|0|0|0|80.00|50.00|10000.00|180|2|0|0.00|100|120.00|4.00"
   ++ String LF "")%string.

(** The same file without the corrupted line. *)
Definition sound_file : string :=
  ("1" ++ String LF
   "CHD-202B|Ravi Kumar|8|10|3|2024|0|0|0|80.00|50.00|10000.00|180|2|0|0.00|100|120.00|4.00"
   ++ String LF "")%string.


(** What becomes of the two lines of [corrupt_file]: the first record has
    the code and the driver of the corrupted line and otherwise what slot 0
    and [status_int] held; the second starts at the word "seven" and stops
    at the point of "9200.00". *)
Definition corrupt_record_0 (slot0 : nat -> Bus) (status0 : nat -> Z) : Bus :=
  let old := slot0 0%nat in
  {| bus_code := "CHD-101A"; driver_name := "Asha Rao";
     bus_no := bus_no old;
     last_service := last_service old;
     next_due := next_due old;
     current_mileage := current_mileage old;
     last_service_mileage := last_service_mileage old;
     service_interval_km := service_interval_km old;
     service_interval_days := service_interval_days old;
     service_history_count := service_history_count old;
     status := status0 0%nat;
     km_left := km_left old;
     health_score := health_score old;
     avg_daily_km := avg_daily_km old;
     fuel_efficiency := fuel_efficiency old |}.

Definition corrupt_record_1 (slot0 : nat -> Bus) (status0 : nat -> Z) : Bus :=
  let old := slot0 1%nat in
  {| bus_code := "seven"; driver_name := "1"; bus_no := 1;
     last_service := mkDate 2024 0 0;
     next_due := mkDate 0 9200 (year (next_due old));
     current_mileage := current_mileage old;
     last_service_mileage := last_service_mileage old;
     service_interval_km := service_interval_km old;
     service_interval_days := service_interval_days old;
     service_history_count := service_history_count old;
     status := status0 1%nat;
     km_left := km_left old;
     health_score := health_score old;
     avg_daily_km := avg_daily_km old;
     fuel_efficiency := fuel_efficiency old |}.

(** ** Input helpers *)

Local Open Scope string_scope.
Local Open Scope Z_scope.

Definition CR : ascii := "013"%char.

(** What the prompts report besides the messages of the record store. *)
Inductive Notice :=
  | InputEmpty
  | InvalidNumber
  | OutOfRange (min max : Z)
  | NameEmpty
  | NameOnlyNumbers
  | InvalidDate
  | NoBusesToSelect
  | CodeExists
  | NumberExists
  | BusUpdated (position : Z)
  | BusNotFound
  | MileageUpdated.

Definition NUL : ascii := "000"%char.

(** [fgets (buf, size, stdin)] for [size >= 2] on a stream that is not at
    its end: at most [n = size - 1] characters, up to and with the first
    line feed. *)
Fixpoint fgets_take (n : nat) (input : string) : string * string :=
  match n, input with
  | S n', String c rest =>
      if Ascii.eqb c LF then (String c "", rest)
      else let '(line, rest') := fgets_take n' rest in (String c line, rest')
  | _, _ => ("", input)
  end.

(** The loop of [read_line_stdin] that cuts the line feeds and carriage
    returns off the end of the buffer. *)
Fixpoint strip_eol (buf : string) : string :=
  match buf with
  | "" => ""
  | String c buf' =>
      match strip_eol buf' with
      | "" => if Ascii.eqb c LF || Ascii.eqb c CR then "" else String c ""
      | tail => String c tail
      end
  end.

(** The string a [char] array holds for [strlen] and the other string
    functions: the characters before the first NUL byte. *)
Fixpoint c_str (buf : string) : string :=
  match buf with
  | "" => ""
  | String c buf' => if Ascii.eqb c NUL then "" else String c (c_str buf')
  end.

(** [read_line_stdin (buf, size)]: the value returned, the string in the
    buffer, and what is left of the standard input. [fgets] fails at the
    end of the input; the C library's [fgets] also fails, without
    reading, for a size of 0 or less (here 0), and for size 1 it returns
    the empty string without reading, also at the end of the input. A NUL
    byte read from the input ends the string in the buffer: [strlen]
    stops there, and the loop strips the line end before it. *)
Definition read_line_stdin (size : nat) (stdin : string)
    : Z * string * string :=
  match size with
  | O => (0, "", stdin)
  | S O => (1, "", stdin)
  | _ =>
      match stdin with
      | "" => (0, "", stdin)
      | _ =>
          let '(buf, rest) := fgets_take (size - 1) stdin in
          (1, strip_eol (c_str buf), rest)
      end
  end.

Fixpoint is_all_digits_from (s : string) (has_digit : bool) : bool :=
  match s with
  | "" => has_digit
  | String c s' =>
      if negb (is_digit c) && negb (is_space c) then false
      else is_all_digits_from s' (if is_digit c then true else has_digit)
  end.

Definition is_all_digits (s : string) : bool := is_all_digits_from s false.

(** [strtol (s, &endptr, 10)] with a 64-bit [long]: the value and the rest
    of the string from [endptr]. Without digits nothing is converted and
    [endptr] is [s]; a value beyond [long] is clamped. *)
Definition strtol (s : string) : Z * string :=
  let '(neg, digits) := scan_sign (skip_space s) in
  let '(v, len, rest) := scan_digits digits 0 0 in
  if len =? 0 then (0, s)
  else (Z.max LONG_MIN (Z.min LONG_MAX (if neg then - v else v)), rest).

(** One turn of the loop of [read_int_strict] on the line in [buf]. *)
Definition read_int_line (min max : Z) (buf : string) : Notice + Z :=
  match buf with
  | "" => inl InputEmpty
  | _ =>
      let '(val, endptr) := strtol buf in
      match skip_space endptr with
      | String _ _ => inl InvalidNumber
      | "" =>
          if (val <? min) || (max <? val) then inl (OutOfRange min max)
          else inr (wrap val)
      end
  end.

(** [read_int_strict]. [lines] are the successive buffers filled by
    [read_line_stdin]; the result is what was reported, the value returned
    and the lines not yet read. With no line left the prompt is still
    waiting: [None]. *)
Fixpoint read_int_strict (min max : Z) (lines : list string)
    : list Notice * option (Z * list string) :=
  match lines with
  | [] => ([], None)
  | buf :: rest =>
      match read_int_line min max buf with
      | inl msg =>
          let '(ms, r) := read_int_strict min max rest in (msg :: ms, r)
      | inr v => ([], Some (v, rest))
      end
  end.

(** [read_driver_name (dest, size)] with [n = size - 1]. *)
Fixpoint read_driver_name (n : nat) (lines : list string)
    : list Notice * option (string * list string) :=
  match lines with
  | [] => ([], None)
  | buf :: rest =>
      match buf with
      | "" =>
          let '(ms, r) := read_driver_name n rest in (NameEmpty :: ms, r)
      | _ =>
          if is_all_digits buf then
            let '(ms, r) := read_driver_name n rest in
            (NameOnlyNumbers :: ms, r)
          else ([], Some (strncpy buf n, rest))
      end
  end.

(** [sscanf (buf, "%d/%d/%d", &d.day, &d.month, &d.year)]: the number of
    fields stored and the date, which keeps what was not stored. Where the
    buffer ends before the first field [sscanf] returns EOF; that case is
    given as 0 fields here, [read_date] comparing the value with 3 only. *)
Definition sscanf_date (buf : string) (d : Date) : Z * Date :=
  match scan_int buf with
  | (None, _) => (0, d)
  | (Some a, r1) =>
      let d1 := mkDate a (month d) (year d) in
      match r1 with
      | String "/" r2 =>
          match scan_int r2 with
          | (None, _) => (1, d1)
          | (Some b, r3) =>
              let d2 := mkDate a b (year d) in
              match r3 with
              | String "/" r4 =>
                  match scan_int r4 with
                  | (None, _) => (2, d2)
                  | (Some c, _) => (3, mkDate a b c)
                  end
              | _ => (2, d2)
              end
          end
      | _ => (1, d1)
      end
  end.

(** [read_date]; [d] is the local date, indeterminate at first, that the
    turns of the loop write to. *)
Fixpoint read_date (lines : list string) (d : Date)
    : list Notice * option (Date * list string) :=
  match lines with
  | [] => ([], None)
  | buf :: rest =>
      let '(n, d') := sscanf_date buf d in
      if (n =? 3) && is_valid_date d' then ([], Some (d', rest))
      else let '(ms, r) := read_date rest d' in (InvalidDate :: ms, r)
  end.

(** [%0Nd]: the sign, then zeros up to [width] characters, then the
    digits. *)
Definition print_int_pad (width : nat) (z : Z) : string :=
  let sign := if z <? 0 then "-" else "" in
  let digits := dec (Z.abs z) in
  let fill := (width - String.length sign - String.length digits)%nat in
  sign ++ string_of_list_ascii (repeat "0"%char fill) ++ digits.

(** The text of [print_date]: ["%02d-%02d-%04d"]. *)
Definition print_date (d : Date) : string :=
  print_int_pad 2 (day d) ++ "-" ++ print_int_pad 2 (month d) ++ "-"
  ++ print_int_pad 4 (year d).

(** ** Edit, mileage update, summary and the menu *)

Definition with_bus_code (b : Bus) (code : string) : Bus :=
  fst (st_bus_code code (b, 0)).

Definition with_bus_no (b : Bus) (no : Z) : Bus :=
  fst (st_bus_no no (b, 0)).

Definition with_current_mileage (b : Bus) (km : float) : Bus :=
  fst (st_current_mileage km (b, 0)).

(** The fields [edit_bus_by_position] writes after the code and the
    number; the derived fields stay as they are. *)
Definition with_details (b : Bus) (d : BusDetails) : Bus :=
  {| bus_code := bus_code b;
     driver_name := strncpy (in_driver_name d) 49;
     bus_no := bus_no b;
     last_service := in_last_service d;
     next_due := next_due b;
     current_mileage := in_current_mileage d;
     last_service_mileage := in_last_service_mileage d;
     service_interval_km := in_service_interval_km d;
     service_interval_days := in_service_interval_days d;
     service_history_count := in_service_history_count d;
     status := status b;
     km_left := km_left b;
     health_score := health_score b;
     avg_daily_km := in_avg_daily_km d;
     fuel_efficiency := in_fuel_efficiency d |}.

(** The code prompt of [edit_bus_by_position] for the record at [idx]: an
    empty line keeps the code. *)
Fixpoint edit_bus_code (fleet : list Bus) (idx : nat) (old : string)
    (lines : list string) : list Notice * option string :=
  match lines with
  | [] => ([], None)
  | tmp :: rest =>
      match tmp with
      | "" => ([], Some old)
      | _ =>
          let tmp := to_upper_str tmp in
          if bus_code_exists fleet tmp (Z.of_nat idx) then
            let '(ms, r) := edit_bus_code fleet idx old rest in
            (CodeExists :: ms, r)
          else ([], Some (strncpy tmp 19))
      end
  end.

Fixpoint edit_bus_no (fleet : list Bus) (idx : nat) (numbers : list Z)
    : list Notice * option Z :=
  match numbers with
  | [] => ([], None)
  | no :: rest =>
      if bus_no_exists fleet no (Z.of_nat idx) then
        let '(ms, r) := edit_bus_no fleet idx rest in (NumberExists :: ms, r)
      else ([], Some no)
  end.

(** [edit_bus_by_position]. [pos] is the position returned by
    [read_int_strict ("Enter position: ", 1, count)]; the record is
    changed in place, prompt after prompt, so a code already accepted is
    in the fleet while the number prompt is still waiting. *)
Definition edit_bus_by_position (fleet : list Bus) (pos : Z)
    (codes : list string) (numbers : list Z) (d : BusDetails)
    : list Notice * list Bus :=
  match fleet with
  | [] => ([NoBusesToSelect], fleet)
  | _ =>
      let idx := Z.to_nat (pos - 1) in
      match nth_error fleet idx with
      | None => ([], fleet)
      | Some b =>
          match edit_bus_code fleet idx (bus_code b) codes with
          | (ms1, None) => (ms1, fleet)
          | (ms1, Some code) =>
              let b1 := with_bus_code b code in
              let fleet1 := array_set fleet idx b1 in
              match edit_bus_no fleet1 idx numbers with
              | (ms2, None) => ((ms1 ++ ms2)%list, fleet1)
              | (ms2, Some no) =>
                  let b2 := with_details (with_bus_no b1 no) d in
                  ((ms1 ++ ms2 ++ [BusUpdated (Z.of_nat idx + 1)])%list,
                   array_set fleet1 idx b2)
              end
          end
      end
  end.

(** [update_mileage]; [no] and [km] are the values returned by the two
    prompts. *)
Definition update_mileage (fleet : list Bus) (no : Z) (km : float)
    : list Notice * list Bus :=
  let idx := find_bus_index fleet no in
  if idx =? -1 then ([BusNotFound], fleet)
  else
    match nth_error fleet (Z.to_nat idx) with
    | Some b =>
        ([MileageUpdated],
         array_set fleet (Z.to_nat idx) (with_current_mileage b km))
    | None => ([MileageUpdated], fleet)
    end.

Local Close Scope string_scope.

Section Menu.

Variable cast_undef : Z.

(** The loop at the top of every turn of the menu, and the first loop of
    [summarize_maintenance]: every record is evaluated. *)
Definition refresh (fleet : list Bus) (today : Date) : list Bus :=
  map (fun b => update_maintenance_status cast_undef b today) fleet.

(** What [summarize_maintenance] lists: the numbers of the buses that need
    maintenance, and of those that will need it soon. *)
Definition summarize_maintenance (fleet : list Bus) (today : Date)
    : list Bus * list Z * list Z :=
  let fleet' := refresh fleet today in
  (fleet',
   map bus_no (filter (fun b => status b =? STATUS_OVERDUE) fleet'),
   map bus_no (filter (fun b => status b =? STATUS_DUE_SOON) fleet')).

(** A choice of the menu with the values its prompts return, and for
    "Add new bus" whether the array has room or could grow. *)
Inductive Command :=
  | ChangeDate (today : Date)
  | AddBus (room : bool) (codes : list string) (numbers : list Z)
      (d : BusDetails)
  | EditBus (pos : Z) (codes : list string) (numbers : list Z)
      (d : BusDetails)
  | UpdateMileage (no : Z) (km : float)
  | DeleteBus (no : Z)
  | SearchBus (no : Z)
  | ViewAll
  | ShowDue
  | ExportReport
  | SaveExit.

(** One turn of the loop of [main], as it acts on the fleet and the
    reference date (what the turn prints is left out). *)
Definition menu_turn (st : list Bus * Date) (c : Command)
    : list Bus * Date :=
  let '(fleet, today) := st in
  let fleet := refresh fleet today in
  match c with
  | ChangeDate today' =>
      (fst (fst (summarize_maintenance fleet today')), today')
  | AddBus room codes numbers d =>
      (snd (add_bus fleet room codes numbers d), today)
  | EditBus pos codes numbers d =>
      (snd (edit_bus_by_position fleet pos codes numbers d), today)
  | UpdateMileage no km => (snd (update_mileage fleet no km), today)
  | DeleteBus no => (snd (delete_bus fleet no), today)
  | SearchBus _ | ViewAll | ShowDue | ExportReport | SaveExit =>
      (fleet, today)
  end.

(** The turns of the menu up to, and with, the first "Save & exit". *)
Fixpoint run_menu (st : list Bus * Date) (cmds : list Command)
    : list Bus * Date :=
  match cmds with
  | [] => st
  | SaveExit :: _ => menu_turn st SaveExit
  | c :: rest => run_menu (menu_turn st c) rest
  end.

End Menu.

(** ** Further notions used in the statements *)

(** Two records with the same non-derived fields. *)
Definition same_inputs (b1 b2 : Bus) : Prop :=
  bus_code b1 = bus_code b2
  /\ driver_name b1 = driver_name b2
  /\ bus_no b1 = bus_no b2
  /\ last_service b1 = last_service b2
  /\ current_mileage b1 = current_mileage b2
  /\ last_service_mileage b1 = last_service_mileage b2
  /\ service_interval_km b1 = service_interval_km b2
  /\ service_interval_days b1 = service_interval_days b2
  /\ service_history_count b1 = service_history_count b2
  /\ avg_daily_km b1 = avg_daily_km b2
  /\ fuel_efficiency b1 = fuel_efficiency b2.

(** The day rule of the evaluator applies. *)
Definition day_rule_applies (b : Bus) (today : Date) : bool :=
  (0 <? service_interval_days b) && is_valid_date (last_service b)
  && is_valid_date today.

(** The characters of a string. *)
Definition chars (s : string) : list ascii := list_ascii_of_string s.

(** The codes of a fleet, letter case folded. *)
Definition folded_codes (fleet : list Bus) : list string :=
  map (fun b => to_lower_str (bus_code b)) fleet.

(** Two records that differ at most in the current mileage. *)
Definition same_inputs_but_mileage (b1 b2 : Bus) : Prop :=
  bus_code b1 = bus_code b2
  /\ driver_name b1 = driver_name b2
  /\ bus_no b1 = bus_no b2
  /\ last_service b1 = last_service b2
  /\ last_service_mileage b1 = last_service_mileage b2
  /\ service_interval_km b1 = service_interval_km b2
  /\ service_interval_days b1 = service_interval_days b2
  /\ service_history_count b1 = service_history_count b2
  /\ avg_daily_km b1 = avg_daily_km b2
  /\ fuel_efficiency b1 = fuel_efficiency b2.

(** The string has no line feed. *)
Definition no_LF (s : string) : bool :=
  forallb (fun c => negb (Ascii.eqb c LF)) (chars s).

(** The string has no NUL byte. *)
Definition no_NUL (s : string) : bool :=
  forallb (fun c => negb (Ascii.eqb c NUL)) (chars s).

(** The string is empty or starts with a character that is no digit. *)
Definition starts_non_digit (s : string) : Prop :=
  match s with
  | EmptyString => True
  | String c _ => is_digit c = false
  end.

(** The string is made of digits. *)
Definition all_digits (s : string) : bool := forallb is_digit (chars s).

(** A date written as decimal numbers with slashes, as the date prompt
    asks for it. *)
Definition slashed_date (d : Date) : string :=
  (print_int (day d) ++ "/" ++ print_int (month d) ++ "/"
   ++ print_int (year d))%string.

(** ** Proof tools *)

(** Splits a hypothesis [a && b && ... = true] into its conjuncts. *)
Ltac split_wf H :=
  repeat match type of H with
         | (_ && _) = true =>
             let H1 := fresh "Hwf" in
             apply andb_true_iff in H as [H H1]
         end.

(** ** Properties of the simplified calendar *)

Lemma int_rem_lt (a b : Z) : 0 < b -> int_rem a b < b.
Proof.
  intros Hb. unfold int_rem.
  pose proof (Z.rem_bound_abs a b) as H. lia.
Qed.

Lemma days_to_date_day_le (total : Z) : day (days_to_date total) <= 29.
Proof.
  unfold days_to_date; simpl.
  pose proof (int_rem_lt (int_rem total 365) 30 eq_refl) as H.
  destruct (int_rem (int_rem total 365) 30 =? 0); lia.
Qed.

Lemma add_days_day_le (d : Date) (n : Z) : day (add_days d n) <= 29.
Proof. unfold add_days. apply days_to_date_day_le. Qed.

Lemma wrap_small (z : Z) : INT_MIN <= z <= INT_MAX -> wrap z = z.
Proof.
  unfold INT_MIN, INT_MAX, wrap. intros H.
  rewrite Z.mod_small; lia.
Qed.

(** Below year 5_000_000 the day count does not overflow: it is the plain
    formula [year * 365 + month * 30 + day]. *)
Lemma is_valid_date_spec (d : Date) :
  is_valid_date d = true <->
  0 < year d /\ 1 <= month d <= 12 /\ 1 <= day d <= 31.
Proof.
  unfold is_valid_date.
  destruct (Z.leb_spec (year d) 0), (Z.ltb_spec (month d) 1),
    (Z.ltb_spec 12 (month d)), (Z.ltb_spec (day d) 1),
    (Z.ltb_spec 31 (day d)); simpl; split; intros; try discriminate;
    try reflexivity; lia.
Qed.

Lemma date_to_days_exact (d : Date) :
  is_valid_date d = true -> year d <= 5000000 ->
  date_to_days d = year d * 365 + month d * 30 + day d.
Proof.
  intros Hv Hy. apply is_valid_date_spec in Hv.
  unfold date_to_days, int_add, int_mul.
  rewrite (wrap_small (year d * 365)) by (unfold INT_MIN, INT_MAX; lia).
  rewrite (wrap_small (month d * 30)) by (unfold INT_MIN, INT_MAX; lia).
  rewrite (wrap_small (year d * 365 + month d * 30))
    by (unfold INT_MIN, INT_MAX; lia).
  apply wrap_small. unfold INT_MIN, INT_MAX; lia.
Qed.

(** ** Properties of the maintenance evaluator *)

Lemma feq_zero_not_gt (x : float) : feq x f0_0 = true -> fgt x f0_0 = false.
Proof.
  unfold feq, fgt, SFeqb, SFltb, f0_0.
  destruct x as [s | s | | s m e]; simpl; try discriminate; try reflexivity.
  - destruct s; discriminate.
  - destruct s; discriminate.
Qed.

Lemma clamp_0_100 (h : Z) :
  let h1 := if h <? 0 then 0 else h in
  0 <= (if 100 <? h1 then 100 else h1) <= 100.
Proof.
  simpl. destruct (Z.ltb_spec h 0).
  - simpl. lia.
  - destruct (Z.ltb_spec 100 h); lia.
Qed.

(** The evaluator reads the record it is given; two records that agree on
    the mileage and interval fields get the same mileage outputs. *)
Lemma update_km_left cast_undef (b : Bus) (today : Date) :
  km_left (update_maintenance_status cast_undef b today)
  = fsub (fadd (last_service_mileage b) (service_interval_km b))
         (current_mileage b).
Proof.
  unfold update_maintenance_status.
  destruct ((0 <? service_interval_days b) && is_valid_date (last_service b)
            && is_valid_date today); reflexivity.
Qed.

Lemma update_health_score cast_undef (b : Bus) (today : Date) :
  health_score (update_maintenance_status cast_undef b today)
  = if fgt (service_interval_km b) f0_0 then
      let ratio :=
        fdiv (fsub (current_mileage b) (last_service_mileage b))
             (service_interval_km b) in
      let ratio := if flt ratio f0_0 then f0_0 else ratio in
      let ratio := if fgt ratio f1_5 then f1_5 else ratio in
      let h :=
        float_to_int cast_undef (fmul (fdiv (fsub f1_5 ratio) f1_5) f100_0) in
      let h := if h <? 0 then 0 else h in
      if 100 <? h then 100 else h
    else 50.
Proof.
  unfold update_maintenance_status.
  destruct ((0 <? service_interval_days b) && is_valid_date (last_service b)
            && is_valid_date today); reflexivity.
Qed.

Lemma update_status cast_undef (b : Bus) (today : Date) :
  status (update_maintenance_status cast_undef b today)
  = let due := fadd (last_service_mileage b) (service_interval_km b) in
    let mileage_overdue := fge (current_mileage b) due in
    let date_overdue :=
      (0 <? service_interval_days b) && is_valid_date (last_service b)
      && is_valid_date today
      && (service_interval_days b
          <=? int_sub (date_to_days today) (date_to_days (last_service b))) in
    if mileage_overdue || date_overdue then STATUS_OVERDUE
    else if negb mileage_overdue
            && fle (fsub due (current_mileage b)) (float_of_int DUE_SOON_KM)
         then STATUS_DUE_SOON
         else STATUS_OK.
Proof.
  unfold update_maintenance_status.
  destruct ((0 <? service_interval_days b) && is_valid_date (last_service b)
            && is_valid_date today); reflexivity.
Qed.

Lemma update_next_due cast_undef (b : Bus) (today : Date) :
  next_due (update_maintenance_status cast_undef b today)
  = if (0 <? service_interval_days b) && is_valid_date (last_service b)
       && is_valid_date today
    then add_days (last_service b) (service_interval_days b)
    else {| day := 0; month := 0; year := 0 |}.
Proof.
  unfold update_maintenance_status.
  destruct ((0 <? service_interval_days b) && is_valid_date (last_service b)
            && is_valid_date today); reflexivity.
Qed.

(** C1 (as the code behaves). For a record with lastServiceMileage = 9000,
    serviceIntervalKm = 10000 and serviceIntervalDays = 0, whatever its
    other fields and the reference date: with currentMileage = 9200 the
    evaluation yields kmLeft = 9800, status OK and healthScore 98; with
    currentMileage = 9600 it yields kmLeft = 9400, status OK and
    healthScore 96. *)
Theorem C1_scenario_outputs cast_undef (b : Bus) (today : Date) :
  last_service_mileage b = float_of_int 9000 ->
  service_interval_km b = float_of_int 10000 ->
  service_interval_days b = 0 ->
  (current_mileage b = float_of_int 9200 ->
   let b' := update_maintenance_status cast_undef b today in
   km_left b' = float_of_int 9800 /\ status b' = STATUS_OK
   /\ health_score b' = 98)
  /\
  (current_mileage b = float_of_int 9600 ->
   let b' := update_maintenance_status cast_undef b today in
   km_left b' = float_of_int 9400 /\ status b' = STATUS_OK
   /\ health_score b' = 96).
Proof.
  intros Hl Hi Hd.
  split; intros Hc b'; subst b';
    rewrite update_km_left, update_status, update_health_score;
    rewrite Hl, Hi, Hd, Hc; vm_compute; repeat split; reflexivity.
Qed.

Lemma C1_scenario_outputs_witness :
  (let b' := update_maintenance_status INT_MIN (scenario_bus 10000 9200)
               (mkDate 1 6 2024) in
   km_left b' = float_of_int 9800 /\ status b' = STATUS_OK
   /\ health_score b' = 98)
  /\
  (let b' := update_maintenance_status INT_MIN (scenario_bus 10000 9600)
               (mkDate 1 6 2024) in
   km_left b' = float_of_int 9400 /\ status b' = STATUS_OK
   /\ health_score b' = 96).
Proof.
  split.
  - apply (C1_scenario_outputs INT_MIN (scenario_bus 10000 9200)
             (mkDate 1 6 2024)); reflexivity.
  - apply (C1_scenario_outputs INT_MIN (scenario_bus 10000 9600)
             (mkDate 1 6 2024)); reflexivity.
Defined.

(** C1 as stated does not hold: on the scenario record the evaluation gives
    neither kmLeft = 800, healthScore = 87 at 9200 km nor kmLeft = 400,
    status DUE_SOON, healthScore = 60 at 9600 km. *)
Lemma C1_counterexample :
  let b1 := update_maintenance_status INT_MIN (scenario_bus 10000 9200)
              (mkDate 1 6 2024) in
  let b2 := update_maintenance_status INT_MIN (scenario_bus 10000 9600)
              (mkDate 1 6 2024) in
  ~ ((km_left b1 = float_of_int 800 /\ status b1 = STATUS_OK
      /\ health_score b1 = 87)
     /\ (km_left b2 = float_of_int 400 /\ status b2 = STATUS_DUE_SOON
         /\ health_score b2 = 60))
  /\ km_left b1 <> float_of_int 800 /\ health_score b1 <> 87
  /\ km_left b2 <> float_of_int 400 /\ status b2 <> STATUS_DUE_SOON
  /\ health_score b2 <> 60.
Proof.
  vm_compute. repeat split; try discriminate.
  intros [[_ [_ H]] _]. discriminate H.
Qed.

(** With a 1000 km interval (due at 10000 km) the scenario's kmLeft and
    status come out as 800 / OK and 400 / DUE_SOON, and the health scores
    are 86 and 59: the conversion to [int] truncates, and
    [(1.5f - 0.6f) / 1.5f * 100.0f] is just below 60 in binary32. *)
Lemma scenario_interval_1000 cast_undef :
  let b1 := update_maintenance_status cast_undef (scenario_bus 1000 9200)
              (mkDate 1 6 2024) in
  let b2 := update_maintenance_status cast_undef (scenario_bus 1000 9600)
              (mkDate 1 6 2024) in
  (km_left b1 = float_of_int 800 /\ status b1 = STATUS_OK
   /\ health_score b1 = 86)
  /\ (km_left b2 = float_of_int 400 /\ status b2 = STATUS_DUE_SOON
      /\ health_score b2 = 59).
Proof. vm_compute. repeat split; reflexivity. Qed.

(** C3. If currentMileage >= lastServiceMileage + serviceIntervalKm (the
    sum and the comparison as the program computes them, in binary32), the
    evaluated status is OVERDUE, whatever lastServiceDate,
    serviceIntervalDays and the reference date are. *)
Theorem C3_mileage_overdue cast_undef (b : Bus) (today : Date) :
  fge (current_mileage b)
      (fadd (last_service_mileage b) (service_interval_km b)) = true ->
  status (update_maintenance_status cast_undef b today) = STATUS_OVERDUE.
Proof.
  intros H. rewrite update_status. cbv zeta. rewrite H. reflexivity.
Qed.

Lemma C3_mileage_overdue_witness :
  status (update_maintenance_status INT_MIN (scenario_bus 10000 19000)
            (mkDate 1 6 2024)) = STATUS_OVERDUE.
Proof.
  apply (C3_mileage_overdue INT_MIN (scenario_bus 10000 19000)
           (mkDate 1 6 2024)).
  vm_compute. reflexivity.
Defined.

(** The day-interval rule of the evaluator. *)
Lemma date_overdue_by_days cast_undef (b : Bus) (today : Date) :
  0 < service_interval_days b ->
  is_valid_date (last_service b) = true ->
  is_valid_date today = true ->
  service_interval_days b
  <= int_sub (date_to_days today) (date_to_days (last_service b)) ->
  status (update_maintenance_status cast_undef b today) = STATUS_OVERDUE.
Proof.
  intros Hd Hl Ht Hs. rewrite update_status. cbv zeta.
  rewrite Hl, Ht.
  apply Z.ltb_lt in Hd. rewrite Hd.
  apply Z.leb_le in Hs. rewrite Hs.
  simpl. rewrite orb_true_r. reflexivity.
Qed.

(** C4 as stated does not hold: with lastServiceDate 32/01/2024 (not a
    structurally valid date), a 30-day interval and reference date
    01/01/2025, the day counts differ by 334 >= 30 and the status is OK. *)
Lemma C4_counterexample :
  let b := bad_date_bus in
  let today := mkDate 1 1 2025 in
  0 < service_interval_days b
  /\ service_interval_days b
     <= (year today * 365 + month today * 30 + day today)
        - (year (last_service b) * 365 + month (last_service b) * 30
           + day (last_service b))
  /\ status (update_maintenance_status INT_MIN b today) = STATUS_OK
  /\ status (update_maintenance_status INT_MIN b today) <> STATUS_OVERDUE.
Proof. vm_compute. repeat split; try discriminate; reflexivity. Qed.

(** C4 (as the code behaves). If serviceIntervalDays > 0, lastServiceDate
    and the reference date are both structurally valid, and
    dayCount(referenceDate) - dayCount(lastServiceDate) >=
    serviceIntervalDays, with the day counts and their difference as the
    program computes them ([date_to_days], 32-bit [int]), then the
    evaluated status is OVERDUE, whatever the mileage. *)
Theorem C4_date_overdue cast_undef (b : Bus) (today : Date) :
  0 < service_interval_days b ->
  is_valid_date (last_service b) = true ->
  is_valid_date today = true ->
  service_interval_days b
  <= int_sub (date_to_days today) (date_to_days (last_service b)) ->
  status (update_maintenance_status cast_undef b today) = STATUS_OVERDUE.
Proof.
  intros Hd Hl Ht Hs. rewrite update_status. cbv zeta.
  apply Z.ltb_lt in Hd. apply Z.leb_le in Hs.
  rewrite Hd, Hl, Ht, Hs, orb_true_r. reflexivity.
Qed.

Lemma C4_date_overdue_witness :
  fge (current_mileage day_interval_bus)
      (fadd (last_service_mileage day_interval_bus)
            (service_interval_km day_interval_bus)) = false
  /\ status (update_maintenance_status INT_MIN day_interval_bus
               (mkDate 1 9 2024)) = STATUS_OVERDUE.
Proof.
  split; [reflexivity|].
  apply (C4_date_overdue INT_MIN day_interval_bus (mkDate 1 9 2024)).
  - reflexivity.
  - reflexivity.
  - reflexivity.
  - vm_compute. discriminate.
Defined.

(** Under the same conditions on dates below year 5_000_000, where the day
    count is the plain formula and no difference overflows. *)
Lemma date_overdue_plain_formula cast_undef (b : Bus) (today : Date) :
  let dayCount d := year d * 365 + month d * 30 + day d in
  0 < service_interval_days b ->
  is_valid_date (last_service b) = true -> year (last_service b) <= 5000000 ->
  is_valid_date today = true -> year today <= 5000000 ->
  service_interval_days b <= dayCount today - dayCount (last_service b) ->
  status (update_maintenance_status cast_undef b today) = STATUS_OVERDUE.
Proof.
  intros dayCount Hd Hl Hly Ht Hty Hs.
  apply date_overdue_by_days; try assumption.
  rewrite (date_to_days_exact _ Hl Hly), (date_to_days_exact _ Ht Hty).
  unfold int_sub. apply is_valid_date_spec in Hl, Ht.
  rewrite wrap_small; subst dayCount; simpl in *;
    unfold INT_MIN, INT_MAX; lia.
Qed.

(** C5. After evaluation the health score is an integer in [0, 100], and
    it is exactly 50 whenever serviceIntervalKm == 0. *)
Theorem C5_health_score_range cast_undef (b : Bus) (today : Date) :
  0 <= health_score (update_maintenance_status cast_undef b today) <= 100
  /\ (feq (service_interval_km b) f0_0 = true ->
      health_score (update_maintenance_status cast_undef b today) = 50).
Proof.
  rewrite update_health_score. split.
  - destruct (fgt (service_interval_km b) f0_0); [|lia].
    cbv zeta. apply clamp_0_100.
  - intros H. rewrite (feq_zero_not_gt _ H). reflexivity.
Qed.

Lemma C5_health_score_range_witness :
  let b := update_maintenance_status INT_MIN (scenario_bus 0 9200)
             (mkDate 1 6 2024) in
  0 <= health_score b <= 100 /\ health_score b = 50.
Proof.
  pose proof (C5_health_score_range INT_MIN (scenario_bus 0 9200)
                (mkDate 1 6 2024)) as [Hr H50].
  split; [exact Hr | apply H50; reflexivity].
Defined.

(** C9. Evaluation writes only status, kmLeft, healthScore and
    nextDueDate: every other field of the record is unchanged. *)
Theorem C9_frame cast_undef (b : Bus) (today : Date) :
  let b' := update_maintenance_status cast_undef b today in
  bus_code b' = bus_code b
  /\ bus_no b' = bus_no b
  /\ driver_name b' = driver_name b
  /\ last_service b' = last_service b
  /\ current_mileage b' = current_mileage b
  /\ last_service_mileage b' = last_service_mileage b
  /\ service_interval_km b' = service_interval_km b
  /\ service_interval_days b' = service_interval_days b
  /\ service_history_count b' = service_history_count b
  /\ avg_daily_km b' = avg_daily_km b
  /\ fuel_efficiency b' = fuel_efficiency b.
Proof.
  unfold update_maintenance_status.
  destruct ((0 <? service_interval_days b) && is_valid_date (last_service b)
            && is_valid_date today); simpl; repeat split; reflexivity.
Qed.

(** C10. The day-count conversion is not invertible: a structurally valid
    date need not come back from [days_to_date (date_to_days d)]
    (31/01/2000 comes back as 01/02/2000); and a nextDueDate written by the
    evaluation never has a day above 29, even when lastServiceDate has
    (31/01/2000 plus 30 days is 01/03/2000). *)
Theorem C10_day_count_not_invertible :
  (exists d, is_valid_date d = true /\ days_to_date (date_to_days d) <> d)
  /\ days_to_date (date_to_days (mkDate 31 1 2000)) = mkDate 1 2 2000
  /\ (forall cast_undef b today,
        day (next_due (update_maintenance_status cast_undef b today)) <= 29)
  /\ (forall d n, day (add_days d n) <= 29)
  /\ add_days (mkDate 31 1 2000) 30 = mkDate 1 3 2000.
Proof.
  split; [|split; [|split; [|split]]].
  - exists (mkDate 31 1 2000). split; [reflexivity|].
    vm_compute. discriminate.
  - reflexivity.
  - intros u b today. rewrite update_next_due.
    destruct ((0 <? service_interval_days b) && is_valid_date (last_service b)
              && is_valid_date today).
    + apply add_days_day_le.
    + simpl. lia.
  - apply add_days_day_le.
  - reflexivity.
Qed.

(** ** Properties of the record store *)

Lemma tolower_toupper (c : ascii) : tolower (toupper c) = tolower c.
Proof. destruct c as [[] [] [] [] [] [] [] []]; reflexivity. Qed.

Lemma str_ieq_case_variant (a b : string) :
  str_ieq a b = true <-> case_variant a b.
Proof.
  unfold case_variant. revert b.
  induction a as [|ca a IH]; intros [|cb b]; simpl;
    try (split; [discriminate | intros H; discriminate H]).
  - split; reflexivity.
  - destruct (Ascii.eqb_spec (tolower ca) (tolower cb)) as [E | E]; simpl.
    + rewrite IH. split.
      * intros H. rewrite E, H. reflexivity.
      * intros H. injection H as _ H. exact H.
    + split; [discriminate|]. intros H. injection H as H _. contradiction.
Qed.

Lemma to_lower_to_upper (s : string) :
  to_lower_str (to_upper_str s) = to_lower_str s.
Proof.
  induction s as [|c s IH]; simpl; [reflexivity|].
  rewrite tolower_toupper, IH. reflexivity.
Qed.

Lemma str_ieq_to_upper (a b : string) :
  str_ieq a (to_upper_str b) = str_ieq a b.
Proof.
  apply eq_true_iff_eq. rewrite !str_ieq_case_variant.
  unfold case_variant. rewrite to_lower_to_upper. reflexivity.
Qed.

Lemma bus_code_exists_from_add (i : nat) (fleet : list Bus) (code : string) :
  bus_code_exists_from i fleet code (-1)
  = existsb (fun b => str_ieq (bus_code b) code) fleet.
Proof.
  revert i. induction fleet as [|b rest IH]; intros i; simpl; [reflexivity|].
  destruct (Z.eqb_spec (Z.of_nat i) (-1)) as [E | _]; [lia|].
  rewrite IH. destruct (str_ieq (bus_code b) code); reflexivity.
Qed.

Lemma bus_no_exists_from_add (i : nat) (fleet : list Bus) (no : Z) :
  bus_no_exists_from i fleet no (-1)
  = existsb (fun b => bus_no b =? no) fleet.
Proof.
  revert i. induction fleet as [|b rest IH]; intros i; simpl; [reflexivity|].
  destruct (Z.eqb_spec (Z.of_nat i) (-1)) as [E | _]; [lia|].
  rewrite IH. destruct (bus_no b =? no); reflexivity.
Qed.

Lemma bus_code_exists_add_true (fleet : list Bus) (code : string) :
  bus_code_exists fleet (to_upper_str code) (-1) = true
  <-> exists b, In b fleet /\ case_variant (bus_code b) code.
Proof.
  unfold bus_code_exists. rewrite bus_code_exists_from_add, existsb_exists.
  split; intros (b & Hin & H); exists b; split; try assumption.
  - rewrite str_ieq_to_upper in H. apply str_ieq_case_variant, H.
  - rewrite str_ieq_to_upper. apply str_ieq_case_variant, H.
Qed.

Lemma bus_code_exists_add_false (fleet : list Bus) (code : string) :
  (forall b, In b fleet -> ~ case_variant (bus_code b) code) ->
  bus_code_exists fleet (to_upper_str code) (-1) = false.
Proof.
  intros H. apply not_true_is_false. intros E.
  apply bus_code_exists_add_true in E as (b & Hin & Hv).
  exact (H b Hin Hv).
Qed.

Lemma bus_no_exists_add_true (fleet : list Bus) (no : Z) :
  bus_no_exists fleet no (-1) = true
  <-> exists b, In b fleet /\ bus_no b = no.
Proof.
  unfold bus_no_exists. rewrite bus_no_exists_from_add, existsb_exists.
  split; intros (b & Hin & H); exists b; split; try assumption.
  - apply Z.eqb_eq, H.
  - apply Z.eqb_eq, H.
Qed.

Lemma bus_no_exists_add_false (fleet : list Bus) (no : Z) :
  (forall b, In b fleet -> bus_no b <> no) ->
  bus_no_exists fleet no (-1) = false.
Proof.
  intros H. apply not_true_is_false. intros E.
  apply bus_no_exists_add_true in E as (b & Hin & Hv).
  exact (H b Hin Hv).
Qed.

Lemma read_bus_code_duplicate (fleet : list Bus) (code : string)
    (codes : list string) :
  code <> EmptyString ->
  (exists b, In b fleet /\ case_variant (bus_code b) code) ->
  read_bus_code fleet (code :: codes)
  = (DuplicateCode :: fst (read_bus_code fleet codes),
     snd (read_bus_code fleet codes)).
Proof.
  intros Hne Hex. apply bus_code_exists_add_true in Hex.
  destruct code as [|c code]; [contradiction|].
  cbn [read_bus_code]. rewrite Hex.
  destruct (read_bus_code fleet codes); reflexivity.
Qed.

Lemma read_bus_code_fresh (fleet : list Bus) (code : string)
    (codes : list string) :
  code <> EmptyString ->
  (forall b, In b fleet -> ~ case_variant (bus_code b) code) ->
  read_bus_code fleet (code :: codes)
  = ([], Some (strncpy (to_upper_str code) 19)).
Proof.
  intros Hne Hex. apply bus_code_exists_add_false in Hex.
  destruct code as [|c code]; [contradiction|].
  cbn [read_bus_code]. rewrite Hex. reflexivity.
Qed.

Lemma read_bus_no_duplicate (fleet : list Bus) (no : Z) (numbers : list Z) :
  (exists b, In b fleet /\ bus_no b = no) ->
  read_bus_no fleet (no :: numbers)
  = (DuplicateNumber :: fst (read_bus_no fleet numbers),
     snd (read_bus_no fleet numbers)).
Proof.
  intros Hex. apply bus_no_exists_add_true in Hex.
  cbn [read_bus_no]. rewrite Hex.
  destruct (read_bus_no fleet numbers); reflexivity.
Qed.

Lemma read_bus_no_fresh (fleet : list Bus) (no : Z) (numbers : list Z) :
  (forall b, In b fleet -> bus_no b <> no) ->
  read_bus_no fleet (no :: numbers) = ([], Some no).
Proof.
  intros Hex. apply bus_no_exists_add_false in Hex.
  cbn [read_bus_no]. rewrite Hex. reflexivity.
Qed.

(** C6 as stated does not hold: on the fleet that holds CHD-101A as bus 7,
    the empty code and the number 8 are both absent from the fleet, and
    the array has room, yet submitting them inserts nothing: the code
    prompt answers "Code cannot be empty" and the fleet is as it was. *)
Lemma C6_counterexample :
  (forall b, In b fleet_chd -> ~ case_variant (bus_code b) EmptyString)
  /\ (forall b, In b fleet_chd -> bus_no b <> 8)
  /\ add_bus fleet_chd true [EmptyString] [8] details_example
     = ([CodeEmpty], fleet_chd)
  /\ List.length (snd (add_bus fleet_chd true [EmptyString] [8]
                         details_example))
     = List.length fleet_chd.
Proof.
  split; [|split; [|split; reflexivity]].
  - intros b [<- | []] H. discriminate H.
  - intros b [<- | []]. discriminate.
Qed.

(** C6 (as the code behaves). A submitted code that is not empty and is a
    case variant of a code in the fleet is rejected with DuplicateCode;
    once a code is accepted (not empty, no case variant of it in the
    fleet), a submitted number that a record of the fleet already has is
    rejected with DuplicateNumber; the empty code is rejected with "Code
    cannot be empty"; when the array is full and cannot grow the insert
    is refused with "Memory allocation failed". A rejected submission
    leaves the fleet as it was (the prompt goes on from the same fleet,
    and with no further answer nothing is added). When the code is not
    empty, no record has a case variant of the code nor the number, and
    the array has room or can grow, one record is appended: it holds the
    code in upper case cut to 19 characters, the number, the submitted
    details, no nextDueDate, status OK, kmLeft 0 and healthScore 100. *)
Theorem C6_insert_uniqueness (fleet : list Bus) (d : BusDetails) :
  (forall code codes numbers,
      code <> EmptyString ->
      (exists b, In b fleet /\ case_variant (bus_code b) code) ->
      add_bus fleet true [code] numbers d = ([DuplicateCode], fleet)
      /\ add_bus fleet true (code :: codes) numbers d
         = (DuplicateCode :: fst (add_bus fleet true codes numbers d),
            snd (add_bus fleet true codes numbers d)))
  /\ (forall code no numbers,
      code <> EmptyString ->
      (forall b, In b fleet -> ~ case_variant (bus_code b) code) ->
      (exists b, In b fleet /\ bus_no b = no) ->
      add_bus fleet true [code] [no] d = ([DuplicateNumber], fleet)
      /\ add_bus fleet true [code] (no :: numbers) d
         = (DuplicateNumber :: fst (add_bus fleet true [code] numbers d),
            snd (add_bus fleet true [code] numbers d)))
  /\ (forall codes numbers,
      add_bus fleet true [EmptyString] numbers d = ([CodeEmpty], fleet)
      /\ add_bus fleet true (EmptyString :: codes) numbers d
         = (CodeEmpty :: fst (add_bus fleet true codes numbers d),
            snd (add_bus fleet true codes numbers d)))
  /\ (forall codes numbers,
      add_bus fleet false codes numbers d = ([AddAllocFailed], fleet))
  /\ (forall code no,
      code <> EmptyString ->
      (forall b, In b fleet -> ~ case_variant (bus_code b) code) ->
      (forall b, In b fleet -> bus_no b <> no) ->
      add_bus fleet true [code] [no] d
      = ([BusAdded (S (List.length fleet))],
         fleet
         ++ [{| bus_code := strncpy (to_upper_str code) 19;
                driver_name := strncpy (in_driver_name d) 49;
                bus_no := no;
                last_service := in_last_service d;
                next_due := mkDate 0 0 0;
                current_mileage := in_current_mileage d;
                last_service_mileage := in_last_service_mileage d;
                service_interval_km := in_service_interval_km d;
                service_interval_days := in_service_interval_days d;
                service_history_count := in_service_history_count d;
                status := STATUS_OK;
                km_left := f0_0;
                health_score := 100;
                avg_daily_km := in_avg_daily_km d;
                fuel_efficiency := in_fuel_efficiency d |}])).
Proof.
  split; [|split; [|split; [|split]]].
  - intros code codes numbers Hne Hex. unfold add_bus. cbn [negb].
    rewrite !read_bus_code_duplicate by assumption.
    split; [reflexivity|].
    destruct (read_bus_code fleet codes) as [ms1 [c|]]; simpl;
      [|reflexivity].
    destruct (read_bus_no fleet numbers) as [ms2 [n|]]; reflexivity.
  - intros code no numbers Hne Hfresh Hex. unfold add_bus. cbn [negb].
    rewrite read_bus_code_fresh by assumption.
    rewrite !read_bus_no_duplicate by assumption.
    split; [reflexivity|].
    destruct (read_bus_no fleet numbers) as [ms2 [n|]]; reflexivity.
  - intros codes numbers. unfold add_bus. cbn [negb read_bus_code].
    split; [reflexivity|].
    destruct (read_bus_code fleet codes) as [ms1 [c|]]; simpl;
      [|reflexivity].
    destruct (read_bus_no fleet numbers) as [ms2 [n|]]; reflexivity.
  - intros codes numbers. reflexivity.
  - intros code no Hne Hfresh Hno. unfold add_bus. cbn [negb].
    rewrite read_bus_code_fresh by assumption.
    rewrite read_bus_no_fresh by assumption.
    simpl. rewrite length_app, Nat.add_comm. reflexivity.
Qed.

Lemma C6_insert_uniqueness_witness :
  add_bus fleet_chd true ["chd-101a"%string] [8] details_example
  = ([DuplicateCode], fleet_chd)
  /\ add_bus fleet_chd true ["CHD-202B"%string] [7] details_example
     = ([DuplicateNumber], fleet_chd)
  /\ add_bus fleet_chd true ["chd-202b"%string] [8] details_example
     = ([BusAdded 2],
        fleet_chd
        ++ [{| bus_code := "CHD-202B"; driver_name := "Ravi Kumar";
               bus_no := 8; last_service := mkDate 10 3 2024;
               next_due := mkDate 0 0 0;
               current_mileage := float_of_int 80;
               last_service_mileage := float_of_int 50;
               service_interval_km := float_of_int 10000;
               service_interval_days := 180;
               service_history_count := 2;
               status := STATUS_OK; km_left := f0_0; health_score := 100;
               avg_daily_km := float_of_int 120;
               fuel_efficiency := float_of_int 4 |}]).
Proof.
  destruct (C6_insert_uniqueness fleet_chd details_example)
    as (Hcode & Hno & _ & _ & Hok).
  split; [|split].
  - apply (Hcode "chd-101a"%string [] [8]); [discriminate|].
    exists (scenario_bus 10000 9200). split; [left|]; reflexivity.
  - apply (Hno "CHD-202B"%string 7 []); [discriminate| |].
    + intros b [<- | []]. discriminate.
    + exists (scenario_bus 10000 9200). split; [left|]; reflexivity.
  - apply (Hok "chd-202b"%string 8); [discriminate| |].
    + intros b [<- | []]. discriminate.
    + intros b [<- | []]. discriminate.
Defined.

(** *** Deletion *)

Lemma find_bus_index_from_absent (i : nat) (fleet : list Bus) (no : Z) :
  (forall b, In b fleet -> bus_no b <> no) ->
  find_bus_index_from i fleet no = -1.
Proof.
  revert i. induction fleet as [|b rest IH]; intros i H; simpl;
    [reflexivity|].
  destruct (Z.eqb_spec (bus_no b) no) as [E | _].
  - exfalso. apply (H b); [left; reflexivity | exact E].
  - apply IH. intros x Hx. apply H. right. exact Hx.
Qed.

Lemma find_bus_index_from_first (i : nat) (l1 l2 : list Bus) (b : Bus)
    (no : Z) :
  (forall x, In x l1 -> bus_no x <> no) -> bus_no b = no ->
  find_bus_index_from i (l1 ++ b :: l2) no = Z.of_nat (i + List.length l1).
Proof.
  revert i. induction l1 as [|x l1 IH]; intros i H Hb; simpl.
  - rewrite Hb, Z.eqb_refl. f_equal. lia.
  - destruct (Z.eqb_spec (bus_no x) no) as [E | _].
    + exfalso. apply (H x); [left; reflexivity | exact E].
    + rewrite IH; [f_equal; lia | | exact Hb].
      intros y Hy. apply H. right. exact Hy.
Qed.

(** Every fleet splits at the first record with a given number, if any. *)
Lemma split_at_first (fleet : list Bus) (no : Z) :
  (exists b, In b fleet /\ bus_no b = no) ->
  exists l1 b l2,
    fleet = l1 ++ b :: l2 /\ bus_no b = no
    /\ (forall x, In x l1 -> bus_no x <> no).
Proof.
  induction fleet as [|x rest IH]; intros (b & Hin & Hb); [destruct Hin|].
  destruct (Z.eq_dec (bus_no x) no) as [E | E].
  - exists [], x, rest. repeat split; [exact E | intros y []].
  - destruct Hin as [-> | Hin]; [contradiction|].
    destruct IH as (l1 & b' & l2 & -> & Hb' & Hl1);
      [exists b; split; assumption|].
    exists (x :: l1), b', l2. repeat split; [exact Hb'|].
    intros y [<- | Hy]; [exact E | apply Hl1, Hy].
Qed.

Lemma array_set_middle (l1 l2 : list Bus) (x b : Bus) :
  array_set (l1 ++ x :: l2) (List.length l1) b = l1 ++ b :: l2.
Proof.
  induction l1 as [|y l1 IH]; simpl; [reflexivity|].
  rewrite IH. reflexivity.
Qed.

Lemma nth_error_after (l1 l2 : list Bus) (x : Bus) :
  nth_error (l1 ++ x :: l2) (S (List.length l1)) = nth_error l2 0.
Proof.
  induction l1 as [|y l1 IH]; simpl; [reflexivity|]. exact IH.
Qed.

Lemma last_cons_default (l : list Bus) (c b : Bus) :
  last (c :: l) b = last l c.
Proof.
  revert c b. induction l as [|x l IH]; intros c b; [reflexivity|].
  change (last (c :: x :: l) b) with (last (x :: l) b).
  rewrite (IH x b), (IH x c). reflexivity.
Qed.

(** The loop moves every record after position [length l1] one place to
    the left; the last slot keeps a stale copy of the last record. *)
Lemma shift_left_spec (l2 l1 : list Bus) (b : Bus) :
  shift_left (l1 ++ b :: l2) (List.length l1) (List.length l2)
  = l1 ++ l2 ++ [last l2 b].
Proof.
  revert l1 b. induction l2 as [|c l2 IH]; intros l1 b.
  - reflexivity.
  - cbn [List.length shift_left]. rewrite nth_error_after. cbn [nth_error].
    rewrite array_set_middle.
    replace (l1 ++ c :: c :: l2) with ((l1 ++ [c]) ++ c :: l2)
      by (rewrite <- app_assoc; reflexivity).
    replace (S (List.length l1)) with (List.length (l1 ++ [c]))
      by (rewrite length_app; simpl; lia).
    rewrite IH, <- app_assoc, last_cons_default. reflexivity.
Qed.

Lemma delete_bus_first (l1 l2 : list Bus) (b : Bus) (no : Z) :
  bus_no b = no -> (forall x, In x l1 -> bus_no x <> no) ->
  delete_bus (l1 ++ b :: l2) no
  = ([BusDeleted (List.length l1 + List.length l2)], l1 ++ l2).
Proof.
  intros Hb Hl1. unfold delete_bus, find_bus_index.
  rewrite (find_bus_index_from_first 0 l1 l2 b no Hl1 Hb).
  destruct (Z.eqb_spec (Z.of_nat (0 + List.length l1)) (-1)) as [E | _];
    [lia|].
  rewrite Nat2Z.id, length_app. cbn [List.length Nat.add].
  replace (List.length l1 + S (List.length l2) - 1)%nat
    with (List.length l1 + List.length l2)%nat by lia.
  replace (List.length l1 + List.length l2 - List.length l1)%nat
    with (List.length l2) by lia.
  rewrite shift_left_spec. f_equal.
  rewrite app_assoc, <- length_app.
  rewrite <- (Nat.add_0_r (List.length (l1 ++ l2))), firstn_app_2.
  cbn [firstn]. apply app_nil_r.
Qed.

(** C7. Deleting a number no record has reports NotFound and leaves the
    fleet unchanged. Otherwise the fleet splits as [l1 ++ b :: l2] around
    the first record [b] with that number, and after the deletion it is
    [l1 ++ l2]: exactly that record is removed, the other records keep
    their values and their order, the ones after it moving one place to the
    left. *)
Theorem C7_delete_by_number (fleet : list Bus) (no : Z) :
  ((forall b, In b fleet -> bus_no b <> no) ->
   delete_bus fleet no = ([NotFound], fleet))
  /\ (forall l1 b l2,
        fleet = l1 ++ b :: l2 -> bus_no b = no ->
        (forall x, In x l1 -> bus_no x <> no) ->
        delete_bus fleet no = ([BusDeleted (List.length fleet - 1)], l1 ++ l2))
  /\ ((exists b, In b fleet /\ bus_no b = no) ->
      exists l1 b l2,
        fleet = l1 ++ b :: l2 /\ bus_no b = no
        /\ (forall x, In x l1 -> bus_no x <> no)
        /\ snd (delete_bus fleet no) = l1 ++ l2
        /\ List.length (snd (delete_bus fleet no))
           = (List.length fleet - 1)%nat).
Proof.
  split; [|split].
  - intros H. unfold delete_bus, find_bus_index.
    rewrite (find_bus_index_from_absent 0 fleet no H). reflexivity.
  - intros l1 b l2 -> Hb Hl1. rewrite (delete_bus_first l1 l2 b no Hb Hl1).
    replace (List.length (l1 ++ b :: l2) - 1)%nat
      with (List.length l1 + List.length l2)%nat
      by (rewrite length_app; cbn [List.length]; lia).
    reflexivity.
  - intros Hex. destruct (split_at_first fleet no Hex)
      as (l1 & b & l2 & -> & Hb & Hl1).
    exists l1, b, l2. rewrite (delete_bus_first l1 l2 b no Hb Hl1).
    repeat split; try assumption.
    cbn [snd]. rewrite !length_app. cbn [List.length]. lia.
Qed.

Lemma C7_delete_by_number_witness :
  delete_bus [bus_8; scenario_bus 10000 9200; bus_9; day_interval_bus] 5
  = ([NotFound], [bus_8; scenario_bus 10000 9200; bus_9; day_interval_bus])
  /\ delete_bus [bus_8; scenario_bus 10000 9200; bus_9; day_interval_bus] 7
     = ([BusDeleted 3], [bus_8; bus_9; day_interval_bus])
  /\ snd (delete_bus [bus_8; bus_9] 9) = [bus_8].
Proof.
  split; [|split].
  - apply (C7_delete_by_number
             [bus_8; scenario_bus 10000 9200; bus_9; day_interval_bus] 5).
    intros b [<- | [<- | [<- | [<- | []]]]]; discriminate.
  - apply (proj1 (proj2 (C7_delete_by_number
             [bus_8; scenario_bus 10000 9200; bus_9; day_interval_bus] 7))
             [bus_8] (scenario_bus 10000 9200) [bus_9; day_interval_bus]).
    + reflexivity.
    + reflexivity.
    + intros x [<- | []]. discriminate.
  - destruct (proj2 (proj2 (C7_delete_by_number [bus_8; bus_9] 9)))
      as (l1 & b & l2 & Hsplit & Hb & Hl1 & Hres & Hlen).
    + exists bus_9. split; [right; left|]; reflexivity.
    + reflexivity.
Defined.

(** ** Rounding to hundredths and back *)

Lemma rne_div_near (n d : Z) :
  0 < d ->
  2 * Z.abs (n - rne_div n d * d) <= d
  /\ (2 * Z.abs (n - rne_div n d * d) = d -> Z.even (rne_div n d) = true).
Proof.
  intros Hd. unfold rne_div.
  pose proof (Z.div_mod n d ltac:(lia)) as Hn.
  pose proof (Z.mod_pos_bound n d Hd) as Hr.
  set (q := n / d) in *. set (r := n mod d) in *.
  assert (Hq : n - q * d = r) by lia.
  assert (Hq1 : n - (q + 1) * d = r - d) by lia.
  destruct (Z.compare_spec (2 * r) d) as [E | E | E].
  - destruct (Z.even q) eqn:Ev.
    + rewrite Hq. split; [lia | intros _; exact Ev].
    + rewrite Hq1. split; [lia|]. intros _.
      rewrite Z.add_1_r, Z.even_succ, <- Z.negb_even, Ev. reflexivity.
  - rewrite Hq. split; lia.
  - rewrite Hq1. split; lia.
Qed.

Lemma rne_div_unique (n d h : Z) :
  0 < d ->
  2 * Z.abs (n - h * d) <= d ->
  (2 * Z.abs (n - h * d) = d -> Z.even h = true) ->
  rne_div n d = h.
Proof.
  intros Hd Hh Hev.
  destruct (rne_div_near n d Hd) as [Hq Hqev].
  set (q := rne_div n d) in *.
  assert (Hdiff : Z.abs ((q - h) * d) <= d) by lia.
  assert (Hc : q = h \/ q = h + 1 \/ q = h - 1) by nia.
  destruct Hc as [E | [E | E]]; [exact E | exfalso | exfalso].
  - assert (E1 : 2 * Z.abs (n - h * d) = d) by nia.
    assert (E2 : 2 * Z.abs (n - q * d) = d) by nia.
    specialize (Hev E1). specialize (Hqev E2).
    rewrite E, Z.add_1_r, Z.even_succ, <- Z.negb_even, Hev in Hqev.
    discriminate.
  - assert (E1 : 2 * Z.abs (n - h * d) = d) by nia.
    assert (E2 : 2 * Z.abs (n - q * d) = d) by nia.
    specialize (Hev E1). specialize (Hqev E2).
    rewrite E, Z.sub_1_r, Z.even_pred, <- Z.negb_even, Hev in Hqev.
    discriminate.
Qed.

(** [rne_div n d] is an integer nearest to [n / d]. *)
Lemma rne_div_nearest (n d k : Z) :
  0 < d -> Z.abs (n - rne_div n d * d) <= Z.abs (n - k * d).
Proof.
  intros Hd.
  destruct (Z_le_gt_dec (Z.abs (n - rne_div n d * d)) (Z.abs (n - k * d)))
    as [H | H]; [exact H | exfalso].
  destruct (rne_div_near n d Hd) as [Hq _].
  assert (E : rne_div n d = k) by (apply rne_div_unique; lia).
  rewrite E in H. lia.
Qed.

Lemma rne_div_exact (a d : Z) : 0 < d -> rne_div (a * d) d = a.
Proof.
  intros Hd. apply rne_div_unique; [exact Hd | |];
    replace (a * d - a * d) with 0 by ring; simpl; lia.
Qed.

Lemma rne_div_scale (n d k : Z) :
  0 < d -> 0 < k -> rne_div (n * k) (d * k) = rne_div n d.
Proof.
  intros Hd Hk. destruct (rne_div_near n d Hd) as [Hq Hev].
  set (q := rne_div n d) in *.
  replace (n * k) with (k * n) by ring.
  apply rne_div_unique; [nia | |].
  - replace (k * n - q * (d * k)) with (k * (n - q * d)) by ring.
    rewrite Z.abs_mul, (Z.abs_eq k) by lia. nia.
  - replace (k * n - q * (d * k)) with (k * (n - q * d)) by ring.
    rewrite Z.abs_mul, (Z.abs_eq k) by lia. intros E. apply Hev. nia.
Qed.

Lemma digits2_pos_bound (m : positive) : Zpos m < 2 ^ Zpos (digits2_pos m).
Proof.
  induction m as [m IH | m IH |]; cbn [digits2_pos];
    rewrite ?Pos2Z.inj_succ, ?Z.pow_succ_r by lia; lia.
Qed.

(** A canonical finite binary32 number is a multiple [m * 2^(e + 149)] of
    2^-149 with [m < 2^24]. *)
Lemma bounded_facts (m : positive) (e : Z) :
  bounded prec emax m e = true -> -149 <= e <= 104 /\ Zpos m < 2 ^ 24.
Proof.
  unfold bounded, canonical_mantissa, fexp, emin, prec, emax.
  intros H. apply andb_true_iff in H as [Hc He].
  apply Z.eqb_eq in Hc. apply Z.leb_le in He.
  pose proof (digits2_pos_bound m) as Hm.
  split; [lia|].
  apply Z.lt_le_trans with (1 := Hm).
  apply Z.pow_le_mono_r; lia.
Qed.

Lemma cents_scaled (m : positive) (e : Z) :
  -149 <= e ->
  cents m e = rne_div (100 * (Zpos m * 2 ^ (e + 149))) (2 ^ 149).
Proof.
  intros He. unfold cents.
  destruct (Z.leb_spec 0 e) as [H | H].
  - rewrite Z.pow_add_r by lia.
    replace (100 * (Zpos m * (2 ^ e * 2 ^ 149)))
      with (100 * Zpos m * 2 ^ e * 2 ^ 149) by ring.
    symmetry. apply rne_div_exact. lia.
  - replace (2 ^ 149) with (2 ^ (- e) * 2 ^ (e + 149))
      by (rewrite <- Z.pow_add_r by lia; f_equal; lia).
    replace (100 * (Zpos m * 2 ^ (e + 149)))
      with (100 * Zpos m * 2 ^ (e + 149)) by ring.
    symmetry. apply rne_div_scale; apply Z.pow_pos_nonneg; lia.
Qed.

Lemma rne_div_between (n d a b : Z) :
  0 < d -> a * d <= n -> n <= b * d -> a <= rne_div n d <= b.
Proof.
  intros Hd Ha Hb.
  pose proof (rne_div_nearest n d a Hd) as Hna.
  pose proof (rne_div_nearest n d b Hd) as Hnb.
  set (q := rne_div n d) in *. split.
  - destruct (Z_le_gt_dec a q) as [H | H]; [exact H | exfalso].
    assert (q * d + d <= a * d) by nia. lia.
  - destruct (Z_le_gt_dec q b) as [H | H]; [exact H | exfalso].
    assert (b * d + d <= q * d) by nia. lia.
Qed.

(** [round_ratio] rounds to nearest: before the result is packed, the
    multiple [q * 2^g] of 2^-149 it has found is at least as near to
    [N / D] as any finite binary32 number [m * 2^e]. *)
Lemma round_ratio_nearest (N D : Z) (m : positive) (e : Z) :
  0 < N -> 0 < D -> bounded prec emax m e = true ->
  let T := N * 2 ^ 149 in
  let g := Z.max (Z.log2 (T / D) - 23) 0 in
  let q := rne_div T (D * 2 ^ g) in
  Z.abs (T - q * (D * 2 ^ g)) <= Z.abs (T - D * (Zpos m * 2 ^ (e + 149))).
Proof.
  intros HN HD Hb T g q.
  destruct (bounded_facts m e Hb) as [He Hm].
  assert (Hg0 : 0 <= g) by (unfold g; lia).
  assert (Hpg : 0 < 2 ^ g) by (apply Z.pow_pos_nonneg; lia).
  assert (HDg : 0 < D * 2 ^ g) by (apply Z.mul_pos_pos; assumption).
  destruct (Z_le_gt_dec g (e + 149)) as [Hge | Hge].
  - replace (D * (Zpos m * 2 ^ (e + 149)))
      with (Zpos m * 2 ^ (e + 149 - g) * (D * 2 ^ g)).
    + apply rne_div_nearest, HDg.
    + replace (e + 149) with (e + 149 - g + g) at 2 by lia.
      rewrite (Z.pow_add_r 2 (e + 149 - g) g) by lia. ring.
  - assert (Hgl : g = Z.log2 (T / D) - 23) by (unfold g in *; lia).
    assert (HTD : 0 < T / D).
    { destruct (Z_le_gt_dec (T / D) 0) as [Hz | Hz]; [|lia].
      exfalso. assert (Z.log2 (T / D) = 0) by (apply Z.log2_nonpos, Hz).
      lia. }
    pose proof (Z.log2_spec (T / D) HTD) as [Hlo _].
    replace (Z.log2 (T / D)) with (g + 23) in Hlo by lia.
    pose proof (Z.mul_div_le T D HD) as Hdiv.
    assert (HXlt : Zpos m * 2 ^ (e + 149) < 2 ^ (g + 23)).
    { replace (g + 23) with (24 + (g - 1)) by lia.
      rewrite (Z.pow_add_r 2 24 (g - 1)) by lia.
      apply Z.lt_le_trans with (2 ^ 24 * 2 ^ (e + 149)).
      - apply Z.mul_lt_mono_pos_r; [apply Z.pow_pos_nonneg; lia | lia].
      - apply Z.mul_le_mono_nonneg_l; [lia|].
        apply Z.pow_le_mono_r; lia. }
    apply Z.le_trans with (Z.abs (T - 2 ^ 23 * (D * 2 ^ g))).
    + apply rne_div_nearest, HDg.
    + replace (2 ^ 23 * (D * 2 ^ g)) with (D * 2 ^ (g + 23))
        by (rewrite Z.pow_add_r by lia; ring).
      assert (D * 2 ^ (g + 23) <= T) by nia.
      assert (D * (Zpos m * 2 ^ (e + 149)) <= D * 2 ^ (g + 23)) by nia.
      lia.
Qed.

(** The core of the round trip: the float nearest to [h / 100], where [h]
    is a finite float [x] in hundredths, is [h] hundredths again.  The
    float [x] itself is among the candidates of the rounding, so the
    result is at least as near to [h / 100] as [x] is, that is within
    half a hundredth. *)
Lemma round_ratio_cents (s : bool) (m : positive) (e : Z) :
  bounded prec emax m e = true ->
  0 < cents m e ->
  exists m' e',
    round_ratio s (cents m e) 100 = S754_finite s m' e'
    /\ cents m' e' = cents m e.
Proof.
  intros Hb Hpos.
  destruct (bounded_facts m e Hb) as [He Hm].
  pose proof (cents_scaled m e ltac:(lia)) as Hh.
  set (h := cents m e) in *.
  set (X := Zpos m * 2 ^ (e + 149)) in *.
  assert (HP : 0 < 2 ^ 149) by (apply Z.pow_pos_nonneg; lia).
  destruct (rne_div_near (100 * X) (2 ^ 149) HP) as [Hnear Hties].
  rewrite <- Hh in Hnear, Hties.
  assert (HX : 0 < X) by (apply Z.mul_pos_pos; [lia|];
                          apply Z.pow_pos_nonneg; lia).
  unfold round_ratio.
  set (T := h * 2 ^ 149) in *.
  assert (HT : 2 ^ 149 <= T) by (unfold T; nia).
  set (g := Z.max (Z.log2 (T / 100) - 23) 0).
  assert (Hg0 : 0 <= g) by (unfold g; lia).
  assert (Hpg : 0 < 2 ^ g) by (apply Z.pow_pos_nonneg; lia).
  set (q := rne_div T (100 * 2 ^ g)).
  assert (HT100 : 0 < T / 100).
  { apply Z.div_str_pos. split; [lia|].
    apply Z.le_trans with (2 := HT). change 100 with (25 * 2 ^ 2).
    replace (2 ^ 149) with (2 ^ 147 * 2 ^ 2) by (rewrite <- Z.pow_add_r; lia).
    apply Z.mul_le_mono_nonneg_r; [lia|].
    apply Z.le_trans with (2 ^ 5); [lia|]. apply Z.pow_le_mono_r; lia. }
  (* the result is at least as near to h/100 as x *)
  assert (Hnearest :
    Z.abs (T - q * (100 * 2 ^ g)) <= Z.abs (T - 100 * X)).
  { apply (round_ratio_nearest h 100 m e); [exact Hpos | lia | exact Hb]. }
  (* no overflow: the exponent stays in range, also after a carry *)
  assert (Hrange :
    (if q =? 2 ^ 24 then g + 1 else g) <= 253).
  { destruct (Z_le_gt_dec 0 e) as [He0 | He0].
    - assert (Hhx : T = X * 100).
      { unfold T, h, cents. destruct (Z.leb_spec 0 e); [|lia].
        unfold X. rewrite Z.pow_add_r by lia. ring. }
      assert (HTX : T / 100 = X) by (rewrite Hhx; apply Z.div_mul; lia).
      assert (HXlt : X < 2 ^ (173 + e)).
      { unfold X. replace (173 + e) with (24 + (e + 149)) by lia.
        rewrite (Z.pow_add_r 2 24 (e + 149)) by lia.
        apply Z.mul_lt_mono_pos_r; [apply Z.pow_pos_nonneg; lia | lia]. }
      assert (Hlog : Z.log2 (T / 100) < 173 + e).
      { rewrite HTX. apply Z.log2_lt_pow2; assumption. }
      destruct (Z.eq_dec g (e + 149)) as [Hge | Hge].
      + assert (Hq : q = Zpos m).
        { unfold q. rewrite Hhx, Hge. unfold X.
          replace (Zpos m * 2 ^ (e + 149) * 100)
            with (Zpos m * (100 * 2 ^ (e + 149))) by ring.
          apply rne_div_exact. lia. }
        destruct (Z.eqb_spec q (2 ^ 24)); lia.
      + destruct (q =? 2 ^ 24); unfold g in *; lia.
    - assert (HXlt : X < 2 ^ 172).
      { unfold X. change 172 with (24 + 148).
        rewrite (Z.pow_add_r 2 24 148) by lia.
        apply Z.lt_le_trans with (2 ^ 24 * 2 ^ (e + 149)).
        - apply Z.mul_lt_mono_pos_r; [apply Z.pow_pos_nonneg; lia | lia].
        - apply Z.mul_le_mono_nonneg_l; [lia|].
          apply Z.pow_le_mono_r; lia. }
      assert (Hlog : Z.log2 (T / 100) < 173).
      { apply Z.log2_lt_pow2; [assumption|].
        apply Z.div_lt_upper_bound; [lia|].
        assert (2 ^ 149 < 2 ^ 172) by (apply Z.pow_lt_mono_r; lia).
        replace (2 ^ 173) with (2 * 2 ^ 172)
          by (change 173 with (Z.succ 172); rewrite Z.pow_succ_r; lia).
        lia. }
      destruct (q =? 2 ^ 24); unfold g in *; lia. }
  (* the value of the result, whatever its representation *)
  set (qg := if q =? 2 ^ 24 then (2 ^ 23, g + 1) else (q, g)).
  assert (Hval : fst qg * 2 ^ snd qg = q * 2 ^ g /\ 0 <= snd qg <= 253).
  { unfold qg. destruct (Z.eqb_spec q (2 ^ 24)) as [Hq | Hq]; cbn [fst snd].
    - split; [|lia]. rewrite Hq, (Z.pow_add_r 2 g 1) by lia.
      generalize (2 ^ g). intros p. lia.
    - split; [reflexivity | lia]. }
  destruct qg as [q' g']. cbn [fst snd] in Hval.
  destruct Hval as [Hval Hg'].
  assert (Hpg' : 0 < 2 ^ g') by (apply Z.pow_pos_nonneg; lia).
  assert (HY : 0 < q' * 2 ^ g') by (rewrite Hval; nia).
  assert (Hq' : 0 < q') by nia.
  destruct q' as [|m'|m']; try lia.
  destruct (Z.leb_spec g' 253) as [_ | Hbad]; [|lia].
  exists m', (g' - 149). split; [reflexivity|].
  rewrite cents_scaled by lia.
  replace (g' - 149 + 149) with g' by lia. rewrite Hval.
  apply rne_div_unique; [exact HP | |].
  - fold T.
    replace (100 * (q * 2 ^ g) - T) with (- (T - q * (100 * 2 ^ g))) by ring.
    rewrite Z.abs_opp.
    replace (100 * X - T) with (- (T - 100 * X)) in Hnear by ring.
    rewrite Z.abs_opp in Hnear. lia.
  - fold T.
    replace (100 * (q * 2 ^ g) - T) with (- (T - q * (100 * 2 ^ g))) by ring.
    rewrite Z.abs_opp. intros Heq. apply Hties.
    replace (100 * X - T) with (- (T - 100 * X)) in * by ring.
    rewrite Z.abs_opp in *. lia.
Qed.

Lemma digits2_pos_lower (m : positive) :
  2 ^ (Zpos (digits2_pos m) - 1) <= Zpos m.
Proof.
  induction m as [m IH | m IH |]; cbn [digits2_pos];
    rewrite ?Pos2Z.inj_succ; [| |simpl; lia].
  - replace (Z.succ (Zpos (digits2_pos m)) - 1)
      with (Z.succ (Zpos (digits2_pos m) - 1)) by lia.
    rewrite Z.pow_succ_r by lia. lia.
  - replace (Z.succ (Zpos (digits2_pos m)) - 1)
      with (Z.succ (Zpos (digits2_pos m) - 1)) by lia.
    rewrite Z.pow_succ_r by lia. lia.
Qed.

Lemma canonical_normal (m : positive) (e : Z) :
  2 ^ 23 <= Zpos m < 2 ^ 24 -> -149 <= e ->
  canonical_mantissa prec emax m e = true.
Proof.
  intros [Hlo Hhi] He. unfold canonical_mantissa, fexp, emin, prec, emax.
  pose proof (digits2_pos_bound m) as Hub.
  pose proof (digits2_pos_lower m) as Hlb.
  assert (Hd : Zpos (digits2_pos m) = 24).
  { assert (23 < Zpos (digits2_pos m))
      by (apply (Z.pow_lt_mono_r_iff 2); lia).
    assert (Zpos (digits2_pos m) - 1 < 24)
      by (apply (Z.pow_lt_mono_r_iff 2); lia).
    lia. }
  rewrite Hd. apply Z.eqb_eq. lia.
Qed.

Lemma canonical_subnormal (m : positive) :
  Zpos m < 2 ^ 24 -> canonical_mantissa prec emax m (- 149) = true.
Proof.
  intros Hhi. unfold canonical_mantissa, fexp, emin, prec, emax.
  pose proof (digits2_pos_lower m) as Hlb.
  assert (Zpos (digits2_pos m) - 1 < 24)
    by (apply (Z.pow_lt_mono_r_iff 2); lia).
  apply Z.eqb_eq. lia.
Qed.

(** [round_ratio] yields a binary32 number in canonical form (or an
    infinity, on overflow). *)
Lemma round_ratio_valid (s : bool) (N D : Z) :
  0 < N -> 0 < D -> valid_binary prec emax (round_ratio s N D) = true.
Proof.
  intros HN HD. unfold round_ratio.
  set (T := N * 2 ^ 149).
  assert (HT : 0 < T) by (apply Z.mul_pos_pos; [lia|];
                          apply Z.pow_pos_nonneg; lia).
  set (g := Z.max (Z.log2 (T / D) - 23) 0).
  assert (Hg0 : 0 <= g) by (unfold g; lia).
  assert (Hpg : 0 < 2 ^ g) by (apply Z.pow_pos_nonneg; lia).
  assert (HDg : 0 < D * 2 ^ g) by (apply Z.mul_pos_pos; assumption).
  set (q := rne_div T (D * 2 ^ g)).
  pose proof (Z.div_mod T D ltac:(lia)) as Hdm.
  pose proof (Z.mod_pos_bound T D HD) as Hmod.
  assert (Hz : 0 <= T / D) by (apply Z.div_pos; lia).
  assert (Hq : (g = 0 -> 0 <= q <= 2 ^ 24)
               /\ (0 < g -> 2 ^ 23 <= q <= 2 ^ 24)).
  { split; intros Hg.
    - assert (Hzlt : T / D < 2 ^ 24).
      { destruct (Z.eq_dec (T / D) 0) as [-> | Hz0]; [reflexivity|].
        apply Z.log2_lt_pow2; [lia|]. unfold g in Hg. lia. }
      unfold q. rewrite Hg, Z.pow_0_r, Z.mul_1_r.
      apply rne_div_between; [exact HD | lia | nia].
    - assert (Hgl : Z.log2 (T / D) = g + 23) by (unfold g in *; lia).
      assert (HTD : 0 < T / D).
      { destruct (Z_le_gt_dec (T / D) 0) as [Hle | Hgt]; [|lia].
        exfalso. assert (Z.log2 (T / D) = 0) by (apply Z.log2_nonpos, Hle).
        lia. }
      pose proof (Z.log2_spec (T / D) HTD) as [Hlo Hhi].
      rewrite Hgl in Hlo, Hhi.
      replace (Z.succ (g + 23)) with (g + 24) in Hhi by lia.
      rewrite (Z.pow_add_r 2 g 23) in Hlo by lia.
      rewrite (Z.pow_add_r 2 g 24) in Hhi by lia.
      apply rne_div_between; [exact HDg | nia | nia]. }
  destruct Hq as [Hq0 Hq1].
  destruct (Z.eqb_spec q (2 ^ 24)) as [E | E].
  - change (2 ^ 23) with (Zpos 8388608).
    destruct (Z.leb_spec (g + 1) 253) as [Hr | Hr]; [|reflexivity].
    cbn [valid_binary]. unfold bounded. apply andb_true_iff. split.
    + apply canonical_normal; [split; reflexivity | lia].
    + apply Z.leb_le. unfold emax, prec. lia.
  - destruct q as [|m|m] eqn:Eq; [reflexivity | | reflexivity].
    destruct (Z.leb_spec g 253) as [Hr | Hr]; [|reflexivity].
    cbn [valid_binary]. unfold bounded. apply andb_true_iff. split.
    + destruct (Z.eq_dec g 0) as [Hg | Hg].
      * rewrite Hg. change (0 - 149) with (- 149).
        apply canonical_subnormal. specialize (Hq0 Hg). lia.
      * apply canonical_normal; [|lia].
        specialize (Hq1 ltac:(lia)). lia.
    + apply Z.leb_le. unfold emax, prec. lia.
Qed.

(** Decimal literals from the evaluator and the data file, and the ends
    of the binary32 range. *)
Lemma float_of_decimal_examples :
  float_of_decimal false 15 (- 1) = f1_5
  /\ float_of_decimal false 920000 (- 2) = float_of_int 9200
  /\ float_of_decimal false 1 (- 1) = fdiv (float_of_int 1) (float_of_int 10)
  /\ float_of_decimal true 2 (- 1) = fdiv (float_of_int (- 1)) (float_of_int 5)
  /\ float_of_decimal false 33554433 0 = float_of_int 33554433
  /\ float_of_decimal false 340282346638528859811704183484516925440 0
     = S754_finite false 16777215 104
  /\ float_of_decimal false 340282356779733661637539395458142568448 0
     = S754_infinity false
  /\ float_of_decimal false 8 (- 46) = S754_finite false 1 (- 149)
  /\ float_of_decimal false 7 (- 46) = S754_zero false.
Proof. vm_compute. repeat split; reflexivity. Qed.

(** ** Reading back what was written *)

Local Open Scope string_scope.
Local Open Scope Z_scope.

Lemma append_assoc (a b c : string) : (a ++ b) ++ c = a ++ (b ++ c).
Proof.
  induction a as [|x a IH]; cbn [String.append]; [reflexivity|].
  rewrite IH. reflexivity.
Qed.

Lemma digit_char_ok (d : Z) :
  0 <= d <= 9 ->
  is_digit (digit_char d) = true /\ digit_val (digit_char d) = d.
Proof.
  intros H.
  assert (E : d = 0 \/ d = 1 \/ d = 2 \/ d = 3 \/ d = 4 \/ d = 5 \/ d = 6
              \/ d = 7 \/ d = 8 \/ d = 9) by lia.
  repeat (destruct E as [-> | E]; [split; reflexivity|]).
  subst d. split; reflexivity.
Qed.

Lemma is_digit_not_space (c : ascii) :
  is_digit c = true -> is_space c = false.
Proof.
  destruct c as [[] [] [] [] [] [] [] []]; intros H;
    solve [reflexivity | discriminate H].
Qed.

Lemma scan_sign_digit (c : ascii) (s : string) :
  is_digit c = true -> scan_sign (String c s) = (false, String c s).
Proof.
  destruct c as [[] [] [] [] [] [] [] []]; intros H;
    solve [reflexivity | discriminate H].
Qed.

Lemma terminator_not_digit (c : ascii) : terminator c -> is_digit c = false.
Proof. intros [-> | ->]; reflexivity. Qed.

Lemma dec_digits_head (f : nat) (n : Z) (acc : string) :
  0 <= n ->
  exists c s, dec_digits (S f) n acc = String c s /\ is_digit c = true.
Proof.
  revert n acc. induction f as [|f IH]; intros n acc Hn.
  - cbn [dec_digits]. pose proof (Z.mod_pos_bound n 10 ltac:(lia)) as Hm.
    destruct (digit_char_ok (n mod 10) ltac:(lia)) as [Hd _].
    destruct (n <? 10); eexists; eexists; split; try reflexivity; exact Hd.
  - change (dec_digits (S (S f)) n acc)
      with (let acc' := String (digit_char (n mod 10)) acc in
            if n <? 10 then acc' else dec_digits (S f) (n / 10) acc').
    cbv zeta. destruct (Z.ltb_spec n 10) as [H | H].
    + pose proof (Z.mod_pos_bound n 10 ltac:(lia)) as Hm.
      destruct (digit_char_ok (n mod 10) ltac:(lia)) as [Hd _].
      eexists; eexists; split; [reflexivity | exact Hd].
    + apply IH. apply Z.div_pos; lia.
Qed.

Lemma dec_head (n : Z) :
  0 <= n -> exists c s, dec n = String c s /\ is_digit c = true.
Proof. intros H. unfold dec. apply dec_digits_head, H. Qed.

(** Scanning the digits of [n] multiplies the accumulator by a power of
    ten and adds [n]. *)
Lemma scan_dec_digits (f : nat) (n : Z) (acc rest : string) :
  0 <= n < 2 ^ Z.of_nat (S f) ->
  exists k, 0 < k /\ forall a l,
    scan_digits (dec_digits (S f) n acc ++ rest) a l
    = scan_digits (acc ++ rest) (a * 10 ^ k + n) (l + k).
Proof.
  revert n acc. induction f as [|f IH]; intros n acc Hn.
  - assert (H10 : n < 10) by (change (2 ^ Z.of_nat 1) with 2 in Hn; lia).
    cbn [dec_digits]. apply Z.ltb_lt in H10 as H10b. rewrite H10b.
    rewrite Z.mod_small by lia.
    destruct (digit_char_ok n ltac:(lia)) as [Hd Hv].
    exists 1. split; [lia|]. intros a l. cbn [String.append scan_digits].
    rewrite Hd, Hv. replace (a * 10 ^ 1 + n) with (a * 10 + n) by lia.
    reflexivity.
  - change (dec_digits (S (S f)) n acc)
      with (let acc' := String (digit_char (n mod 10)) acc in
            if n <? 10 then acc' else dec_digits (S f) (n / 10) acc').
    cbv zeta.
    pose proof (Z.mod_pos_bound n 10 ltac:(lia)) as Hm.
    destruct (digit_char_ok (n mod 10) ltac:(lia)) as [Hd Hv].
    destruct (Z.ltb_spec n 10) as [H | H].
    + exists 1. split; [lia|]. intros a l. cbn [String.append scan_digits].
      rewrite Hd, Hv, Z.mod_small by lia.
      replace (a * 10 ^ 1 + n) with (a * 10 + n) by lia. reflexivity.
    + destruct (IH (n / 10) (String (digit_char (n mod 10)) acc))
        as (k & Hk & Hscan).
      { split; [apply Z.div_pos; lia|].
        apply Z.div_lt_upper_bound; [lia|].
        rewrite (Nat2Z.inj_succ (S f)), Z.pow_succ_r in Hn by lia.
        assert (0 < 2 ^ Z.of_nat (S f)) by (apply Z.pow_pos_nonneg; lia).
        lia. }
      exists (k + 1). split; [lia|]. intros a l. rewrite Hscan.
      cbn [String.append scan_digits]. rewrite Hd, Hv.
      rewrite Z.pow_add_r by lia.
      pose proof (Z.div_mod n 10 ltac:(lia)) as Hdm.
      replace ((a * 10 ^ k + n / 10) * 10 + n mod 10)
        with (a * (10 ^ k * 10 ^ 1) + n) by lia.
      replace (l + k + 1) with (l + (k + 1)) by lia. reflexivity.
Qed.

Lemma scan_dec (n : Z) (c : ascii) (r : string) :
  0 <= n -> is_digit c = false ->
  exists k, 0 < k /\ forall a,
    scan_digits (dec n ++ String c r) a 0
    = (a * 10 ^ k + n, k, String c r).
Proof.
  intros Hn Hc. unfold dec.
  destruct (scan_dec_digits (Z.to_nat (Z.log2 n)) n "" (String c r))
    as (k & Hk & Hscan).
  { split; [exact Hn|]. rewrite Nat2Z.inj_succ, Z2Nat.id
      by apply Z.log2_nonneg.
    destruct (Z.eq_dec n 0) as [-> | Hn0]; [reflexivity|].
    apply Z.log2_spec. lia. }
  exists k. split; [exact Hk|]. intros a. rewrite Hscan.
  cbn [String.append scan_digits]. rewrite Hc. reflexivity.
Qed.

Lemma skip_space_nonspace (c : ascii) (s : string) :
  is_space c = false -> skip_space (String c s) = String c s.
Proof. intros H. cbn [skip_space]. rewrite H. reflexivity. Qed.

Lemma clamp_long_small (z : Z) :
  INT_MIN <= z <= INT_MAX -> Z.max LONG_MIN (Z.min LONG_MAX z) = z.
Proof. unfold INT_MIN, INT_MAX, LONG_MIN, LONG_MAX. lia. Qed.

(** [%d] reads back what [%d] wrote. *)
Lemma scan_int_print (z : Z) (c : ascii) (r : string) :
  in_int_range z = true -> terminator c ->
  scan_int (print_int z ++ String c r) = (Some z, String c r).
Proof.
  intros Hz Hc. apply terminator_not_digit in Hc.
  unfold in_int_range in Hz. apply andb_true_iff in Hz as [Hlo Hhi].
  apply Z.leb_le in Hlo, Hhi.
  unfold scan_int, print_int.
  destruct (Z.ltb_spec z 0) as [Hneg | Hpos].
  - destruct (scan_dec (- z) c r ltac:(lia) Hc) as (k & Hk & Hscan).
    cbn [String.append]. rewrite skip_space_nonspace by reflexivity.
    cbn [scan_sign]. rewrite Hscan.
    destruct (Z.eqb_spec k 0) as [E | _]; [lia|].
    rewrite Z.mul_0_l, Z.add_0_l, Z.opp_involutive.
    rewrite clamp_long_small, wrap_small by lia.
    reflexivity.
  - destruct (scan_dec z c r Hpos Hc) as (k & Hk & Hscan).
    destruct (dec_head z Hpos) as (c0 & s0 & Hdec & Hd0).
    rewrite Hdec in *. cbn [String.append] in *.
    rewrite skip_space_nonspace by (apply is_digit_not_space, Hd0).
    rewrite scan_sign_digit by exact Hd0. rewrite Hscan.
    destruct (Z.eqb_spec k 0) as [E | _]; [lia|].
    rewrite Z.mul_0_l, Z.add_0_l, clamp_long_small, wrap_small by lia.
    reflexivity.
Qed.

Lemma cents_nonneg (m : positive) (e : Z) : 0 <= cents m e.
Proof.
  unfold cents. destruct (Z.leb_spec 0 e) as [H | H].
  - apply Z.mul_nonneg_nonneg; [lia|]. apply Z.pow_nonneg. lia.
  - assert (Hp : 0 < 2 ^ (- e)) by (apply Z.pow_pos_nonneg; lia).
    unfold rne_div.
    assert (0 <= 100 * Zpos m / 2 ^ (- e)) by (apply Z.div_pos; lia).
    destruct (2 * ((100 * Zpos m) mod 2 ^ (- e)) ?= 2 ^ (- e));
      [destruct (Z.even _)|..]; lia.
Qed.

Lemma scan_sign_str (s : bool) (c : ascii) (r : string) :
  is_digit c = true ->
  skip_space (sign_str s ++ String c r) = sign_str s ++ String c r
  /\ scan_sign (sign_str s ++ String c r) = (s, String c r).
Proof.
  intros Hd. destruct s; cbn [sign_str String.append].
  - split; reflexivity.
  - split; [apply skip_space_nonspace, is_digit_not_space, Hd
           | apply scan_sign_digit, Hd].
Qed.

Lemma scan_float_tail (h : Z) (c : ascii) (r : string) (s : bool) (a : Z) :
  0 <= h -> terminator c -> 0 <= a ->
  let tail := String "." (String (digit_char (h / 10 mod 10))
                (String (digit_char (h mod 10)) (String c r))) in
  forall ilen, 0 < ilen ->
  (let '(m, flen, input) :=
     match tail with
     | String "." rest => scan_digits rest a 0
     | _ => (a, 0, tail)
     end in
   if ilen + flen =? 0 then (None, input)
   else
     match input with
     | String ("e" | "E") rest =>
         let '(eneg, rest) := scan_sign rest in
         let '(x, xlen, rest) := scan_digits rest 0 0 in
         if xlen =? 0 then (None, rest)
         else (Some (float_of_decimal s m ((if eneg then - x else x) - flen)),
               rest)
     | _ => (Some (float_of_decimal s m (- flen)), input)
     end)
  = (Some (float_of_decimal s
             (a * 100 + (h / 10 mod 10) * 10 + h mod 10) (- 2)),
     String c r).
Proof.
  intros Hh Hc Ha tail ilen Hilen. subst tail. cbv iota beta.
  cbn [scan_digits].
  pose proof (Z.mod_pos_bound (h / 10) 10 ltac:(lia)) as H1.
  pose proof (Z.mod_pos_bound h 10 ltac:(lia)) as H2.
  destruct (digit_char_ok (h / 10 mod 10) ltac:(lia)) as [Hd1 Hv1].
  destruct (digit_char_ok (h mod 10) ltac:(lia)) as [Hd2 Hv2].
  rewrite Hd1, Hd2, Hv1, Hv2, (terminator_not_digit c Hc).
  destruct (Z.eqb_spec (ilen + (0 + 1 + 1)) 0) as [E | _]; [lia|].
  replace ((a * 10 + h / 10 mod 10) * 10 + h mod 10)
    with (a * 100 + h / 10 mod 10 * 10 + h mod 10) by ring.
  destruct Hc as [-> | ->]; reflexivity.
Qed.

(** [%f] reads back what [%.2f] wrote for a finite number. *)
Lemma scan_float_print (x : float) (c : ascii) (r : string) :
  match x with S754_zero _ | S754_finite _ _ _ => True | _ => False end ->
  terminator c ->
  scan_float (print_f2 x ++ String c r) = (Some (reread x), String c r).
Proof.
  intros Hx Hc. destruct x as [s | s | | s m e]; try contradiction.
  - unfold print_f2, scan_float. rewrite append_assoc.
    destruct (scan_sign_str s "0" ("." ++ "00" ++ String c r) eq_refl)
      as [Hsk Hsg].
    cbn [String.append] in *. rewrite Hsk, Hsg.
    cbn [scan_digits]. cbv beta iota.
    rewrite (terminator_not_digit c Hc).
    destruct Hc as [-> | ->]; reflexivity.
  - pose proof (cents_nonneg m e) as Hh.
    unfold print_f2, scan_float, reread. set (h := cents m e) in *.
    cbv zeta.
    assert (Hi : 0 <= h / 100) by (apply Z.div_pos; lia).
    destruct (dec_head (h / 100) Hi) as (c0 & s0 & Hdec & Hd0).
    destruct (scan_dec (h / 100) "." 
                (String (digit_char (h / 10 mod 10))
                   (String (digit_char (h mod 10)) (String c r)))
                Hi eq_refl) as (k & Hk & Hscan).
    rewrite !append_assoc. cbn [String.append].
    rewrite Hdec in *. cbn [String.append] in *.
    destruct (scan_sign_str s c0
                (s0 ++ String "." (String (digit_char (h / 10 mod 10))
                   (String (digit_char (h mod 10)) (String c r)))) Hd0)
      as [Hsk Hsg].
    rewrite Hsk, Hsg, Hscan.
    rewrite (scan_float_tail h c r s (0 * 10 ^ k + h / 100) Hh Hc
               ltac:(lia) k Hk).
    rewrite Z.mul_0_l, Z.add_0_l.
    replace (h / 100 * 100 + h / 10 mod 10 * 10 + h mod 10) with h;
      [reflexivity|].
    clear. Z.div_mod_to_equations. lia.
Qed.

Lemma reread_same (x : float) :
  is_finite32 x = true -> print_f2 (reread x) = print_f2 x.
Proof.
  destruct x as [s | s | | s m e]; try reflexivity. intros Hb.
  cbn [is_finite32] in Hb. unfold reread, float_of_decimal.
  pose proof (cents_nonneg m e) as Hh.
  destruct (Z.eqb_spec (cents m e) 0) as [E | E].
  - unfold print_f2. rewrite E. reflexivity.
  - destruct (round_ratio_cents s m e Hb ltac:(lia)) as (m' & e' & Hr & Hc).
    change (0 <=? - 2) with false. cbv iota.
    change (10 ^ (- - 2)) with 100. rewrite Hr.
    unfold print_f2. rewrite Hc. reflexivity.
Qed.

Lemma is_finite32_shape (x : float) :
  is_finite32 x = true ->
  match x with S754_zero _ | S754_finite _ _ _ => True | _ => False end.
Proof. destruct x; simpl; intros H; try exact I; discriminate H. Qed.

Lemma scan_not_bar_print (w : nat) (s r : string) :
  (String.length s <= w)%nat -> no_bar s = true ->
  scan_not_bar w (s ++ String "|" r) = (s, String "|" r).
Proof.
  revert w. induction s as [|c s IH]; intros w Hlen Hnb.
  - destruct w; reflexivity.
  - destruct w as [|w]; [simpl in Hlen; lia|].
    cbn [no_bar] in Hnb. apply andb_true_iff in Hnb as [Hc Hnb].
    cbn [String.append scan_not_bar].
    destruct (Ascii.eqb c "|"); [discriminate Hc|].
    rewrite IH; [reflexivity | simpl in Hlen; lia | exact Hnb].
Qed.

Lemma scan_set_print (w : nat) (s r : string) :
  wf_text w s = true ->
  scan_set w (s ++ String "|" r) = (Some s, String "|" r).
Proof.
  intros H. unfold wf_text in H. destruct s as [|c s]; [discriminate H|].
  apply andb_true_iff in H as [Hlen Hnb]. apply Nat.leb_le in Hlen.
  unfold scan_set. rewrite scan_not_bar_print by assumption. reflexivity.
Qed.

Lemma fscanf_set_bar (w : nat) (st : string -> Slot -> Slot)
    (fmt : list item) (s r : string) (slot : Slot) :
  wf_text w s = true ->
  fscanf (ConvSet w st :: Lit "|" :: fmt) (s ++ String "|" r) slot
  = bump (fscanf fmt r (st s slot)).
Proof.
  intros H.
  change (fscanf (ConvSet w st :: Lit "|" :: fmt) (s ++ String "|" r) slot)
    with (match scan_set w (s ++ String "|" r) with
          | (Some s', rest) =>
              bump (fscanf (Lit "|" :: fmt) rest (st s' slot))
          | (None, rest) => (0, rest, slot)
          end).
  rewrite scan_set_print by exact H. reflexivity.
Qed.

Lemma fscanf_int_bar (st : Z -> Slot -> Slot) (fmt : list item) (z : Z)
    (r : string) (slot : Slot) :
  in_int_range z = true ->
  fscanf (ConvInt st :: Lit "|" :: fmt) (print_int z ++ String "|" r) slot
  = bump (fscanf fmt r (st z slot)).
Proof.
  intros H.
  change (fscanf (ConvInt st :: Lit "|" :: fmt)
            (print_int z ++ String "|" r) slot)
    with (match scan_int (print_int z ++ String "|" r) with
          | (Some z', rest) =>
              bump (fscanf (Lit "|" :: fmt) rest (st z' slot))
          | (None, rest) => (0, rest, slot)
          end).
  rewrite scan_int_print by (try exact H; left; reflexivity). reflexivity.
Qed.

Lemma fscanf_float_bar (st : float -> Slot -> Slot) (fmt : list item)
    (x : float) (r : string) (slot : Slot) :
  is_finite32 x = true ->
  fscanf (ConvFloat st :: Lit "|" :: fmt) (print_f2 x ++ String "|" r) slot
  = bump (fscanf fmt r (st (reread x) slot)).
Proof.
  intros H.
  change (fscanf (ConvFloat st :: Lit "|" :: fmt)
            (print_f2 x ++ String "|" r) slot)
    with (match scan_float (print_f2 x ++ String "|" r) with
          | (Some x', rest) =>
              bump (fscanf (Lit "|" :: fmt) rest (st x' slot))
          | (None, rest) => (0, rest, slot)
          end).
  rewrite scan_float_print
    by (try (apply is_finite32_shape, H); left; reflexivity).
  reflexivity.
Qed.

Lemma fscanf_float_end (st : float -> Slot -> Slot) (x : float)
    (r : string) (slot : Slot) :
  is_finite32 x = true ->
  fscanf [ConvFloat st; Space] (print_f2 x ++ String LF r) slot
  = (1, skip_space r, st (reread x) slot).
Proof.
  intros H.
  change (fscanf [ConvFloat st; Space] (print_f2 x ++ String LF r) slot)
    with (match scan_float (print_f2 x ++ String LF r) with
          | (Some x', rest) =>
              bump (fscanf [Space] rest (st x' slot))
          | (None, rest) => (0, rest, slot)
          end).
  rewrite scan_float_print
    by (try (apply is_finite32_shape, H); right; reflexivity).
  reflexivity.
Qed.

(** [fscanf] on a line written for a well-formed record stores all
    nineteen fields, whatever the slot held before. *)
Lemma fscanf_fprintf_bus (b : Bus) (rest : string) (slot : Slot) :
  wf_bus b = true ->
  exists slot',
    fscanf bus_format (fprintf_bus b ++ rest) slot
    = (19, skip_space rest, slot')
    /\ st_status slot' = reread_bus b.
Proof.
  intros Hwf. unfold wf_bus, wf_date in Hwf. split_wf Hwf.
  unfold wf_date in *.
  repeat match goal with
         | H : (_ && _) = true |- _ => apply andb_true_iff in H as [? ?]
         end.
  unfold fprintf_bus, bar. rewrite !append_assoc. cbn [String.append].
  unfold bus_format.
  rewrite 2 fscanf_set_bar by assumption.
  rewrite 7 fscanf_int_bar by assumption.
  rewrite 3 fscanf_float_bar by assumption.
  rewrite 3 fscanf_int_bar by assumption.
  rewrite fscanf_float_bar by assumption.
  rewrite fscanf_int_bar by assumption.
  rewrite fscanf_float_bar by assumption.
  rewrite fscanf_float_end by assumption.
  cbn [bump]. eexists. split; [reflexivity|].
  destruct slot as [b0 z0]. destruct b as []. destruct last_service0.
  destruct next_due0. reflexivity.
Qed.

Lemma skip_space_fprintf_fleet (fleet : list Bus) :
  forallb wf_bus fleet = true ->
  skip_space (fprintf_fleet fleet) = fprintf_fleet fleet.
Proof.
  destruct fleet as [|b rest]; [reflexivity|].
  cbn [forallb fprintf_fleet]. intros H.
  apply andb_true_iff in H as [Hwf _].
  unfold wf_bus in Hwf. split_wf Hwf.
  unfold fprintf_bus. rewrite !append_assoc.
  destruct (bus_code b) as [|c s]; [discriminate Hwf|].
  cbn [String.append]. apply skip_space_nonspace.
  cbn [starts_with_space] in *. apply negb_true_iff. assumption.
Qed.

Lemma load_records_fprintf (fleet : list Bus) (i : nat)
    (slot0 : nat -> Bus) (status0 : nat -> Z) :
  forallb wf_bus fleet = true ->
  load_records (List.length fleet) i (fprintf_fleet fleet) slot0 status0
  = ([], map reread_bus fleet).
Proof.
  revert i. induction fleet as [|b rest IH]; intros i H; [reflexivity|].
  cbn [forallb] in H. apply andb_true_iff in H as [Hb Hrest].
  cbn [List.length fprintf_fleet load_records map].
  destruct (fscanf_fprintf_bus b (fprintf_fleet rest)
              (slot0 i, status0 i) Hb) as (slot' & Hscan & Hslot).
  rewrite Hscan, Hslot, (skip_space_fprintf_fleet rest Hrest).
  rewrite (IH (S i) Hrest). reflexivity.
Qed.

(** What [load_fleet_from_file] makes of the file [save_fleet_to_file]
    wrote for a well-formed fleet. *)
Lemma load_save (fleet : list Bus) (slot0 : nat -> Bus)
    (status0 : nat -> Z) :
  wf_fleet fleet = true ->
  load_fleet_from_file (save_fleet_to_file fleet true) true slot0 status0
  = match fleet with
    | [] => ([DataFileInvalid], [])
    | _ :: _ => ([FleetLoaded (Z.of_nat (List.length fleet))],
                 map reread_bus fleet)
    end.
Proof.
  unfold wf_fleet. intros H. apply andb_true_iff in H as [Hwf Hlen].
  apply Z.leb_le in Hlen.
  unfold save_fleet_to_file, load_fleet_from_file.
  cbn [String.append].
  rewrite scan_int_print.
  - destruct fleet as [|b rest]; [reflexivity|].
    destruct (Z.leb_spec (Z.of_nat (List.length (b :: rest))) 0) as [E | _];
      [cbn [List.length] in E; lia|].
    cbn [skip_space]. change (is_space LF) with true. cbv iota.
    rewrite (skip_space_fprintf_fleet _ Hwf), Nat2Z.id.
    rewrite (load_records_fprintf _ 0 slot0 status0 Hwf). reflexivity.
  - unfold in_int_range, INT_MIN. apply andb_true_iff.
    split; [apply Z.leb_le; lia | apply Z.leb_le; exact Hlen].
  - right. reflexivity.
Qed.

Lemma same_record_reread (b : Bus) :
  wf_bus b = true -> same_record b (reread_bus b).
Proof.
  intros Hwf. unfold wf_bus in Hwf. split_wf Hwf.
  unfold same_record, same_2dp, reread_bus; cbn.
  repeat split; symmetry; apply reread_same; assumption.
Qed.

Lemma Forall2_same_record_reread (fleet : list Bus) :
  forallb wf_bus fleet = true ->
  Forall2 same_record fleet (map reread_bus fleet).
Proof.
  induction fleet as [|b rest IH]; intros H; [constructor|].
  cbn [forallb] in H. apply andb_true_iff in H as [Hb Hrest].
  constructor; [apply same_record_reread, Hb | apply IH, Hrest].
Qed.

(** C8 (as the code behaves). For a fleet of records whose code and driver
    name are non-empty, fit their arrays and contain no bar, whose code
    does not start with white space, whose integers are [int]s and whose
    decimals are finite, loading the file that saving wrote (into an
    array that could grow to hold it) yields a fleet of the same length, without any corrupted-line warning, whose
    records have every string, integer, date and status identical to the
    original and every decimal field identical to two decimal places,
    the derived fields included; whatever the array held before. *)
Theorem C8_round_trip (fleet : list Bus) (slot0 : nat -> Bus)
    (status0 : nat -> Z) :
  wf_fleet fleet = true ->
  let '(msgs, fleet') :=
    load_fleet_from_file (save_fleet_to_file fleet true) true slot0 status0 in
  List.length fleet' = List.length fleet
  /\ Forall2 same_record fleet fleet'
  /\ ~ In CorruptedLine msgs.
Proof.
  intros Hwf. rewrite (load_save fleet slot0 status0 Hwf).
  unfold wf_fleet in Hwf. apply andb_true_iff in Hwf as [Hwf _].
  destruct fleet as [|b rest].
  - repeat split; [constructor | intros [H | []]; discriminate H].
  - repeat split.
    + apply length_map.
    + apply Forall2_same_record_reread, Hwf.
    + intros [H | []]. discriminate H.
Qed.

Lemma C8_round_trip_witness :
  wf_fleet fleet_evaluated = true
  /\ let '(msgs, fleet') :=
       load_fleet_from_file (save_fleet_to_file fleet_evaluated true) true
         (fun _ => blank_bus) (fun _ => 0) in
     List.length fleet' = List.length fleet_evaluated
     /\ Forall2 same_record fleet_evaluated fleet'
     /\ ~ In CorruptedLine msgs.
Proof.
  split; [reflexivity|].
  apply (C8_round_trip fleet_evaluated (fun _ => blank_bus) (fun _ => 0)).
  reflexivity.
Defined.

(** White space in front of a code is not read back: the directive that
    ends the previous line skips it. *)
Lemma leading_space_lost :
  map bus_code fleet_space = [" X1"%string]
  /\ load_fleet_from_file (save_fleet_to_file fleet_space true) true
       (fun _ => blank_bus) (fun _ => 0)
     = ([FleetLoaded 1],
        map (fun b => st_status (st_bus_code "X1" (reread_bus b, status b)))
          fleet_space).
Proof. vm_compute. split; reflexivity. Qed.

Lemma same_record_driver_names (l l' : list Bus) :
  Forall2 same_record l l' -> map driver_name l' = map driver_name l.
Proof.
  induction 1 as [|b b' l l' Hsame _ IH]; [reflexivity|].
  destruct Hsame as (_ & Hname & _). cbn [map]. rewrite Hname, IH.
  reflexivity.
Qed.

Lemma load_save_fleet_bar :
  load_fleet_from_file (save_fleet_to_file fleet_bar true) true
    (fun _ => blank_bus) (fun _ => 0)
  = ([CorruptedLine; FleetLoaded 1],
     [ {| bus_code := "CHD-202B"; driver_name := "Ravi"; bus_no := 0;
          last_service := mkDate 0 0 0; next_due := mkDate 0 0 0;
          current_mileage := f0_0; last_service_mileage := f0_0;
          service_interval_km := f0_0; service_interval_days := 0;
          service_history_count := 0; status := 0; km_left := f0_0;
          health_score := 0; avg_daily_km := f0_0;
          fuel_efficiency := f0_0 |} ]).
Proof. vm_compute. reflexivity. Qed.

(** C8 as stated does not hold: the fleet that [add_bus] builds for the
    driver name "Ravi|Kumar" is written with the name cut in two fields,
    and read back as a record with the driver "Ravi" whose number and
    later fields were never read. *)
Lemma C8_counterexample :
  let fleet' :=
    snd (load_fleet_from_file (save_fleet_to_file fleet_bar true) true
           (fun _ => blank_bus) (fun _ => 0)) in
  map driver_name fleet_bar = ["Ravi|Kumar"%string]
  /\ map driver_name fleet' = ["Ravi"%string]
  /\ map bus_no fleet_bar = [8] /\ map bus_no fleet' = [0]
  /\ ~ Forall2 same_record fleet_bar fleet'.
Proof.
  cbv zeta. rewrite load_save_fleet_bar. cbn [snd map driver_name bus_no].
  split; [reflexivity|]. split; [reflexivity|].
  split; [reflexivity|]. split; [reflexivity|].
  intros H. apply same_record_driver_names in H. discriminate H.
Qed.

(** *** A corrupted line *)

(** The two records [load_fleet_from_file] makes of [corrupt_file]. *)
Lemma load_corrupt_file (slot0 : nat -> Bus) (status0 : nat -> Z) :
  load_fleet_from_file (Some corrupt_file) true slot0 status0
  = ([CorruptedLine; CorruptedLine; FleetLoaded 2],
     [corrupt_record_0 slot0 status0; corrupt_record_1 slot0 status0]).
Proof. vm_compute. reflexivity. Qed.

Lemma load_sound_file (slot0 : nat -> Bus) (status0 : nat -> Z) :
  map bus_code
    (snd (load_fleet_from_file (Some sound_file) true slot0 status0))
  = ["CHD-202B"%string].
Proof. vm_compute. reflexivity. Qed.

(** C2 on the code. Loading [corrupt_file], into an array that could grow
    to its two records, warns twice and still reports two buses loaded. The corrupted line is not skipped: it becomes a
    record that has the code and the driver of the line and, in every
    other field, what the array slot and [status_int] held before the
    load. The line after it is not read as a record either: reading goes
    on at the word "seven", which becomes the code of the second record,
    and bus 8 (CHD-202B), which loads from [sound_file], is not in the
    fleet. *)
Theorem C2_corrupt_line_kept (slot0 : nat -> Bus) (status0 : nat -> Z) :
  let '(msgs, fleet) :=
    load_fleet_from_file (Some corrupt_file) true slot0 status0 in
  msgs = [CorruptedLine; CorruptedLine; FleetLoaded 2]
  /\ fleet = [corrupt_record_0 slot0 status0; corrupt_record_1 slot0 status0]
  /\ (forall b, In b fleet -> bus_code b <> "CHD-202B"%string)
  /\ map bus_code
       (snd (load_fleet_from_file (Some sound_file) true slot0 status0))
     = ["CHD-202B"%string].
Proof.
  rewrite load_corrupt_file.
  split; [reflexivity|]. split; [reflexivity|]. split.
  - intros b [<- | [<- | []]]; discriminate.
  - apply load_sound_file.
Qed.

(** ** Further properties of the calendar and the evaluator *)

Local Close Scope string_scope.

Lemma wrap_in_range (z : Z) : INT_MIN <= wrap z <= INT_MAX.
Proof.
  unfold wrap, INT_MIN, INT_MAX.
  pose proof (Z.mod_pos_bound (z + 2 ^ 31) (2 ^ 32) eq_refl). lia.
Qed.

Lemma date_to_days_no_overflow (d : Date) :
  is_valid_date d = true -> year d <= 5800000 ->
  date_to_days d = year d * 365 + month d * 30 + day d.
Proof.
  intros Hv Hy. apply is_valid_date_spec in Hv.
  unfold date_to_days, int_add, int_mul.
  rewrite (wrap_small (year d * 365)) by (unfold INT_MIN, INT_MAX; lia).
  rewrite (wrap_small (month d * 30)) by (unfold INT_MIN, INT_MAX; lia).
  rewrite (wrap_small (year d * 365 + month d * 30))
    by (unfold INT_MIN, INT_MAX; lia).
  apply wrap_small. unfold INT_MIN, INT_MAX; lia.
Qed.

(** [days_to_date] on a day count that did not overflow. *)
Lemma days_to_date_exact (total : Z) :
  0 <= total <= INT_MAX ->
  days_to_date total
  = {| day := (let r := total mod 365 mod 30 in if r =? 0 then 1 else r);
       month := (let q := total mod 365 / 30 in if q =? 0 then 1 else q);
       year := total / 365 |}.
Proof.
  intros H. unfold INT_MAX in H. unfold days_to_date, int_div, int_rem.
  rewrite (Z.rem_mod_nonneg total 365) by lia.
  pose proof (Z.mod_pos_bound total 365 eq_refl) as Hr.
  rewrite (Z.rem_mod_nonneg (total mod 365) 30) by lia.
  rewrite (Z.quot_div_nonneg total 365) by lia.
  rewrite (Z.quot_div_nonneg (total mod 365) 30) by lia.
  rewrite !wrap_small; [reflexivity | |]; unfold INT_MIN, INT_MAX;
    Z.div_mod_to_equations; lia.
Qed.

Lemma date_eq (a b c a' b' c' : Z) :
  mkDate a b c = mkDate a' b' c' <-> a = a' /\ b = b' /\ c = c'.
Proof.
  split.
  - intros H. injection H as -> -> ->. repeat split.
  - intros (-> & -> & ->). reflexivity.
Qed.

(** X1. For a structurally valid date up to year 5_000_000, converting to
    a day count and back gives the same date exactly when its day is at
    most 29 and [month * 30 + day] is below 365: the 30th and 31st of any
    month and the dates after 4 December come back as another date. *)
Theorem day_count_round_trip_iff (d : Date) :
  is_valid_date d = true -> year d <= 5000000 ->
  (days_to_date (date_to_days d) = d
   <-> day d <= 29 /\ month d * 30 + day d < 365).
Proof.
  intros Hv Hy. rewrite (date_to_days_exact d Hv Hy).
  apply is_valid_date_spec in Hv as (Hy0 & Hm & Hd).
  rewrite days_to_date_exact by (unfold INT_MAX; lia).
  destruct d as [dd mm yy]. cbn [day month year] in *. cbv zeta.
  rewrite date_eq.
  set (t := yy * 365 + mm * 30 + dd).
  split.
  - intros (H1 & H2 & H3).
    assert (Hlt : mm * 30 + dd < 365)
      by (subst t; Z.div_mod_to_equations; lia).
    split; [|exact Hlt].
    destruct (Z.eqb_spec (t mod 365 mod 30) 0) as [E | E];
      subst t; Z.div_mod_to_equations; lia.
  - intros [H1 H2].
    assert (E1 : t / 365 = yy) by (subst t; Z.div_mod_to_equations; lia).
    assert (E2 : t mod 365 = mm * 30 + dd)
      by (subst t; Z.div_mod_to_equations; lia).
    rewrite E1, E2.
    assert (E3 : (mm * 30 + dd) / 30 = mm) by (Z.div_mod_to_equations; lia).
    assert (E4 : (mm * 30 + dd) mod 30 = dd) by (Z.div_mod_to_equations; lia).
    rewrite E3, E4.
    destruct (Z.eqb_spec dd 0); [lia|]. destruct (Z.eqb_spec mm 0); [lia|].
    repeat split.
Qed.

Lemma day_count_round_trip_iff_witness :
  days_to_date (date_to_days (mkDate 15 6 2024)) = mkDate 15 6 2024
  /\ days_to_date (date_to_days (mkDate 5 12 2024)) <> mkDate 5 12 2024.
Proof.
  split.
  - apply (day_count_round_trip_iff (mkDate 15 6 2024)); [reflexivity| |];
      cbn; lia.
  - intros H.
    apply (day_count_round_trip_iff (mkDate 5 12 2024)) in H;
      [cbn in H; lia | reflexivity | cbn; lia].
Defined.

(** A day count in range comes back as a structurally valid date, at
    most 31 days later. *)
Lemma days_to_date_valid_close (t : Z) :
  396 <= t <= 1925000400 ->
  let d' := days_to_date t in
  is_valid_date d' = true /\ day d' <= 29
  /\ t <= date_to_days d' <= t + 31.
Proof.
  intros Ht d'. subst d'.
  rewrite days_to_date_exact by (unfold INT_MAX; lia).
  cbv zeta.
  set (r := t mod 365). set (y := t / 365).
  assert (Hr : 0 <= r < 365 /\ t = 365 * y + r /\ 1 <= y <= 5300000)
    by (subst r y; Z.div_mod_to_equations; lia).
  set (dd := if r mod 30 =? 0 then 1 else r mod 30).
  set (mm := if r / 30 =? 0 then 1 else r / 30).
  assert (Hdd' : 1 <= dd <= 29 /\ r mod 30 <= dd <= r mod 30 + 1).
  { subst dd. destruct (Z.eqb_spec (r mod 30) 0);
      Z.div_mod_to_equations; lia. }
  assert (Hmm : 1 <= mm <= 12 /\ r / 30 <= mm
                /\ mm * 30 <= r / 30 * 30 + 30
                /\ (r / 30 = 0 \/ mm = r / 30)).
  { subst mm. destruct (Z.eqb_spec (r / 30) 0);
      Z.div_mod_to_equations; lia. }
  assert (Hvalid : is_valid_date (mkDate dd mm y) = true)
    by (apply is_valid_date_spec; cbn; lia).
  split; [exact Hvalid|]. split; [cbn; lia|].
  rewrite (date_to_days_no_overflow _ Hvalid) by (cbn; lia).
  cbn [day month year].
  assert (Hrr : r = r / 30 * 30 + r mod 30)
    by (Z.div_mod_to_equations; lia).
  lia.
Qed.

(** X2. Adding [n] days (0 <= n <= 100_000_000) to a structurally valid
    date up to year 5_000_000 gives a structurally valid date whose day is
    at most 29 and whose day count is never before the exact sum and at
    most 31 after it (the clamping of month 0 and day 0 to 1 only moves
    the date forward). *)
Theorem add_days_valid_and_close (d : Date) (n : Z) :
  is_valid_date d = true -> year d <= 5000000 -> 0 <= n <= 100000000 ->
  let d' := add_days d n in
  is_valid_date d' = true /\ day d' <= 29
  /\ date_to_days d + n <= date_to_days d' <= date_to_days d + n + 31.
Proof.
  intros Hv Hy Hn d'. subst d'.
  pose proof (date_to_days_exact d Hv Hy) as Hdd.
  apply is_valid_date_spec in Hv as (Hy0 & Hm & Hd).
  unfold add_days, int_add.
  rewrite (wrap_small (date_to_days d + n))
    by (unfold INT_MIN, INT_MAX; lia).
  apply days_to_date_valid_close. lia.
Qed.

Lemma add_days_valid_and_close_witness :
  let d' := add_days (mkDate 31 1 2024) 180 in
  is_valid_date d' = true /\ day d' <= 29
  /\ date_to_days (mkDate 31 1 2024) + 180 <= date_to_days d'
     <= date_to_days (mkDate 31 1 2024) + 180 + 31.
Proof.
  apply (add_days_valid_and_close (mkDate 31 1 2024) 180);
    [reflexivity | cbn; lia | lia].
Defined.

Lemma update_same_inputs cast_undef (b : Bus) (today : Date) :
  same_inputs (update_maintenance_status cast_undef b today) b.
Proof.
  unfold same_inputs, update_maintenance_status.
  destruct ((0 <? service_interval_days b) && is_valid_date (last_service b)
            && is_valid_date today); cbn; repeat split.
Qed.

(** X3. The evaluation reads only the non-derived fields and the
    reference date: two records that agree on these get the same record,
    whatever status, kmLeft, healthScore and nextDueDate they came
    with. *)
Theorem evaluation_reads_inputs_only cast_undef (b1 b2 : Bus)
    (today : Date) :
  same_inputs b1 b2 ->
  update_maintenance_status cast_undef b1 today
  = update_maintenance_status cast_undef b2 today.
Proof.
  destruct b1, b2. unfold same_inputs. cbn [bus_code driver_name bus_no
    last_service current_mileage last_service_mileage service_interval_km
    service_interval_days service_history_count avg_daily_km
    fuel_efficiency].
  intros (-> & -> & -> & -> & -> & -> & -> & -> & -> & -> & ->).
  reflexivity.
Qed.

Lemma evaluation_reads_inputs_only_witness :
  update_maintenance_status INT_MIN
    (st_status (st_health_score 3 (scenario_bus 10000 9200, 7)))
    (mkDate 1 6 2024)
  = update_maintenance_status INT_MIN (scenario_bus 10000 9200)
      (mkDate 1 6 2024).
Proof.
  apply (evaluation_reads_inputs_only INT_MIN
           (st_status (st_health_score 3 (scenario_bus 10000 9200, 7)))
           (scenario_bus 10000 9200) (mkDate 1 6 2024)).
  cbn. repeat split.
Defined.

(** X4. The last evaluation wins: evaluating on one date and then on
    another leaves the record the second evaluation alone would give; in
    particular evaluating twice on the same date changes nothing. *)
Theorem evaluation_last_wins cast_undef (b : Bus) (d1 d2 : Date) :
  update_maintenance_status cast_undef
    (update_maintenance_status cast_undef b d1) d2
  = update_maintenance_status cast_undef b d2.
Proof.
  pose proof (update_same_inputs cast_undef b d1) as H.
  destruct (update_maintenance_status cast_undef b d1) as [].
  destruct b as []. unfold same_inputs in H.
  cbn [bus_code driver_name bus_no last_service current_mileage
       last_service_mileage service_interval_km service_interval_days
       service_history_count avg_daily_km fuel_efficiency] in H.
  destruct H as (-> & -> & -> & -> & -> & -> & -> & -> & -> & -> & ->).
  reflexivity.
Qed.

(** X5. The nextDueDate the evaluation writes is unset (0/0/0) exactly
    when the day rule does not apply (no day interval, or a structurally
    invalid lastServiceDate or reference date). When it applies, for a
    lastServiceDate up to year 5_000_000 and an interval of at most
    100_000_000 days, nextDueDate is a structurally valid date whose day
    count is between lastServiceDate + interval and 31 days more. *)
Theorem next_due_unset_or_valid cast_undef (b : Bus) (today : Date) :
  year (last_service b) <= 5000000 ->
  service_interval_days b <= 100000000 ->
  let nd := next_due (update_maintenance_status cast_undef b today) in
  (day_rule_applies b today = false -> nd = mkDate 0 0 0)
  /\ (day_rule_applies b today = true ->
      is_valid_date nd = true
      /\ date_to_days (last_service b) + service_interval_days b
         <= date_to_days nd
         <= date_to_days (last_service b) + service_interval_days b + 31).
Proof.
  intros Hy Hn nd. subst nd. rewrite update_next_due.
  fold (day_rule_applies b today).
  split; intros Hr; rewrite Hr; [reflexivity|].
  unfold day_rule_applies in Hr.
  apply andb_true_iff in Hr as [Hr _]. apply andb_true_iff in Hr as [Hd Hv].
  apply Z.ltb_lt in Hd.
  pose proof (date_to_days_exact _ Hv Hy) as Hdd.
  apply is_valid_date_spec in Hv as (Hy0 & Hm & Hdy).
  unfold add_days, int_add.
  rewrite (wrap_small (date_to_days (last_service b) + _))
    by (unfold INT_MIN, INT_MAX; lia).
  destruct (days_to_date_valid_close
              (date_to_days (last_service b) + service_interval_days b)
              ltac:(lia)) as (H1 & _ & H2).
  split; assumption.
Qed.

Lemma next_due_unset_or_valid_witness :
  let nd := next_due (update_maintenance_status INT_MIN day_interval_bus
                        (mkDate 1 9 2024)) in
  is_valid_date nd = true
  /\ date_to_days (mkDate 15 1 2024) + 180 <= date_to_days nd
     <= date_to_days (mkDate 15 1 2024) + 180 + 31.
Proof.
  apply (next_due_unset_or_valid INT_MIN day_interval_bus (mkDate 1 9 2024));
    [cbn; lia | cbn; lia | reflexivity].
Defined.

Lemma sfcompare_eq_f1_5 (x : float) :
  SFcompare f1_5 x = Some Eq -> x = f1_5.
Proof.
  change f1_5 with (S754_finite false 12582912 (-23)).
  destruct x as [s | s | | s m e]; cbn [SFcompare]; try discriminate.
  - destruct s; discriminate.
  - destruct s; [discriminate|].
    destruct (Z.compare_spec (-23) e) as [E | E | E]; try discriminate.
    intros H. injection H as H. apply Pos.compare_eq in H.
    subst. reflexivity.
Qed.

Lemma fsub_diag (x : float) :
  is_finite32 x = true -> fsub x x = S754_zero false.
Proof.
  destruct x as [s | s | | s m e]; try discriminate; intros _.
  - destruct s; reflexivity.
  - unfold fsub. cbn [SFsub]. rewrite Z.sub_diag. reflexivity.
Qed.

(** X6. With a positive interval, the health score is 0 as soon as the
    used share [ (current - lastService) / interval ] is at least 1.5, and
    100 when it is zero or negative; so a bus just serviced (current
    mileage equal to the last service mileage) scores 100. *)
Theorem health_score_extremes cast_undef (b : Bus) (today : Date) :
  fgt (service_interval_km b) f0_0 = true ->
  let ratio :=
    fdiv (fsub (current_mileage b) (last_service_mileage b))
         (service_interval_km b) in
  let score := health_score (update_maintenance_status cast_undef b today) in
  (fge ratio f1_5 = true -> score = 0)
  /\ (fle ratio f0_0 = true -> score = 100)
  /\ (is_finite32 (current_mileage b) = true ->
      last_service_mileage b = current_mileage b -> score = 100).
Proof.
  intros Hgt ratio score. subst score. rewrite update_health_score, Hgt.
  cbv zeta. fold ratio.
  assert (Hlow : fle ratio f0_0 = true ->
    (if 100 <? (let h := float_to_int cast_undef
                   (fmul (fdiv (fsub f1_5
                      (let r := if flt ratio f0_0 then f0_0 else ratio in
                       if fgt r f1_5 then f1_5 else r)) f1_5) f100_0) in
                if h <? 0 then 0 else h)
     then 100
     else (let h := float_to_int cast_undef
                   (fmul (fdiv (fsub f1_5
                      (let r := if flt ratio f0_0 then f0_0 else ratio in
                       if fgt r f1_5 then f1_5 else r)) f1_5) f100_0) in
           if h <? 0 then 0 else h)) = 100).
  { clearbody ratio. intros H.
    destruct ratio as [s | s | | s m e]; try destruct s;
      try discriminate H; vm_compute; reflexivity. }
  split; [|split].
  - clearbody ratio. intros H.
    assert (Hneg : flt ratio f0_0 = false).
    { destruct ratio as [s | s | | s m e]; try destruct s;
        try discriminate H; reflexivity. }
    rewrite Hneg.
    destruct (fgt ratio f1_5) eqn:E; [vm_compute; reflexivity|].
    assert (Heq : ratio = f1_5).
    { apply sfcompare_eq_f1_5. unfold fge, fgt, SFleb, SFltb in *.
      destruct (SFcompare f1_5 ratio) as [[]|]; try discriminate;
        reflexivity. }
    subst ratio. vm_compute. reflexivity.
  - exact Hlow.
  - intros Hfin Heq. apply Hlow. subst ratio. rewrite Heq, fsub_diag by exact Hfin.
    destruct (service_interval_km b) as [s | s | | s m e];
      try destruct s; try discriminate Hgt; reflexivity.
Qed.

Lemma health_score_extremes_witness :
  health_score (update_maintenance_status INT_MIN (scenario_bus 10000 24000)
                  (mkDate 1 6 2024)) = 0
  /\ health_score (update_maintenance_status INT_MIN
                     (scenario_bus 10000 9000) (mkDate 1 6 2024)) = 100.
Proof.
  split.
  - apply (health_score_extremes INT_MIN (scenario_bus 10000 24000)
             (mkDate 1 6 2024)); reflexivity.
  - apply (health_score_extremes INT_MIN (scenario_bus 10000 9000)
             (mkDate 1 6 2024)); reflexivity.
Defined.

(** ** Further properties of the record store *)

Lemma NoDup_insert_middle {A : Type} (l1 l2 : list A) (x : A) :
  NoDup (l1 ++ l2) -> ~ In x (l1 ++ l2) -> NoDup (l1 ++ x :: l2).
Proof.
  induction l1 as [|y l1 IH]; cbn [app]; intros Hnd Hx.
  - constructor; assumption.
  - inversion Hnd as [|? ? Hy Hnd']; subst. constructor.
    + rewrite in_app_iff in *. cbn [In]. intros [H | [H | H]].
      * apply Hy. left. exact H.
      * apply Hx. left. symmetry. exact H.
      * apply Hy. right. exact H.
    + apply IH; [exact Hnd'|]. intros H. apply Hx. right. exact H.
Qed.

(** X7. [find_bus_index] returns -1 exactly when no record has the number;
    otherwise it returns the position of the first record that has it, a
    position inside the fleet. *)
Theorem find_bus_index_spec (fleet : list Bus) (no : Z) :
  let i := find_bus_index fleet no in
  (i = -1 /\ forall b, In b fleet -> bus_no b <> no)
  \/ (0 <= i < Z.of_nat (List.length fleet)
      /\ exists b, nth_error fleet (Z.to_nat i) = Some b /\ bus_no b = no
         /\ forall j b', (j < Z.to_nat i)%nat ->
              nth_error fleet j = Some b' -> bus_no b' <> no).
Proof.
  cbv zeta. unfold find_bus_index.
  destruct (existsb (fun b => bus_no b =? no) fleet) eqn:E.
  - right. apply existsb_exists in E as (b0 & Hin & Hb0).
    apply Z.eqb_eq in Hb0.
    destruct (split_at_first fleet no (ex_intro _ b0 (conj Hin Hb0)))
      as (l1 & b & l2 & -> & Hb & Hl1).
    rewrite (find_bus_index_from_first 0 l1 l2 b no Hl1 Hb).
    rewrite Nat2Z.id, length_app. cbn [List.length Nat.add]. split; [lia|].
    exists b. split; [|split; [exact Hb|]].
    + rewrite nth_error_app2, Nat.sub_diag by lia. reflexivity.
    + intros j b' Hj Hnth. rewrite nth_error_app1 in Hnth by exact Hj.
      apply Hl1. apply nth_error_In with j. exact Hnth.
  - left. assert (H : forall b, In b fleet -> bus_no b <> no).
    { intros b Hin Hb.
      assert (Ht : existsb (fun b => bus_no b =? no) fleet = true).
      { apply existsb_exists. exists b. split; [exact Hin|].
        apply Z.eqb_eq, Hb. }
      rewrite Ht in E. discriminate E. }
    split; [apply find_bus_index_from_absent, H | exact H].
Qed.

Lemma bus_code_exists_from_spec (k : nat) (fleet : list Bus)
    (code : string) (ex : Z) :
  bus_code_exists_from k fleet code ex = true
  <-> exists i b, nth_error fleet i = Some b /\ Z.of_nat (k + i) <> ex
        /\ str_ieq (bus_code b) code = true.
Proof.
  revert k. induction fleet as [|x rest IH]; intros k; cbn [bus_code_exists_from].
  - split; [discriminate|]. intros ([|i] & b & H & _); discriminate H.
  - destruct (Z.eqb_spec (Z.of_nat k) ex) as [E | E].
    + rewrite IH. split.
      * intros (i & b & H1 & H2 & H3). exists (S i), b.
        repeat split; try assumption. lia.
      * intros ([|i] & b & H1 & H2 & H3).
        -- exfalso. apply H2. rewrite Nat.add_0_r. exact E.
        -- exists i, b. repeat split; try assumption. lia.
    + destruct (str_ieq (bus_code x) code) eqn:Ex.
      * split; [|reflexivity]. intros _. exists 0%nat, x.
        rewrite Nat.add_0_r. repeat split; assumption.
      * rewrite IH. split.
        -- intros (i & b & H1 & H2 & H3). exists (S i), b.
           repeat split; try assumption. lia.
        -- intros ([|i] & b & H1 & H2 & H3).
           ++ cbn in H1. injection H1 as <-. rewrite Ex in H3. discriminate.
           ++ exists i, b. repeat split; try assumption. lia.
Qed.

Lemma bus_no_exists_from_spec (k : nat) (fleet : list Bus) (no : Z)
    (ex : Z) :
  bus_no_exists_from k fleet no ex = true
  <-> exists i b, nth_error fleet i = Some b /\ Z.of_nat (k + i) <> ex
        /\ bus_no b = no.
Proof.
  revert k. induction fleet as [|x rest IH]; intros k; cbn [bus_no_exists_from].
  - split; [discriminate|]. intros ([|i] & b & H & _); discriminate H.
  - destruct (Z.eqb_spec (Z.of_nat k) ex) as [E | E].
    + rewrite IH. split.
      * intros (i & b & H1 & H2 & H3). exists (S i), b.
        repeat split; try assumption. lia.
      * intros ([|i] & b & H1 & H2 & H3).
        -- exfalso. apply H2. rewrite Nat.add_0_r. exact E.
        -- exists i, b. repeat split; try assumption. lia.
    + destruct (Z.eqb_spec (bus_no x) no) as [Ex | Ex].
      * split; [|reflexivity]. intros _. exists 0%nat, x.
        rewrite Nat.add_0_r. repeat split; assumption.
      * rewrite IH. split.
        -- intros (i & b & H1 & H2 & H3). exists (S i), b.
           repeat split; try assumption. lia.
        -- intros ([|i] & b & H1 & H2 & H3).
           ++ cbn in H1. injection H1 as <-. contradiction.
           ++ exists i, b. repeat split; try assumption. lia.
Qed.

(** X8. [bus_code_exists] is true exactly when a record at a position
    other than [exclude_index] has a case variant of the code, and
    [bus_no_exists] exactly when a record at another position has the
    number; the record at [exclude_index] itself never counts. *)
Theorem exists_excluding_spec (fleet : list Bus) (code : string) (no : Z)
    (exclude_index : Z) :
  (bus_code_exists fleet code exclude_index = true
   <-> exists i b, nth_error fleet i = Some b /\ Z.of_nat i <> exclude_index
         /\ case_variant (bus_code b) code)
  /\ (bus_no_exists fleet no exclude_index = true
      <-> exists i b, nth_error fleet i = Some b
            /\ Z.of_nat i <> exclude_index /\ bus_no b = no).
Proof.
  unfold bus_code_exists, bus_no_exists.
  rewrite bus_code_exists_from_spec, bus_no_exists_from_spec. cbn [Nat.add].
  split; [|reflexivity].
  split; intros (i & b & H1 & H2 & H3); exists i, b;
    repeat split; try assumption; apply str_ieq_case_variant, H3.
Qed.

Lemma read_bus_no_result (fleet : list Bus) (numbers : list Z)
    (ms : list Message) (no : Z) :
  read_bus_no fleet numbers = (ms, Some no) ->
  forall b, In b fleet -> bus_no b <> no.
Proof.
  revert ms. induction numbers as [|n rest IH]; intros ms H; [discriminate H|].
  cbn [read_bus_no] in H.
  destruct (bus_no_exists fleet n (-1)) eqn:E.
  - destruct (read_bus_no fleet rest) as [ms' r] eqn:Er.
    injection H as _ Hr. subst r. exact (IH ms' eq_refl).
  - injection H as _ Hn. subst n. intros b Hin Hb.
    assert (Ht : bus_no_exists fleet no (-1) = true)
      by (apply bus_no_exists_add_true; exists b; split; assumption).
    rewrite Ht in E. discriminate E.
Qed.

Lemma read_bus_code_result (fleet : list Bus) (codes : list string)
    (ms : list Message) (code : string) :
  read_bus_code fleet codes = (ms, Some code) ->
  exists c, In c codes /\ c <> EmptyString
    /\ code = strncpy (to_upper_str c) 19
    /\ forall b, In b fleet -> ~ case_variant (bus_code b) c.
Proof.
  revert ms. induction codes as [|c rest IH]; intros ms H; [discriminate H|].
  cbn [read_bus_code] in H. destruct c as [|a c].
  - destruct (read_bus_code fleet rest) as [ms' r] eqn:Er.
    injection H as _ Hr. subst r.
    destruct (IH ms' eq_refl) as (c' & Hin & Hc'). exists c'.
    split; [right; exact Hin | exact Hc'].
  - destruct (bus_code_exists fleet (to_upper_str (String a c)) (-1)) eqn:E.
    + destruct (read_bus_code fleet rest) as [ms' r] eqn:Er.
      injection H as _ Hr. subst r.
      destruct (IH ms' eq_refl) as (c' & Hin & Hc'). exists c'.
      split; [right; exact Hin | exact Hc'].
    + injection H as _ Hcode. exists (String a c).
      split; [left; reflexivity|]. split; [discriminate|].
      split; [symmetry; exact Hcode|]. intros b Hin Hv.
      assert (Ht : bus_code_exists fleet (to_upper_str (String a c)) (-1)
                   = true)
        by (apply bus_code_exists_add_true; exists b; split; assumption).
      rewrite Ht in E. discriminate E.
Qed.

(** What [add_bus] returns, by the outcome of its two prompts. *)
Lemma add_bus_cases (fleet : list Bus) (room : bool)
    (codes : list string) (numbers : list Z) (d : BusDetails) :
  snd (add_bus fleet room codes numbers d) = fleet
  \/ exists c no,
       In c codes /\ c <> EmptyString
       /\ (forall b, In b fleet -> ~ case_variant (bus_code b) c)
       /\ (forall b, In b fleet -> bus_no b <> no)
       /\ snd (add_bus fleet room codes numbers d)
          = fleet ++ [new_bus (strncpy (to_upper_str c) 19) no d].
Proof.
  unfold add_bus. destruct room; [cbn [negb] | left; reflexivity].
  destruct (read_bus_code fleet codes) as [ms1 [code|]] eqn:Ec;
    [|left; reflexivity].
  destruct (read_bus_no fleet numbers) as [ms2 [no|]] eqn:En;
    [|left; reflexivity].
  right. destruct (read_bus_code_result _ _ _ _ Ec) as (c & Hin & Hne & -> & Hc).
  exists c, no. repeat split; try assumption.
  exact (read_bus_no_result _ _ _ _ En).
Qed.

(** X9. Whatever is typed at its prompts, and whether the array could
    grow or not, [add_bus] leaves every record of the fleet in place and
    at most appends one record, whose number no other record has; so a
    fleet with pairwise distinct numbers keeps them pairwise distinct. *)
Theorem add_bus_keeps_numbers_distinct (fleet : list Bus) (room : bool)
    (codes : list string) (numbers : list Z) (d : BusDetails) :
  let fleet' := snd (add_bus fleet room codes numbers d) in
  (fleet' = fleet
   \/ exists b, fleet' = fleet ++ [b]
        /\ forall x, In x fleet -> bus_no x <> bus_no b)
  /\ (NoDup (map bus_no fleet) -> NoDup (map bus_no fleet')).
Proof.
  cbv zeta.
  destruct (add_bus_cases fleet room codes numbers d)
    as [-> | (c & no & _ & _ & _ & Hno & ->)].
  - split; [left; reflexivity | intros H; exact H].
  - split.
    + right. eexists. split; [reflexivity|]. exact Hno.
    + intros Hnd. rewrite map_app. cbn [map new_bus bus_no].
      apply NoDup_insert_middle; rewrite app_nil_r; [exact Hnd|].
      intros Hin. apply in_map_iff in Hin as (x & Hx & Hinx).
      exact (Hno x Hinx Hx).
Qed.

Lemma add_bus_keeps_numbers_distinct_witness :
  NoDup (map bus_no fleet_chd)
  /\ NoDup (map bus_no
              (snd (add_bus fleet_chd true ["chd-202b"%string] [7; 8]
                      details_example))).
Proof.
  assert (H : NoDup (map bus_no fleet_chd))
    by (cbn; constructor; [intros [] | constructor]).
  split; [exact H|].
  exact (proj2 (add_bus_keeps_numbers_distinct fleet_chd true
                  ["chd-202b"%string] [7; 8] details_example) H).
Defined.

Lemma to_upper_str_length (s : string) :
  String.length (to_upper_str s) = String.length s.
Proof. induction s as [|c s IH]; cbn; [reflexivity | rewrite IH; reflexivity]. Qed.

Lemma strncpy_short (s : string) (n : nat) :
  (String.length s <= n)%nat -> strncpy s n = s.
Proof.
  revert n. induction s as [|c s IH]; intros n H; [destruct n; reflexivity|].
  destruct n as [|n]; [cbn in H; lia|]. cbn [strncpy].
  rewrite IH; [reflexivity | cbn in H; lia].
Qed.

(** X10. When every code typed has at most 19 characters, [add_bus] keeps
    the codes of the fleet pairwise distinct up to letter case, whether
    the array could grow or not. (A longer
    code is compared in full and stored cut to 19 characters: typed after
    ABCDEFGHIJKLMNOPQRS, the code ABCDEFGHIJKLMNOPQRST is accepted and
    stored as a second ABCDEFGHIJKLMNOPQRS.) *)
Theorem add_bus_keeps_codes_distinct (fleet : list Bus) (room : bool)
    (codes : list string) (numbers : list Z) (d : BusDetails) :
  (forall c, In c codes -> (String.length c <= 19)%nat) ->
  NoDup (folded_codes fleet) ->
  NoDup (folded_codes (snd (add_bus fleet room codes numbers d))).
Proof.
  intros Hlen Hnd.
  destruct (add_bus_cases fleet room codes numbers d)
    as [-> | (c & no & Hin & _ & Hc & _ & ->)]; [exact Hnd|].
  unfold folded_codes in *. rewrite map_app. cbn [map new_bus bus_code].
  apply NoDup_insert_middle; rewrite app_nil_r; [exact Hnd|].
  rewrite strncpy_short
    by (rewrite to_upper_str_length; apply Hlen, Hin).
  rewrite to_lower_to_upper. intros Hm.
  apply in_map_iff in Hm as (x & Hx & Hinx). exact (Hc x Hinx Hx).
Qed.

Lemma add_bus_keeps_codes_distinct_witness :
  NoDup (folded_codes
           (snd (add_bus fleet_chd true ["chd-101a"; "chd-202b"]%string [8]
                   details_example))).
Proof.
  apply (add_bus_keeps_codes_distinct fleet_chd true
           ["chd-101a"; "chd-202b"]%string [8] details_example).
  - intros c [<- | [<- | []]]; cbn; lia.
  - cbn. constructor; [intros [] | constructor].
Defined.

(** The 19-character limit matters: the code typed second is cut to the
    code already there. *)
Lemma add_bus_long_code_duplicates :
  let fleet :=
    snd (add_bus [] true ["ABCDEFGHIJKLMNOPQRS"%string] [1]
           details_example) in
  map bus_code
    (snd (add_bus fleet true ["ABCDEFGHIJKLMNOPQRST"%string] [2]
            details_example))
  = ["ABCDEFGHIJKLMNOPQRS"; "ABCDEFGHIJKLMNOPQRS"]%string.
Proof. vm_compute. reflexivity. Qed.

Lemma nth_error_middle_other (l1 l2 : list Bus) (x y : Bus) (j : nat) :
  j <> List.length l1 ->
  nth_error (l1 ++ y :: l2) j = nth_error (l1 ++ x :: l2) j.
Proof.
  intros Hj. destruct (Nat.lt_ge_cases j (List.length l1)) as [H | H].
  - rewrite !nth_error_app1 by exact H. reflexivity.
  - rewrite !nth_error_app2 by exact H.
    destruct (j - List.length l1)%nat as [|k] eqn:E; [lia | reflexivity].
Qed.

Lemma nth_error_middle (l1 l2 : list Bus) (x : Bus) :
  nth_error (l1 ++ x :: l2) (List.length l1) = Some x.
Proof. rewrite nth_error_app2, Nat.sub_diag by lia. reflexivity. Qed.

Lemma map_bus_no_middle (l1 l2 : list Bus) (x : Bus) :
  map bus_no (l1 ++ x :: l2) = map bus_no l1 ++ bus_no x :: map bus_no l2.
Proof. rewrite map_app. reflexivity. Qed.

Lemma edit_bus_no_result (fleet : list Bus) (idx : nat) (numbers : list Z)
    (ms : list Notice) (no : Z) :
  edit_bus_no fleet idx numbers = (ms, Some no) ->
  bus_no_exists fleet no (Z.of_nat idx) = false.
Proof.
  revert ms. induction numbers as [|n rest IH]; intros ms H; [discriminate H|].
  cbn [edit_bus_no] in H.
  destruct (bus_no_exists fleet n (Z.of_nat idx)) eqn:E.
  - destruct (edit_bus_no fleet idx rest) as [ms' r] eqn:Er.
    injection H as _ Hr. subst r. exact (IH ms' eq_refl).
  - injection H as _ Hn. subst n. exact E.
Qed.

(** The numbers around position [length l1] when no other record has
    [no]. *)
Lemma bus_no_not_elsewhere (l1 l2 : list Bus) (x : Bus) (no : Z) :
  bus_no_exists (l1 ++ x :: l2) no (Z.of_nat (List.length l1)) = false ->
  ~ In no (map bus_no l1 ++ map bus_no l2).
Proof.
  intros Hex Hin.
  assert (Ht : bus_no_exists (l1 ++ x :: l2) no (Z.of_nat (List.length l1))
               = true).
  { unfold bus_no_exists. apply bus_no_exists_from_spec. cbn [Nat.add].
    apply in_app_iff in Hin as [Hin | Hin];
      apply in_map_iff in Hin as (b & Hb & Hinb);
      apply In_nth_error in Hinb as (j & Hj).
    - exists j, b. split; [|split; [|exact Hb]].
      + rewrite nth_error_app1; [exact Hj|].
        apply nth_error_Some. rewrite Hj. discriminate.
      + assert (j < List.length l1)%nat
          by (apply nth_error_Some; rewrite Hj; discriminate).
        lia.
    - exists (List.length l1 + S j)%nat, b. split; [|split; [lia | exact Hb]].
      rewrite nth_error_app2 by lia.
      replace (List.length l1 + S j - List.length l1)%nat with (S j) by lia.
      exact Hj. }
  rewrite Ht in Hex. discriminate Hex.
Qed.

(** What [edit_bus_by_position] returns: the fleet as it was, or the
    fleet with one record replaced. *)
Lemma edit_cases (fleet : list Bus) (pos : Z) (codes : list string)
    (numbers : list Z) (d : BusDetails) :
  snd (edit_bus_by_position fleet pos codes numbers d) = fleet
  \/ exists l1 b l2 b',
       fleet = l1 ++ b :: l2 /\ List.length l1 = Z.to_nat (pos - 1)
       /\ snd (edit_bus_by_position fleet pos codes numbers d)
          = l1 ++ b' :: l2
       /\ (status b' = status b /\ km_left b' = km_left b
           /\ health_score b' = health_score b /\ next_due b' = next_due b)
       /\ (bus_no b' = bus_no b
           \/ ~ In (bus_no b') (map bus_no l1 ++ map bus_no l2)).
Proof.
  unfold edit_bus_by_position. set (idx := Z.to_nat (pos - 1)).
  destruct fleet as [|b0 fleet0] eqn:Ef; [left; reflexivity|].
  rewrite <- Ef. clear Ef b0 fleet0.
  destruct (nth_error fleet idx) as [b|] eqn:Hnth; [|left; reflexivity].
  destruct (edit_bus_code fleet idx (bus_code b) codes) as [ms1 [code|]];
    [|left; reflexivity].
  destruct (nth_error_split fleet idx Hnth) as (l1 & l2 & Hsplit & Hlen).
  right. exists l1, b, l2. subst fleet. rewrite <- Hlen.
  rewrite array_set_middle.
  destruct (edit_bus_no (l1 ++ with_bus_code b code :: l2) (List.length l1)
              numbers) as [ms2 [no|]] eqn:En; cbn [snd].
  - rewrite array_set_middle.
    apply edit_bus_no_result, bus_no_not_elsewhere in En.
    eexists. split; [reflexivity|]. split; [reflexivity|].
    split; [reflexivity|]. split; [repeat split|]. right. exact En.
  - eexists. split; [reflexivity|]. split; [reflexivity|].
    split; [reflexivity|]. split; [repeat split|]. left. reflexivity.
Qed.

(** X11. [edit_bus_by_position] changes at most the record at the chosen
    position: the fleet keeps its length and every other record; the
    edited record keeps its status, kmLeft, healthScore and nextDueDate
    (they are stale until the next evaluation); and bus numbers that were
    pairwise distinct stay so, however the prompts are answered. *)
Theorem edit_changes_one_record (fleet : list Bus) (pos : Z)
    (codes : list string) (numbers : list Z) (d : BusDetails) :
  let fleet' := snd (edit_bus_by_position fleet pos codes numbers d) in
  let idx := Z.to_nat (pos - 1) in
  List.length fleet' = List.length fleet
  /\ (forall j, j <> idx -> nth_error fleet' j = nth_error fleet j)
  /\ (forall b b', nth_error fleet idx = Some b ->
        nth_error fleet' idx = Some b' ->
        status b' = status b /\ km_left b' = km_left b
        /\ health_score b' = health_score b /\ next_due b' = next_due b)
  /\ (NoDup (map bus_no fleet) -> NoDup (map bus_no fleet')).
Proof.
  cbv zeta.
  destruct (edit_cases fleet pos codes numbers d)
    as [-> | (l1 & b & l2 & b' & -> & Hlen & -> & Hder & Hno)].
  - split; [reflexivity|]. split; [reflexivity|]. split; [|auto].
    intros x x' Hx Hx'. rewrite Hx in Hx'. injection Hx' as <-.
    repeat split.
  - rewrite <- Hlen.
    split; [rewrite !length_app; reflexivity|].
    split; [intros j Hj; apply nth_error_middle_other, Hj|].
    split.
    + intros x x' Hx Hx'. rewrite nth_error_middle in Hx, Hx'.
      injection Hx as <-. injection Hx' as <-. exact Hder.
    + intros Hnd. rewrite map_bus_no_middle in *.
      destruct Hno as [-> | Hno]; [exact Hnd|].
      apply NoDup_remove_1 in Hnd.
      apply NoDup_insert_middle; assumption.
Qed.

Lemma edit_changes_one_record_witness :
  let fleet := [bus_8; scenario_bus 10000 9200; bus_9] in
  let fleet' :=
    snd (edit_bus_by_position fleet 2 ["chd-202b"; ""]%string [8; 9; 5]
           details_example) in
  NoDup (map bus_no fleet') /\ nth_error fleet' 0 = Some bus_8
  /\ map bus_no fleet' = [8; 5; 9].
Proof.
  pose proof (edit_changes_one_record
                [bus_8; scenario_bus 10000 9200; bus_9] 2
                ["chd-202b"; ""]%string [8; 9; 5] details_example)
    as (_ & Hothers & _ & Hnd).
  split; [|split].
  - apply Hnd. cbn. repeat constructor; cbn; intuition discriminate.
  - rewrite Hothers; [reflexivity | discriminate].
  - reflexivity.
Defined.

(** X12. [update_mileage] reports "not found" and leaves the fleet as it
    is when no record has the number. Otherwise it writes the new mileage
    into the first record with that number and nothing else: the other
    records, the other fields and the derived fields of that record
    (status, kmLeft, healthScore) are as before, not recomputed. *)
Theorem update_mileage_frame (fleet : list Bus) (no : Z) (km : float) :
  ((forall b, In b fleet -> bus_no b <> no) ->
   update_mileage fleet no km = ([BusNotFound], fleet))
  /\ (forall l1 b l2,
        fleet = l1 ++ b :: l2 -> bus_no b = no ->
        (forall x, In x l1 -> bus_no x <> no) ->
        exists b',
          update_mileage fleet no km = ([MileageUpdated], l1 ++ b' :: l2)
          /\ current_mileage b' = km /\ same_inputs_but_mileage b b'
          /\ status b' = status b /\ km_left b' = km_left b
          /\ health_score b' = health_score b
          /\ next_due b' = next_due b).
Proof.
  split.
  - intros H. unfold update_mileage, find_bus_index.
    rewrite (find_bus_index_from_absent 0 fleet no H). reflexivity.
  - intros l1 b l2 -> Hb Hl1. unfold update_mileage, find_bus_index.
    rewrite (find_bus_index_from_first 0 l1 l2 b no Hl1 Hb).
    destruct (Z.eqb_spec (Z.of_nat (0 + List.length l1)) (-1)) as [E | _];
      [lia|].
    rewrite Nat2Z.id. cbn [Nat.add].
    rewrite nth_error_middle, array_set_middle.
    exists (with_current_mileage b km).
    unfold same_inputs_but_mileage. cbn. repeat split.
Qed.

Lemma update_mileage_frame_witness :
  update_mileage [bus_8; bus_9] 5 (float_of_int 70)
  = ([BusNotFound], [bus_8; bus_9])
  /\ map current_mileage
       (snd (update_mileage [bus_8; bus_9] 9 (float_of_int 70)))
     = [float_of_int 80; float_of_int 70].
Proof.
  destruct (update_mileage_frame [bus_8; bus_9] 5 (float_of_int 70))
    as [Habsent _].
  destruct (update_mileage_frame [bus_8; bus_9] 9 (float_of_int 70))
    as [_ Hfound].
  split.
  - apply Habsent. intros b [<- | [<- | []]]; discriminate.
  - destruct (Hfound [bus_8] bus_9 [] eq_refl eq_refl) as (b' & -> & Hkm & _).
    + intros x [<- | []]. discriminate.
    + cbn [snd]. rewrite map_app. cbn [map]. rewrite Hkm. reflexivity.
Defined.

Lemma delete_bus_absent (fleet : list Bus) (no : Z) :
  (forall b, In b fleet -> bus_no b <> no) ->
  delete_bus fleet no = ([NotFound], fleet).
Proof.
  intros H. unfold delete_bus, find_bus_index.
  rewrite (find_bus_index_from_absent 0 fleet no H). reflexivity.
Qed.

(** X13. Deleting the number just added undoes the addition: when the
    code and the number are new to the fleet, [add_bus] followed by
    [delete_bus] of that number gives the fleet back, whether the array
    could take the new record or not. *)
Theorem delete_undoes_add (fleet : list Bus) (room : bool) (code : string)
    (no : Z) (d : BusDetails) :
  code <> EmptyString ->
  (forall b, In b fleet -> ~ case_variant (bus_code b) code) ->
  (forall b, In b fleet -> bus_no b <> no) ->
  snd (delete_bus (snd (add_bus fleet room [code] [no] d)) no) = fleet.
Proof.
  intros Hne Hcode Hno. unfold add_bus.
  destruct room; cbn [negb snd];
    [|rewrite (delete_bus_absent fleet no Hno); reflexivity].
  rewrite read_bus_code_fresh, read_bus_no_fresh by assumption.
  cbn [snd].
  rewrite (delete_bus_first fleet []
             (new_bus (strncpy (to_upper_str code) 19) no d) no eq_refl Hno).
  cbn [snd]. apply app_nil_r.
Qed.

Lemma delete_undoes_add_witness :
  snd (delete_bus (snd (add_bus fleet_chd true ["chd-202b"%string] [8]
                          details_example)) 8) = fleet_chd.
Proof.
  apply (delete_undoes_add fleet_chd true "chd-202b"%string 8
           details_example).
  - discriminate.
  - intros b [<- | []]. discriminate.
  - intros b [<- | []]. discriminate.
Defined.

(** X14. In a fleet with pairwise distinct numbers, after [delete_bus] no
    record has the deleted number any more ([find_bus_index] returns -1
    for it), every record with another number is still there, and the
    numbers are still pairwise distinct. *)
Theorem delete_removes_number (fleet : list Bus) (no : Z) :
  NoDup (map bus_no fleet) ->
  let fleet' := snd (delete_bus fleet no) in
  (forall b, In b fleet' -> bus_no b <> no)
  /\ find_bus_index fleet' no = -1
  /\ (forall b, In b fleet -> bus_no b <> no -> In b fleet')
  /\ NoDup (map bus_no fleet').
Proof.
  intros Hnd. cbv zeta.
  destruct (existsb (fun b => bus_no b =? no) fleet) eqn:E.
  - apply existsb_exists in E as (b0 & Hin & Hb0). apply Z.eqb_eq in Hb0.
    destruct (split_at_first fleet no (ex_intro _ b0 (conj Hin Hb0)))
      as (l1 & b & l2 & -> & Hb & Hl1).
    rewrite (delete_bus_first l1 l2 b no Hb Hl1). cbn [snd].
    rewrite map_bus_no_middle in Hnd.
    apply NoDup_remove in Hnd as [Hnd Hnotin].
    rewrite <- map_app in Hnd, Hnotin.
    assert (Hgone : forall x, In x (l1 ++ l2) -> bus_no x <> no).
    { intros x Hx Hxno. apply Hnotin. rewrite Hb, <- Hxno.
      apply in_map, Hx. }
    split; [exact Hgone|].
    split; [apply find_bus_index_from_absent, Hgone|].
    split; [|exact Hnd].
    intros x Hx Hxno. rewrite in_app_iff in *. cbn [In] in Hx.
    destruct Hx as [Hx | [Hx | Hx]]; [left; exact Hx | | right; exact Hx].
    subst x. contradiction.
  - assert (H : forall b, In b fleet -> bus_no b <> no).
    { intros b Hin Hb.
      assert (Ht : existsb (fun b => bus_no b =? no) fleet = true).
      { apply existsb_exists. exists b. split; [exact Hin|].
        apply Z.eqb_eq, Hb. }
      rewrite Ht in E. discriminate E. }
    unfold delete_bus, find_bus_index.
    rewrite (find_bus_index_from_absent 0 fleet no H). cbn [Z.eqb snd].
    split; [exact H|].
    split; [apply find_bus_index_from_absent, H|].
    split; [intros b Hb _; exact Hb | exact Hnd].
Qed.

Lemma delete_removes_number_witness :
  let fleet' := snd (delete_bus [bus_8; scenario_bus 10000 9200; bus_9] 7) in
  (forall b, In b fleet' -> bus_no b <> 7)
  /\ find_bus_index fleet' 7 = -1
  /\ (forall b, In b [bus_8; scenario_bus 10000 9200; bus_9] ->
        bus_no b <> 7 -> In b fleet')
  /\ NoDup (map bus_no fleet').
Proof.
  apply (delete_removes_number [bus_8; scenario_bus 10000 9200; bus_9] 7).
  cbn. repeat constructor; cbn; intuition discriminate.
Defined.

Lemma toupper_tolower (c : ascii) : toupper (tolower c) = toupper c.
Proof. destruct c as [[] [] [] [] [] [] [] []]; reflexivity. Qed.

Lemma toupper_idem (c : ascii) : toupper (toupper c) = toupper c.
Proof. destruct c as [[] [] [] [] [] [] [] []]; reflexivity. Qed.

Lemma to_upper_to_lower (s : string) :
  to_upper_str (to_lower_str s) = to_upper_str s.
Proof.
  induction s as [|c s IH]; cbn; [reflexivity|].
  rewrite toupper_tolower, IH. reflexivity.
Qed.

(** X15. Comparing without regard to case is comparing the upper-case
    forms: [str_ieq a b] holds exactly when [to_upper_str] maps [a] and
    [b] to the same string. [to_upper_str] keeps the length, changes
    nothing in a string it produced, and its result is [str_ieq]-equal to
    its argument; [str_ieq] is reflexive, symmetric and transitive. *)
Theorem str_ieq_normal_form (a b c : string) :
  (str_ieq a b = true <-> to_upper_str a = to_upper_str b)
  /\ to_upper_str (to_upper_str a) = to_upper_str a
  /\ String.length (to_upper_str a) = String.length a
  /\ str_ieq (to_upper_str a) a = true
  /\ str_ieq a a = true
  /\ str_ieq a b = str_ieq b a
  /\ (str_ieq a b = true -> str_ieq b c = true -> str_ieq a c = true).
Proof.
  assert (Hiff : forall x y,
            str_ieq x y = true <-> to_upper_str x = to_upper_str y).
  { intros x y. rewrite str_ieq_case_variant. unfold case_variant. split.
    - intros H. rewrite <- (to_upper_to_lower x), H. apply to_upper_to_lower.
    - intros H. rewrite <- (to_lower_to_upper x), H. apply to_lower_to_upper. }
  assert (Hidem : forall x, to_upper_str (to_upper_str x) = to_upper_str x).
  { induction x as [|ch x IH]; cbn; [reflexivity|].
    rewrite toupper_idem, IH. reflexivity. }
  split; [apply Hiff|]. split; [apply Hidem|].
  split; [apply to_upper_str_length|].
  split; [apply Hiff, Hidem|]. split; [apply Hiff; reflexivity|].
  split.
  - apply eq_true_iff_eq. rewrite !Hiff. split; intros H; symmetry; exact H.
  - rewrite !Hiff. intros H1 H2. rewrite H1. exact H2.
Qed.

Lemma str_ieq_normal_form_witness :
  str_ieq "chd-101a" "Chd-101A" = true
  /\ to_upper_str "chd-101a" = to_upper_str "Chd-101A".
Proof.
  destruct (str_ieq_normal_form "chd-101a" "Chd-101A" "CHD-101A")
    as (Hiff & _).
  split; [apply Hiff|]; reflexivity.
Defined.

(** ** Further properties of the persistence codec *)

Lemma scan_digits_stop (tail : string) (a l : Z) :
  starts_non_digit tail -> scan_digits tail a l = (a, l, tail).
Proof.
  destruct tail as [|c r]; [reflexivity|]. cbn. intros ->. reflexivity.
Qed.

Lemma scan_dec_tail (n : Z) (tail : string) :
  0 <= n -> starts_non_digit tail ->
  exists k, 0 < k /\ forall a,
    scan_digits (dec n ++ tail)%string a 0 = (a * 10 ^ k + n, k, tail).
Proof.
  intros Hn Ht. unfold dec.
  destruct (scan_dec_digits (Z.to_nat (Z.log2 n)) n EmptyString tail)
    as (k & Hk & Hscan).
  { split; [exact Hn|]. rewrite Nat2Z.inj_succ, Z2Nat.id
      by apply Z.log2_nonneg.
    destruct (Z.eq_dec n 0) as [-> | Hn0]; [reflexivity|].
    apply Z.log2_spec. lia. }
  exists k. split; [exact Hk|]. intros a. rewrite Hscan.
  cbn [String.append]. apply scan_digits_stop, Ht.
Qed.

(** The sign and the digits of a printed integer, read by the scanning
    steps that [strtol] and [%d] share. *)
Lemma scan_printed_int (z : Z) (tail : string) :
  starts_non_digit tail ->
  skip_space (print_int z ++ tail)%string = (print_int z ++ tail)%string
  /\ exists k, 0 < k
       /\ (let '(neg, digits) := scan_sign (print_int z ++ tail)%string in
           let '(v, len, rest) := scan_digits digits 0 0 in
           (if neg then - v else v, len, rest)) = (z, k, tail).
Proof.
  intros Ht. unfold print_int.
  destruct (Z.ltb_spec z 0) as [Hneg | Hpos].
  - destruct (scan_dec_tail (- z) tail ltac:(lia) Ht) as (k & Hk & Hscan).
    cbn [String.append]. split; [reflexivity|].
    exists k. split; [exact Hk|]. cbn [scan_sign]. rewrite Hscan.
    rewrite Z.mul_0_l, Z.add_0_l, Z.opp_involutive. reflexivity.
  - destruct (scan_dec_tail z tail Hpos Ht) as (k & Hk & Hscan).
    destruct (dec_head z Hpos) as (c0 & s0 & Hdec & Hd0).
    rewrite Hdec in *. cbn [String.append] in *.
    split; [apply skip_space_nonspace, is_digit_not_space, Hd0|].
    exists k. split; [exact Hk|].
    rewrite scan_sign_digit by exact Hd0. rewrite Hscan.
    rewrite Z.mul_0_l, Z.add_0_l. reflexivity.
Qed.

Lemma load_records_length (k i : nat) (input : string)
    (slot0 : nat -> Bus) (status0 : nat -> Z) :
  List.length (snd (load_records k i input slot0 status0)) = k
  /\ (List.length (fst (load_records k i input slot0 status0)) <= k)%nat
  /\ (forall m, In m (fst (load_records k i input slot0 status0)) ->
        m = CorruptedLine).
Proof.
  revert i input. induction k as [|k IH]; intros i input.
  - cbn. repeat split; [lia | intros m []].
  - cbn [load_records].
    destruct (fscanf bus_format input (slot0 i, status0 i))
      as [[n rest] slot].
    specialize (IH (S i) rest).
    destruct (load_records k (S i) rest slot0 status0) as [ms fleet].
    cbn [fst snd] in *. destruct IH as (IH1 & IH2 & IH3).
    destruct (n =? 19); cbn [app List.length]; repeat split; try lia.
    + exact IH3.
    + intros m [<- | Hm]; [reflexivity | apply IH3, Hm].
Qed.

(** [%d] on a printed integer of any size: the value is brought into the
    range of [long] and stored as an [int]. *)
Lemma scan_int_print_any (z : Z) (tail : string) :
  starts_non_digit tail ->
  scan_int (print_int z ++ tail)%string
  = (Some (wrap (Z.max LONG_MIN (Z.min LONG_MAX z))), tail).
Proof.
  intros Ht. unfold scan_int.
  destruct (scan_printed_int z tail Ht) as (Hsk & k & Hk & Hscan).
  rewrite Hsk.
  destruct (scan_sign (print_int z ++ tail)%string) as [neg digits].
  destruct (scan_digits digits 0 0) as [[v len] rest].
  injection Hscan as Hv Hlen Hrest. subst len rest.
  destruct (Z.eqb_spec k 0) as [E | _]; [lia|]. rewrite Hv. reflexivity.
Qed.

Lemma wrap_clamp_beyond_long (z : Z) :
  z < LONG_MIN \/ LONG_MAX < z ->
  wrap (Z.max LONG_MIN (Z.min LONG_MAX z)) <= 0.
Proof.
  intros [H | H].
  - replace (Z.max LONG_MIN (Z.min LONG_MAX z)) with LONG_MIN
      by (unfold LONG_MIN, LONG_MAX in *; lia).
    vm_compute. discriminate.
  - replace (Z.max LONG_MIN (Z.min LONG_MAX z)) with LONG_MAX
      by (unfold LONG_MIN, LONG_MAX in *; lia).
    vm_compute. discriminate.
Qed.

(** X16. [load_fleet_from_file] trusts the count on the first line. A
    missing file gives the empty fleet without a message; a first line
    that is not a number, or a count of 0 or less as [%d] stores it, gives
    the empty fleet and the "empty or invalid" message; so does a count
    written with more digits than a [long] holds, which [%d] stores as
    -1 or 0. For a count [n > 0], when the array cannot grow the loader
    reports the failed allocation and the fleet is empty; otherwise the
    fleet has exactly [n] records whatever follows the first line, and
    the messages are at most [n] corrupted-line warnings followed by
    "loaded n". *)
Theorem load_trusts_count (room : bool) (slot0 : nat -> Bus)
    (status0 : nat -> Z) :
  load_fleet_from_file None room slot0 status0 = ([], [])
  /\ (forall text,
       let '(msgs, fleet) :=
         load_fleet_from_file (Some text) room slot0 status0 in
       match fst (scan_int text) with
       | Some n =>
           if 0 <? n then
             if room then
               List.length fleet = Z.to_nat n
               /\ exists warnings,
                    msgs = warnings ++ [FleetLoaded n]
                    /\ (List.length warnings <= Z.to_nat n)%nat
                    /\ forall m, In m warnings -> m = CorruptedLine
             else msgs = [LoadAllocFailed] /\ fleet = []
           else msgs = [DataFileInvalid] /\ fleet = []
       | None => msgs = [DataFileInvalid] /\ fleet = []
       end)
  /\ (forall z tail,
       z < LONG_MIN \/ LONG_MAX < z -> starts_non_digit tail ->
       load_fleet_from_file (Some (print_int z ++ tail)%string) room
         slot0 status0
       = ([DataFileInvalid], [])).
Proof.
  split; [reflexivity|]. split.
  - intros text. unfold load_fleet_from_file.
    destruct (scan_int text) as [[n|] rest]; cbn [fst];
      [|split; reflexivity].
    destruct (Z.ltb_spec 0 n) as [Hn | Hn].
    + destruct (Z.leb_spec n 0) as [Hle | _]; [lia|].
      destruct room; cbn [negb]; [|split; reflexivity].
      destruct (load_records_length (Z.to_nat n) 0 (skip_space rest)
                  slot0 status0) as (H1 & H2 & H3).
      destruct (load_records (Z.to_nat n) 0 (skip_space rest) slot0 status0)
        as [ms fleet]. cbn [fst snd] in *.
      split; [exact H1|]. exists ms. repeat split; assumption.
    + destruct (Z.leb_spec n 0) as [_ | Hgt]; [split; reflexivity | lia].
  - intros z tail Hz Ht. unfold load_fleet_from_file.
    rewrite (scan_int_print_any z tail Ht).
    pose proof (wrap_clamp_beyond_long z Hz) as Hw.
    destruct (Z.leb_spec (wrap (Z.max LONG_MIN (Z.min LONG_MAX z))) 0)
      as [_ | Hgt]; [reflexivity | lia].
Qed.

Lemma load_trusts_count_witness :
  load_fleet_from_file
    (Some (print_int 100000000000000000000 ++ String LF EmptyString)%string)
    true (fun _ => blank_bus) (fun _ => 0)
  = ([DataFileInvalid], []).
Proof.
  apply (proj2 (proj2 (load_trusts_count true (fun _ => blank_bus)
                         (fun _ => 0)))).
  - right. unfold LONG_MAX. lia.
  - reflexivity.
Defined.

Lemma load_records_empty (k i : nat) (slot0 : nat -> Bus)
    (status0 : nat -> Z) :
  load_records k i EmptyString slot0 status0
  = (repeat CorruptedLine k,
     map (fun j => st_status (slot0 j, status0 j)) (seq i k)).
Proof.
  revert i. induction k as [|k IH]; intros i; [reflexivity|].
  cbn [load_records repeat seq map].
  change (fscanf bus_format EmptyString (slot0 i, status0 i))
    with (0, EmptyString, (slot0 i, status0 i)).
  cbv iota beta. rewrite IH. reflexivity.
Qed.

(** X17. A file cut off after its count line, for a count [n] between 1
    and INT_MAX: when the array cannot grow to [n] records the loader
    reports the failed allocation and loads nothing; otherwise it warns
    [n] times and fills the fleet with [n] records made of what the array
    slots and [status_int] held before, nothing of them read from the
    file. *)
Theorem load_truncated_file (n : Z) (room : bool) (slot0 : nat -> Bus)
    (status0 : nat -> Z) :
  0 < n <= INT_MAX ->
  load_fleet_from_file (Some (print_int n ++ String LF EmptyString)%string)
    room slot0 status0
  = if room then
      (repeat CorruptedLine (Z.to_nat n) ++ [FleetLoaded n],
       map (fun j => st_status (slot0 j, status0 j)) (seq 0 (Z.to_nat n)))
    else ([LoadAllocFailed], []).
Proof.
  intros Hn. unfold load_fleet_from_file.
  rewrite scan_int_print.
  - destruct (Z.leb_spec n 0) as [Hle | _]; [lia|].
    destruct room; cbn [negb]; [|reflexivity].
    change (skip_space (String LF EmptyString)) with EmptyString.
    rewrite load_records_empty. reflexivity.
  - unfold in_int_range, INT_MIN, INT_MAX in *.
    apply andb_true_iff. split; apply Z.leb_le; lia.
  - right. reflexivity.
Qed.

Lemma load_truncated_file_witness :
  load_fleet_from_file (Some (print_int 2 ++ String LF EmptyString)%string)
    true (fun _ => blank_bus) (fun _ => 9)
  = ([CorruptedLine; CorruptedLine; FleetLoaded 2],
     [st_status (blank_bus, 9); st_status (blank_bus, 9)])
  /\ load_fleet_from_file
       (Some (print_int 2147483647 ++ String LF EmptyString)%string)
       false (fun _ => blank_bus) (fun _ => 9)
     = ([LoadAllocFailed], []).
Proof.
  split.
  - apply (load_truncated_file 2 true (fun _ => blank_bus) (fun _ => 9)).
    unfold INT_MAX. lia.
  - apply (load_truncated_file 2147483647 false (fun _ => blank_bus)
             (fun _ => 9)).
    unfold INT_MAX. lia.
Defined.

Lemma fprintf_bus_reread (b : Bus) :
  wf_bus b = true -> fprintf_bus (reread_bus b) = fprintf_bus b.
Proof.
  intros Hwf. unfold wf_bus in Hwf. split_wf Hwf.
  unfold fprintf_bus, reread_bus.
  cbn [bus_code driver_name bus_no last_service next_due current_mileage
       last_service_mileage service_interval_km service_interval_days
       service_history_count status km_left health_score avg_daily_km
       fuel_efficiency].
  rewrite !reread_same by assumption. reflexivity.
Qed.

Lemma fprintf_fleet_reread (fleet : list Bus) :
  forallb wf_bus fleet = true ->
  fprintf_fleet (map reread_bus fleet) = fprintf_fleet fleet.
Proof.
  induction fleet as [|b rest IH]; intros H; [reflexivity|].
  cbn [forallb] in H. apply andb_true_iff in H as [Hb Hrest].
  cbn [map fprintf_fleet]. rewrite fprintf_bus_reread, IH by assumption.
  reflexivity.
Qed.

(** X18. Saving what was loaded reproduces the file: for a well-formed
    fleet, the text written for the fleet loaded from a saved file (into
    an array that could grow to hold it) is the saved file itself,
    character for character. *)
Theorem resave_reproduces_file (fleet : list Bus) (slot0 : nat -> Bus)
    (status0 : nat -> Z) :
  wf_fleet fleet = true ->
  save_fleet_to_file
    (snd (load_fleet_from_file (save_fleet_to_file fleet true) true
            slot0 status0)) true
  = save_fleet_to_file fleet true.
Proof.
  intros Hwf. rewrite (load_save fleet slot0 status0 Hwf).
  destruct fleet as [|b rest]; [reflexivity|]. cbn [snd].
  unfold wf_fleet in Hwf. apply andb_true_iff in Hwf as [Hwf _].
  unfold save_fleet_to_file.
  rewrite length_map, fprintf_fleet_reread by exact Hwf. reflexivity.
Qed.

Lemma resave_reproduces_file_witness :
  save_fleet_to_file
    (snd (load_fleet_from_file (save_fleet_to_file fleet_evaluated true) true
            (fun _ => blank_bus) (fun _ => 0))) true
  = save_fleet_to_file fleet_evaluated true.
Proof.
  apply (resave_reproduces_file fleet_evaluated (fun _ => blank_bus)
           (fun _ => 0)).
  reflexivity.
Defined.

Lemma reread_finite (x : float) :
  is_finite32 x = true -> is_finite32 (reread x) = true.
Proof.
  destruct x as [s | s | | s m e]; try discriminate; [reflexivity|].
  cbn [is_finite32]. intros Hb. unfold reread, float_of_decimal.
  pose proof (cents_nonneg m e) as Hh.
  destruct (Z.eqb_spec (cents m e) 0) as [E | E]; [reflexivity|].
  change (0 <=? - 2) with false. cbv iota. change (10 ^ (- - 2)) with 100.
  pose proof (round_ratio_valid s (cents m e) 100 ltac:(lia) eq_refl) as Hv.
  destruct (round_ratio_cents s m e Hb ltac:(lia)) as (m' & e' & Hr & _).
  rewrite Hr in *. exact Hv.
Qed.

Lemma reread_idem (x : float) :
  is_finite32 x = true -> reread (reread x) = reread x.
Proof.
  destruct x as [s | s | | s m e]; try discriminate; [reflexivity|].
  cbn [is_finite32]. intros Hb. unfold reread at 2 3, float_of_decimal.
  pose proof (cents_nonneg m e) as Hh.
  destruct (Z.eqb_spec (cents m e) 0) as [E | E]; [reflexivity|].
  change (0 <=? - 2) with false. cbv iota. change (10 ^ (- - 2)) with 100.
  destruct (round_ratio_cents s m e Hb ltac:(lia)) as (m' & e' & Hr & Hc).
  rewrite Hr. unfold reread, float_of_decimal. rewrite Hc.
  destruct (Z.eqb_spec (cents m e) 0) as [E' | _]; [contradiction|].
  change (0 <=? - 2) with false. cbv iota. change (10 ^ (- - 2)) with 100.
  exact Hr.
Qed.

Lemma reread_bus_wf (b : Bus) :
  wf_bus b = true -> wf_bus (reread_bus b) = true.
Proof.
  intros Hwf. unfold wf_bus in *. split_wf Hwf.
  cbn [reread_bus bus_code driver_name bus_no last_service next_due
       current_mileage last_service_mileage service_interval_km
       service_interval_days service_history_count status km_left
       health_score avg_daily_km fuel_efficiency].
  rewrite !reread_finite by assumption.
  repeat match goal with
         | H : ?x = true |- context [?x] => rewrite H
         end.
  reflexivity.
Qed.

Lemma reread_bus_idem (b : Bus) :
  wf_bus b = true -> reread_bus (reread_bus b) = reread_bus b.
Proof.
  intros Hwf. unfold wf_bus in Hwf. split_wf Hwf.
  unfold reread_bus.
  cbn [bus_code driver_name bus_no last_service next_due
       current_mileage last_service_mileage service_interval_km
       service_interval_days service_history_count status km_left
       health_score avg_daily_km fuel_efficiency].
  rewrite !reread_idem by assumption. reflexivity.
Qed.

(** X19. The fleet loaded from a file saved for a well-formed fleet is
    well-formed again (its decimals are finite binary32 numbers), and from
    then on the round trip is exact: saving it and loading it gives the
    very same records, decimal fields included. (Both loads into an array
    that could grow to hold the fleet.) *)
Theorem second_round_trip_exact (fleet : list Bus)
    (slot0 slot1 : nat -> Bus) (status0 status1 : nat -> Z) :
  wf_fleet fleet = true ->
  let loaded :=
    snd (load_fleet_from_file (save_fleet_to_file fleet true) true
           slot0 status0) in
  wf_fleet loaded = true
  /\ snd (load_fleet_from_file (save_fleet_to_file loaded true) true
            slot1 status1) = loaded.
Proof.
  intros Hwf. cbv zeta. rewrite (load_save fleet slot0 status0 Hwf).
  destruct fleet as [|b rest]; [split; reflexivity|]. cbn [snd].
  set (fleet := b :: rest) in *.
  unfold wf_fleet in Hwf. apply andb_true_iff in Hwf as [Hwf Hlen].
  assert (Hwf' : wf_fleet (map reread_bus fleet) = true).
  { unfold wf_fleet. rewrite length_map, Hlen, andb_true_r.
    rewrite forallb_forall in *. intros x Hx.
    apply in_map_iff in Hx as (y & <- & Hy). apply reread_bus_wf, Hwf, Hy. }
  split; [exact Hwf'|].
  rewrite (load_save _ slot1 status1 Hwf'). subst fleet. cbn [map snd].
  rewrite forallb_forall in Hwf. f_equal.
  - apply reread_bus_idem, Hwf. left. reflexivity.
  - rewrite map_map. apply map_ext_in. intros x Hx.
    apply reread_bus_idem, Hwf. right. exact Hx.
Qed.

Lemma second_round_trip_exact_witness :
  let loaded :=
    snd (load_fleet_from_file (save_fleet_to_file fleet_evaluated true) true
           (fun _ => blank_bus) (fun _ => 0)) in
  wf_fleet loaded = true
  /\ snd (load_fleet_from_file (save_fleet_to_file loaded true) true
            (fun _ => blank_bus) (fun _ => 0)) = loaded.
Proof.
  apply (second_round_trip_exact fleet_evaluated (fun _ => blank_bus)
           (fun _ => blank_bus) (fun _ => 0) (fun _ => 0)).
  reflexivity.
Defined.

(** ** Properties of the input helpers *)

Lemma append_nil_r (s : string) : (s ++ "")%string = s.
Proof.
  induction s as [|c s IH]; cbn [String.append]; [reflexivity|].
  rewrite IH. reflexivity.
Qed.

Lemma strip_eol_app_LF (s : string) :
  strip_eol (s ++ String LF "")%string = strip_eol s.
Proof.
  induction s as [|c s IH]; [reflexivity|].
  cbn [String.append strip_eol]. rewrite IH. reflexivity.
Qed.

Lemma strip_eol_length (s : string) :
  (String.length (strip_eol s) <= String.length s)%nat.
Proof.
  induction s as [|c s IH]; [cbn; lia|]. cbn [strip_eol].
  destruct (strip_eol s) as [|x t].
  - destruct (Ascii.eqb c LF || Ascii.eqb c CR); cbn; lia.
  - cbn [String.length] in *. lia.
Qed.

Lemma strip_eol_idem (s : string) : strip_eol (strip_eol s) = strip_eol s.
Proof.
  induction s as [|c s IH]; [reflexivity|]. cbn [strip_eol].
  destruct (strip_eol s) as [|x t] eqn:E.
  - destruct (Ascii.eqb c LF || Ascii.eqb c CR) eqn:Ec; [reflexivity|].
    cbn [strip_eol]. rewrite Ec. reflexivity.
  - cbn [strip_eol]. cbn [strip_eol] in IH. rewrite IH. reflexivity.
Qed.

Lemma strip_eol_no_LF (s : string) :
  no_LF s = true -> no_LF (strip_eol s) = true.
Proof.
  unfold no_LF, chars. induction s as [|c s IH]; [reflexivity|].
  cbn [list_ascii_of_string forallb]. intros H.
  apply andb_true_iff in H as [Hc Hs]. specialize (IH Hs).
  cbn [strip_eol]. destruct (strip_eol s) as [|x t].
  - destruct (Ascii.eqb c LF || Ascii.eqb c CR); [reflexivity|].
    cbn [list_ascii_of_string forallb]. rewrite Hc. reflexivity.
  - cbn [list_ascii_of_string forallb] in *. rewrite Hc. exact IH.
Qed.

(** What [fgets] takes from the input: a stretch without line feed, with
    the line feed that follows it if it came within reach. *)
Lemma fgets_take_spec (n : nat) (input : string) :
  let '(buf, rest) := fgets_take n input in
  input = (buf ++ rest)%string
  /\ (String.length buf <= n)%nat
  /\ exists pre, no_LF pre = true
       /\ (buf = pre \/ buf = (pre ++ String LF "")%string).
Proof.
  revert input. induction n as [|n IH]; intros input.
  - cbn. repeat split; [lia|]. exists EmptyString. split; [reflexivity|].
    left. reflexivity.
  - destruct input as [|c input].
    + cbn. repeat split; [lia|]. exists EmptyString.
      split; [reflexivity|]. left. reflexivity.
    + cbn [fgets_take]. destruct (Ascii.eqb c LF) eqn:Ec.
      * apply Ascii.eqb_eq in Ec. subst c. cbn. repeat split; [lia|].
        exists EmptyString. split; [reflexivity|]. right. reflexivity.
      * specialize (IH input). destruct (fgets_take n input) as [buf rest].
        destruct IH as (H1 & H2 & pre & Hpre & Hbuf).
        cbn [String.append String.length]. split; [rewrite <- H1; reflexivity|].
        split; [lia|]. exists (String c pre). split.
        -- unfold no_LF, chars in *. cbn [list_ascii_of_string forallb].
           rewrite Ec, Hpre. reflexivity.
        -- destruct Hbuf as [-> | ->]; [left | right]; reflexivity.
Qed.

Lemma fgets_take_line (n : nat) (line rest : string) :
  no_LF line = true -> (String.length line < n)%nat ->
  fgets_take n (line ++ String LF rest)%string
  = ((line ++ String LF "")%string, rest).
Proof.
  unfold no_LF, chars. revert n. induction line as [|c line IH]; intros n H Hn.
  - destruct n as [|n]; [cbn in Hn; lia|]. reflexivity.
  - destruct n as [|n]; [cbn in Hn; lia|].
    cbn [list_ascii_of_string forallb] in H.
    apply andb_true_iff in H as [Hc Hl]. apply negb_true_iff in Hc.
    cbn [String.append fgets_take]. rewrite Hc.
    rewrite IH; [reflexivity | exact Hl | cbn in Hn; lia].
Qed.

Lemma fgets_take_full (n : nat) (pre post : string) :
  no_LF pre = true -> String.length pre = n ->
  fgets_take n (pre ++ post)%string = (pre, post).
Proof.
  unfold no_LF, chars. revert n. induction pre as [|c pre IH]; intros n H Hn.
  - cbn in Hn. subst n. reflexivity.
  - destruct n as [|n]; [discriminate Hn|].
    cbn [list_ascii_of_string forallb] in H.
    apply andb_true_iff in H as [Hc Hl]. apply negb_true_iff in Hc.
    cbn [String.append fgets_take]. rewrite Hc.
    rewrite IH; [reflexivity | exact Hl | cbn in Hn; lia].
Qed.

Lemma c_str_length (s : string) :
  (String.length (c_str s) <= String.length s)%nat.
Proof.
  induction s as [|c s IH]; [cbn; lia|]. cbn [c_str].
  destruct (Ascii.eqb c NUL); cbn [String.length]; lia.
Qed.

Lemma c_str_no_NUL (s : string) : no_NUL (c_str s) = true.
Proof.
  unfold no_NUL, chars. induction s as [|c s IH]; [reflexivity|].
  cbn [c_str]. destruct (Ascii.eqb c NUL) eqn:Ec; [reflexivity|].
  cbn [list_ascii_of_string forallb]. rewrite Ec, IH. reflexivity.
Qed.

Lemma c_str_no_LF (s : string) : no_LF s = true -> no_LF (c_str s) = true.
Proof.
  unfold no_LF, chars. induction s as [|c s IH]; [reflexivity|].
  cbn [list_ascii_of_string forallb]. intros H.
  apply andb_true_iff in H as [Hc Hs]. cbn [c_str].
  destruct (Ascii.eqb c NUL); [reflexivity|].
  cbn [list_ascii_of_string forallb]. rewrite Hc, (IH Hs). reflexivity.
Qed.

(** A buffer without NUL byte is the string it holds. *)
Lemma c_str_id (s : string) : no_NUL s = true -> c_str s = s.
Proof.
  unfold no_NUL, chars. induction s as [|c s IH]; [reflexivity|].
  cbn [list_ascii_of_string forallb]. intros H.
  apply andb_true_iff in H as [Hc Hs]. apply negb_true_iff in Hc.
  cbn [c_str]. rewrite Hc, (IH Hs). reflexivity.
Qed.

Lemma strip_eol_c_str_app_LF (s : string) :
  strip_eol (c_str (s ++ String LF ""))%string = strip_eol (c_str s).
Proof.
  induction s as [|c s IH]; [reflexivity|].
  cbn [String.append c_str]. destruct (Ascii.eqb c NUL); [reflexivity|].
  cbn [strip_eol]. rewrite IH. reflexivity.
Qed.

Lemma strip_eol_no_NUL (s : string) :
  no_NUL s = true -> no_NUL (strip_eol s) = true.
Proof.
  unfold no_NUL, chars. induction s as [|c s IH]; [reflexivity|].
  cbn [list_ascii_of_string forallb]. intros H.
  apply andb_true_iff in H as [Hc Hs]. specialize (IH Hs).
  cbn [strip_eol]. destruct (strip_eol s) as [|x t].
  - destruct (Ascii.eqb c LF || Ascii.eqb c CR); [reflexivity|].
    cbn [list_ascii_of_string forallb]. rewrite Hc. reflexivity.
  - cbn [list_ascii_of_string forallb] in *. rewrite Hc. exact IH.
Qed.

(** X20. [read_line_stdin] returns 0 or 1. It fails (returns 0, with the
    empty string in the buffer and the input untouched) exactly when the
    size is 0, or the size is at least 2 and the input is at its end; for
    size 1 it returns 1 with the empty string, without reading. In every
    case the string in the buffer has fewer than [size] characters, no
    line feed, no NUL byte, and no line feed or carriage return at its
    end; it is the stripped form of the string held by at most
    [size - 1] characters taken from the front of the input, and what
    was not taken stays in the input. *)
Theorem read_line_stdin_spec (size : nat) (stdin : string) :
  let '(r, buf, rest) := read_line_stdin size stdin in
  (r = 0 \/ r = 1)
  /\ (r = 0 <-> size = 0%nat \/ ((2 <= size)%nat /\ stdin = EmptyString))
  /\ (r = 0 -> buf = EmptyString /\ rest = stdin)
  /\ (size = 1%nat -> buf = EmptyString /\ rest = stdin)
  /\ (String.length buf <= size - 1)%nat
  /\ no_LF buf = true
  /\ no_NUL buf = true
  /\ strip_eol buf = buf
  /\ exists raw,
       stdin = (raw ++ rest)%string
       /\ (String.length raw <= size - 1)%nat
       /\ buf = strip_eol (c_str raw).
Proof.
  unfold read_line_stdin. destruct size as [|[|size]].
  - split; [left; reflexivity|].
    split; [split; [intros _; left; reflexivity | reflexivity]|].
    split; [intros _; split; reflexivity|].
    split; [discriminate|]. repeat split; try (cbn; lia).
    exists EmptyString. repeat split. cbn; lia.
  - split; [right; reflexivity|].
    split; [split; [discriminate | intros [H | [H _]]; [discriminate | lia]]|].
    split; [discriminate|].
    split; [intros _; split; reflexivity|]. repeat split; try (cbn; lia).
    exists EmptyString. repeat split. cbn; lia.
  - destruct stdin as [|c stdin].
    + split; [left; reflexivity|].
      split; [split; [intros _; right; split; [lia | reflexivity]
                     | reflexivity]|].
      split; [intros _; split; reflexivity|].
      split; [discriminate|]. repeat split; try (cbn; lia).
      exists EmptyString. repeat split. cbn; lia.
    + pose proof (fgets_take_spec (S (S size) - 1) (String c stdin)) as H.
      destruct (fgets_take (S (S size) - 1) (String c stdin)) as [buf rest].
      destruct H as (H1 & H2 & pre & Hpre & Hbuf).
      split; [right; reflexivity|].
      split; [split; [discriminate
                     | intros [H | [_ H]]; discriminate]|].
      split; [discriminate|]. split; [discriminate|].
      split; [pose proof (strip_eol_length (c_str buf));
              pose proof (c_str_length buf); lia|].
      split; [|split; [apply strip_eol_no_NUL, c_str_no_NUL|
                       split; [apply strip_eol_idem|]]].
      * destruct Hbuf as [-> | ->]; rewrite ?strip_eol_c_str_app_LF;
          apply strip_eol_no_LF, c_str_no_LF, Hpre.
      * exists buf. repeat split; assumption.
Qed.

Lemma read_line_stdin_spec_witness :
  fst (fst (read_line_stdin 0 "abc")) = 0
  /\ fst (fst (read_line_stdin 1 "")) = 1
  /\ fst (fst (read_line_stdin 64 (String "7" (String LF "9")))) = 1
  /\ no_LF (snd (fst (read_line_stdin 64 (String "7" (String LF "9")))))
     = true.
Proof.
  split; [|split].
  - pose proof (read_line_stdin_spec 0 "abc") as H.
    destruct (read_line_stdin 0 "abc") as [[r buf] rest].
    destruct H as (_ & H & _). apply H. left. reflexivity.
  - pose proof (read_line_stdin_spec 1 "") as H.
    destruct (read_line_stdin 1 "") as [[r buf] rest].
    destruct H as ([H0 | H1] & H & _); [|exact H1].
    apply H in H0 as [H0 | [H0 _]]; [discriminate H0 | lia].
  - pose proof (read_line_stdin_spec 64 (String "7" (String LF "9"))) as H.
    destruct (read_line_stdin 64 (String "7" (String LF "9")))
      as [[r buf] rest].
    destruct H as ([H0 | H1] & H & _ & _ & _ & HLF & _).
    + apply H in H0 as [H0 | [_ H0]]; discriminate H0.
    + split; [exact H1 | exact HLF].
Defined.

(** X21. For a line without line feed: a line shorter than [size - 1]
    characters is read up to and with its line feed, and the input goes
    on after the line feed; of a line of [size - 1] characters or more
    the first [size - 1] characters are read and the rest of the line
    stays in the input, to be read as the next line. The string in the
    buffer is what was read up to its first NUL byte, if it has one,
    without the carriage returns at its end; for a line without NUL byte
    that is the line without the carriage returns at its end. *)
Theorem read_line_stdin_lines (size : nat) (line rest : string) :
  no_LF line = true ->
  ((String.length line < size - 1)%nat ->
   read_line_stdin size (line ++ String LF rest)%string
   = (1, strip_eol (c_str line), rest))
  /\ (line <> EmptyString -> String.length line = (size - 1)%nat ->
      read_line_stdin size (line ++ rest)%string
      = (1, strip_eol (c_str line), rest))
  /\ (no_NUL line = true -> strip_eol (c_str line) = strip_eol line).
Proof.
  intros Hl. split; [|split].
  - intros Hlen. unfold read_line_stdin.
    destruct size as [|[|size]]; [cbn in Hlen; lia | cbn in Hlen; lia |].
    destruct (line ++ String LF rest)%string eqn:E.
    + destruct line; discriminate E.
    + rewrite <- E, (fgets_take_line _ _ _ Hl Hlen).
      rewrite strip_eol_c_str_app_LF. reflexivity.
  - intros Hne Hlen. unfold read_line_stdin.
    destruct size as [|[|size]];
      [destruct line; [contradiction | discriminate Hlen]
      |destruct line; [contradiction | discriminate Hlen] |].
    destruct (line ++ rest)%string eqn:E.
    + destruct line; [contradiction | discriminate E].
    + rewrite <- E, (fgets_take_full _ _ _ Hl Hlen). reflexivity.
  - intros Hn. rewrite (c_str_id line Hn). reflexivity.
Qed.

Lemma read_line_stdin_lines_witness :
  read_line_stdin 8 ("CHD-1" ++ String CR (String LF "7"))%string
  = (1, "CHD-1"%string, "7"%string)
  /\ read_line_stdin 8 ("CHD-101" ++ "A")%string
     = (1, "CHD-101"%string, "A"%string)
  /\ read_line_stdin 64
       (String "a" (String NUL "b") ++ String LF "z")%string
     = (1, "a"%string, "z"%string).
Proof.
  split; [|split].
  - apply (read_line_stdin_lines 8 ("CHD-1" ++ String CR "")%string "7");
      [reflexivity | cbn; lia].
  - apply (read_line_stdin_lines 8 "CHD-101" "A");
      [reflexivity | discriminate | reflexivity].
  - apply (read_line_stdin_lines 64 (String "a" (String NUL "b")) "z");
      [reflexivity | cbn; lia].
Defined.

Lemma is_all_digits_from_spec (s : string) (h : bool) :
  is_all_digits_from s h
  = forallb (fun c => is_digit c || is_space c) (chars s)
    && (h || existsb is_digit (chars s)).
Proof.
  unfold chars. revert h. induction s as [|c s IH]; intros h.
  - cbn. rewrite orb_false_r. reflexivity.
  - cbn [is_all_digits_from list_ascii_of_string forallb existsb].
    rewrite IH. destruct (is_digit c), (is_space c), h; cbn;
      rewrite ?orb_true_r; reflexivity.
Qed.

(** X22. [is_all_digits] accepts exactly the strings made of digits and
    white space only that hold at least one digit; the empty string and a
    string of blanks are not "all digits". *)
Theorem is_all_digits_spec (s : string) :
  is_all_digits s = true
  <-> (forall c, In c (chars s) -> is_digit c = true \/ is_space c = true)
      /\ exists c, In c (chars s) /\ is_digit c = true.
Proof.
  unfold is_all_digits. rewrite is_all_digits_from_spec.
  rewrite andb_true_iff, orb_false_l, forallb_forall, existsb_exists.
  split; intros [H1 H2]; (split; [|exact H2]); intros c Hc.
  - apply orb_true_iff, H1, Hc.
  - apply orb_true_iff, H1, Hc.
Qed.
(** ** Properties of the validated prompts *)

Lemma strtol_print (z : Z) (tail : string) :
  LONG_MIN <= z <= LONG_MAX -> starts_non_digit tail ->
  strtol (print_int z ++ tail)%string = (z, tail).
Proof.
  intros Hz Ht. unfold strtol.
  destruct (scan_printed_int z tail Ht) as (Hsk & k & Hk & Hscan).
  rewrite Hsk.
  destruct (scan_sign (print_int z ++ tail)%string) as [neg digits].
  destruct (scan_digits digits 0 0) as [[v len] rest].
  injection Hscan as Hv Hlen Hrest. subst len rest.
  destruct (Z.eqb_spec k 0) as [E | _]; [lia|]. rewrite Hv.
  f_equal. lia.
Qed.

Lemma scan_int_print_tail (z : Z) (tail : string) :
  INT_MIN <= z <= INT_MAX -> starts_non_digit tail ->
  scan_int (print_int z ++ tail)%string = (Some z, tail).
Proof.
  intros Hz Ht. rewrite (scan_int_print_any z tail Ht).
  rewrite clamp_long_small, wrap_small by exact Hz. reflexivity.
Qed.

Lemma read_int_line_range (min max : Z) (buf : string) (v : Z) :
  INT_MIN <= min -> max <= INT_MAX ->
  read_int_line min max buf = inr v -> min <= v <= max /\ buf <> EmptyString.
Proof.
  intros Hmin Hmax. unfold read_int_line.
  destruct buf as [|c buf]; [discriminate|].
  destruct (strtol (String c buf)) as [val endptr].
  destruct (skip_space endptr); [|discriminate].
  destruct (Z.ltb_spec val min) as [Hlo | Hlo]; [discriminate|].
  destruct (Z.ltb_spec max val) as [Hhi | Hhi]; [discriminate|]. cbn [orb].
  intros Hr. injection Hr as <-. rewrite wrap_small by lia.
  split; [lia | discriminate].
Qed.

(** X23. Whatever is typed, a value returned by [read_int_strict] lies
    between [min] and [max]; it was read from a non-empty line, the lines
    before it were each rejected with one message, and the lines after it
    are still unread. *)
Theorem read_int_strict_sound (min max : Z) (lines : list string)
    (ms : list Notice) (v : Z) (rest : list string) :
  INT_MIN <= min -> max <= INT_MAX ->
  read_int_strict min max lines = (ms, Some (v, rest)) ->
  min <= v <= max
  /\ exists skipped buf,
       lines = skipped ++ buf :: rest /\ buf <> EmptyString
       /\ List.length ms = List.length skipped.
Proof.
  intros Hmin Hmax. revert ms.
  induction lines as [|buf lines IH]; intros ms H; [discriminate H|].
  cbn [read_int_strict] in H.
  destruct (read_int_line min max buf) as [msg | v'] eqn:E.
  - destruct (read_int_strict min max lines) as [ms' r] eqn:Er.
    injection H as <- ->.
    destruct (IH ms' eq_refl) as (Hv & skipped & b & -> & Hb & Hlen).
    split; [exact Hv|]. exists (buf :: skipped), b.
    repeat split; [exact Hb | cbn; lia].
  - injection H as <- <- <-.
    destruct (read_int_line_range min max buf v' Hmin Hmax E) as [Hv Hb].
    split; [exact Hv|]. exists [], buf. repeat split. exact Hb.
Qed.

Lemma read_int_strict_sound_witness :
  1 <= 12 <= 9999999
  /\ exists skipped buf,
       ["twelve"; ""; "0"; " 12 "; "13"]%string
       = skipped ++ buf :: ["13"%string]
       /\ buf <> EmptyString /\ List.length
            [InvalidNumber; InputEmpty; OutOfRange 1 9999999]
          = List.length skipped.
Proof.
  apply (read_int_strict_sound 1 9999999
           ["twelve"; ""; "0"; " 12 "; "13"]%string
           [InvalidNumber; InputEmpty; OutOfRange 1 9999999] 12
           ["13"%string]);
    [unfold INT_MIN; lia | unfold INT_MAX; lia | reflexivity].
Defined.

(** X24. [read_int_strict] returns at once a number of the range typed as
    [%d] prints it. A non-empty line of white space only is taken as the
    number 0 when 0 is in the range: [strtol] converts nothing, and the
    check for leftover characters skips the white space. *)
Theorem read_int_strict_accepts (min max : Z) (rest : list string) :
  INT_MIN <= min -> max <= INT_MAX ->
  (forall z, min <= z <= max ->
     read_int_strict min max (print_int z :: rest) = ([], Some (z, rest)))
  /\ (forall buf, buf <> EmptyString -> skip_space buf = EmptyString ->
        min <= 0 <= max ->
        read_int_strict min max (buf :: rest) = ([], Some (0, rest))).
Proof.
  intros Hmin Hmax. unfold INT_MIN, INT_MAX in *. split.
  - intros z Hz. cbn [read_int_strict]. unfold read_int_line.
    assert (Hne : exists c s, print_int z = String c s).
    { unfold print_int. destruct (Z.ltb_spec z 0) as [Hn | Hn];
        [eexists; eexists; reflexivity|].
      destruct (dec_head z Hn) as (c & s & -> & _).
      eexists; eexists; reflexivity. }
    destruct Hne as (c & s & Hp). rewrite Hp. cbv iota. rewrite <- Hp.
    rewrite <- (append_nil_r (print_int z)).
    rewrite strtol_print; [|unfold LONG_MIN, LONG_MAX; lia | exact I].
    cbn [skip_space].
    destruct (Z.ltb_spec z min) as [Hlo | Hlo]; [lia|].
    destruct (Z.ltb_spec max z) as [Hhi | Hhi]; [lia|].
    cbn [orb]. rewrite wrap_small by (unfold INT_MIN, INT_MAX; lia).
    reflexivity.
  - intros buf Hne Hsp H0. cbn [read_int_strict]. unfold read_int_line.
    destruct buf as [|c buf]; [contradiction|].
    unfold strtol. rewrite Hsp. cbn [scan_sign scan_digits Z.eqb].
    rewrite Hsp.
    destruct (Z.ltb_spec 0 min) as [Hlo | Hlo]; [lia|].
    destruct (Z.ltb_spec max 0) as [Hhi | Hhi]; [lia|].
    reflexivity.
Qed.

Lemma read_int_strict_accepts_witness :
  read_int_strict 0 5000 [print_int 180; "7"%string]
  = ([], Some (180, ["7"%string]))
  /\ read_int_strict 0 5000 ["  "%string; "7"%string]
     = ([], Some (0, ["7"%string])).
Proof.
  destruct (read_int_strict_accepts 0 5000 ["7"%string])
    as [Hprinted Hblank]; [unfold INT_MIN; lia | unfold INT_MAX; lia|].
  split.
  - apply Hprinted. lia.
  - apply Hblank; [discriminate | reflexivity | lia].
Defined.

(** X25. Whatever is typed, a date returned by [read_date] is
    structurally valid; every line before the one it was read from was
    answered with "Invalid date". *)
Theorem read_date_sound (lines : list string) (d0 d : Date)
    (ms : list Notice) (rest : list string) :
  read_date lines d0 = (ms, Some (d, rest)) ->
  is_valid_date d = true
  /\ exists skipped buf,
       lines = skipped ++ buf :: rest
       /\ ms = repeat InvalidDate (List.length skipped).
Proof.
  revert d0 ms. induction lines as [|buf lines IH]; intros d0 ms H;
    [discriminate H|].
  cbn [read_date] in H. destruct (sscanf_date buf d0) as [n d'].
  destruct ((n =? 3) && is_valid_date d') eqn:E.
  - injection H as <- <- <-. apply andb_true_iff in E as [_ E].
    split; [exact E|]. exists [], buf. split; reflexivity.
  - destruct (read_date lines d') as [ms' r] eqn:Er.
    injection H as <- ->.
    destruct (IH d' ms' Er) as (Hv & skipped & b & -> & ->).
    split; [exact Hv|]. exists (buf :: skipped), b. split; reflexivity.
Qed.

Lemma read_date_sound_witness :
  is_valid_date (mkDate 15 1 2024) = true
  /\ exists skipped buf,
       ["15-01-2024"; "32/1/2024"; "15/1/2024 noon"; "1/1/2025"]%string
       = skipped ++ buf :: ["1/1/2025"%string]
       /\ [InvalidDate; InvalidDate] = repeat InvalidDate (List.length skipped).
Proof.
  apply (read_date_sound
           ["15-01-2024"; "32/1/2024"; "15/1/2024 noon"; "1/1/2025"]%string
           (mkDate 0 0 0) (mkDate 15 1 2024) [InvalidDate; InvalidDate]
           ["1/1/2025"%string]).
  reflexivity.
Defined.

(** X26. [read_date] returns at once a structurally valid date typed as
    day/month/year in decimal, whatever follows the year on the line
    after a character that is no digit. *)
Theorem read_date_accepts (d d0 : Date) (tail : string)
    (rest : list string) :
  is_valid_date d = true -> year d <= INT_MAX -> starts_non_digit tail ->
  read_date ((slashed_date d ++ tail)%string :: rest) d0
  = ([], Some (d, rest)).
Proof.
  intros Hv Hy Ht. pose proof Hv as Hv'.
  apply is_valid_date_spec in Hv' as (Hy0 & Hm & Hd).
  unfold INT_MAX in Hy. cbn [read_date]. unfold sscanf_date, slashed_date.
  rewrite !append_assoc. cbn [String.append].
  rewrite scan_int_print_tail
    by (unfold INT_MIN, INT_MAX; try reflexivity; lia).
  rewrite scan_int_print_tail
    by (unfold INT_MIN, INT_MAX; try reflexivity; lia).
  rewrite scan_int_print_tail
    by (unfold INT_MIN, INT_MAX; try exact Ht; lia).
  destruct d as [dd mm yy]. cbn [day month year] in *.
  cbn [Z.eqb andb]. rewrite Hv. reflexivity.
Qed.

Lemma read_date_accepts_witness :
  read_date ["15/1/2024 noon"%string; "x"%string] (mkDate 0 0 0)
  = ([], Some (mkDate 15 1 2024, ["x"%string])).
Proof.
  apply (read_date_accepts (mkDate 15 1 2024) (mkDate 0 0 0) " noon"
           ["x"%string]); [reflexivity | cbn; unfold INT_MAX; lia|].
  reflexivity.
Defined.

Lemma all_digits_app (a b : string) :
  all_digits (a ++ b)%string = all_digits a && all_digits b.
Proof.
  unfold all_digits, chars. induction a as [|c a IH]; [reflexivity|].
  cbn [String.append list_ascii_of_string forallb]. rewrite IH.
  apply andb_assoc.
Qed.

Lemma dec_digits_all_digits (f : nat) (n : Z) (acc : string) :
  0 <= n -> all_digits acc = true -> all_digits (dec_digits f n acc) = true.
Proof.
  revert n acc. induction f as [|f IH]; intros n acc Hn Hacc; [exact Hacc|].
  cbn [dec_digits].
  pose proof (Z.mod_pos_bound n 10 ltac:(lia)) as Hm.
  destruct (digit_char_ok (n mod 10) ltac:(lia)) as [Hd _].
  assert (Hacc' : all_digits (String (digit_char (n mod 10)) acc) = true).
  { unfold all_digits, chars in *. cbn [list_ascii_of_string forallb].
    rewrite Hd. exact Hacc. }
  destruct (n <? 10); [exact Hacc'|].
  apply IH; [apply Z.div_pos; lia | exact Hacc'].
Qed.

Lemma zeros_all_digits (k : nat) :
  all_digits (string_of_list_ascii (repeat "0"%char k)) = true.
Proof.
  unfold all_digits, chars. induction k as [|k IH]; [reflexivity|].
  cbn [repeat string_of_list_ascii list_ascii_of_string forallb].
  exact IH.
Qed.

Lemma scan_digits_all (s : string) (c : ascii) (r : string) (a l : Z) :
  all_digits s = true -> is_digit c = false ->
  exists v,
    scan_digits (s ++ String c r)%string a l
    = (v, l + Z.of_nat (String.length s), String c r).
Proof.
  unfold all_digits, chars. revert a l.
  induction s as [|x s IH]; intros a l Hs Hc.
  - exists a. cbn. rewrite Hc, Z.add_0_r. reflexivity.
  - cbn [list_ascii_of_string forallb] in Hs.
    apply andb_true_iff in Hs as [Hx Hs].
    destruct (IH (a * 10 + digit_val x) (l + 1) Hs Hc) as (v & Hv).
    exists v. cbn [String.append scan_digits String.length]. rewrite Hx, Hv.
    f_equal. f_equal. lia.
Qed.

(** A zero-padded integer is a sign and a non-empty run of digits. *)
Lemma print_int_pad_shape (w : nat) (z : Z) :
  exists c s,
    print_int_pad w z = (sign_str (z <? 0)%Z ++ String c s)%string
    /\ is_digit c = true /\ all_digits (String c s) = true.
Proof.
  unfold print_int_pad.
  set (fill := (w - _ - _)%nat).
  assert (Hall : all_digits
                   (string_of_list_ascii (repeat "0"%char fill)
                    ++ dec (Z.abs z))%string = true).
  { rewrite all_digits_app, zeros_all_digits. unfold dec.
    apply dec_digits_all_digits; [lia | reflexivity]. }
  destruct (dec_head (Z.abs z) ltac:(lia)) as (c0 & s0 & Hdec & Hd0).
  destruct (string_of_list_ascii (repeat "0"%char fill)
            ++ dec (Z.abs z))%string as [|c s] eqn:E.
  - rewrite Hdec in E. destruct (string_of_list_ascii _); discriminate E.
  - exists c, s. split; [|split; [|exact Hall]].
    + destruct (z <? 0); reflexivity.
    + unfold all_digits, chars in Hall.
      cbn [list_ascii_of_string forallb] in Hall.
      apply andb_true_iff in Hall as [Hc _]. exact Hc.
Qed.

(** X27. The date prompt does not take a date in the form the program
    displays it: for every date, [sscanf] stores one field only from the
    text of [print_date] (it stops at the first hyphen), [read_date]
    answers "Invalid date" and keeps waiting. *)
Theorem read_date_rejects_displayed_date (d d0 : Date) :
  fst (sscanf_date (print_date d) d0) = 1
  /\ read_date [print_date d] d0 = ([InvalidDate], None).
Proof.
  assert (H : fst (sscanf_date (print_date d) d0) = 1).
  { unfold sscanf_date, print_date, scan_int.
    destruct (print_int_pad_shape 2 (day d)) as (c & s & -> & Hc & Hall).
    set (tail := (print_int_pad 2 (month d) ++ "-"
                  ++ print_int_pad 4 (year d))%string).
    rewrite append_assoc. cbn [String.append].
    destruct (scan_sign_str (day d <? 0) c
                (s ++ String "-" tail)%string Hc) as [Hsk Hsg].
    rewrite Hsk, Hsg.
    destruct (scan_digits_all (String c s) "-" tail 0 0 Hall eq_refl)
      as (v & Hv).
    cbn [String.append] in Hv. rewrite Hv.
    destruct (Z.eqb_spec (0 + Z.of_nat (String.length (String c s))) 0)
      as [E | _]; [cbn [String.length] in E; lia|].
    reflexivity. }
  split; [exact H|]. cbn [read_date].
  destruct (sscanf_date (print_date d) d0) as [n d']. cbn [fst] in H.
  subst n. reflexivity.
Qed.

(** X28. Whatever is typed, a name returned by [read_driver_name] is not
    empty and fits the array; it is the start of a typed line that is not
    empty and that [is_all_digits] rejects (a line of digits and white
    space with at least one digit is refused; a line of blanks only is
    taken as a name), and every line before that one was rejected with
    one message. *)
Theorem read_driver_name_sound (n : nat) (lines : list string)
    (ms : list Notice) (name : string) (rest : list string) :
  (1 <= n)%nat ->
  read_driver_name n lines = (ms, Some (name, rest)) ->
  name <> EmptyString /\ (String.length name <= n)%nat
  /\ exists skipped buf,
       lines = skipped ++ buf :: rest /\ name = strncpy buf n
       /\ buf <> EmptyString /\ is_all_digits buf = false
       /\ List.length ms = List.length skipped.
Proof.
  intros Hn. revert ms.
  assert (Hlen : forall s k, (String.length (strncpy s k) <= k)%nat).
  { induction s as [|c s IHs]; intros [|k]; cbn; try lia.
    specialize (IHs k). lia. }
  induction lines as [|buf lines IH]; intros ms H; [discriminate H|].
  cbn [read_driver_name] in H. destruct buf as [|c buf].
  - destruct (read_driver_name n lines) as [ms' r] eqn:Er.
    injection H as <- ->.
    destruct (IH ms' eq_refl) as (H1 & H2 & skipped & b & -> & H3 & H4 & H5 & H6).
    split; [exact H1|]. split; [exact H2|].
    exists (EmptyString :: skipped), b. repeat split; try assumption.
    cbn; lia.
  - destruct (is_all_digits (String c buf)) eqn:E.
    + destruct (read_driver_name n lines) as [ms' r] eqn:Er.
      injection H as <- ->.
      destruct (IH ms' eq_refl)
        as (H1 & H2 & skipped & b & -> & H3 & H4 & H5 & H6).
      split; [exact H1|]. split; [exact H2|].
      exists (String c buf :: skipped), b. repeat split; try assumption.
      cbn; lia.
    + clear IH. injection H as Hms Hname Hrest. subst ms name rest.
      split; [destruct n; [lia | discriminate]|]. split; [exact (Hlen (String c buf) n)|].
      exists [], (String c buf). repeat split; [discriminate | exact E].
Qed.

Lemma read_driver_name_sound_witness :
  "Asha Rao"%string <> EmptyString
  /\ (String.length "Asha Rao" <= 49)%nat
  /\ exists skipped buf,
       [""; "12 34"; "Asha Rao"; "x"]%string = skipped ++ buf :: ["x"%string]
       /\ "Asha Rao"%string = strncpy buf 49
       /\ buf <> EmptyString /\ is_all_digits buf = false
       /\ List.length [NameEmpty; NameOnlyNumbers] = List.length skipped.
Proof.
  apply (read_driver_name_sound 49 [""; "12 34"; "Asha Rao"; "x"]%string
           [NameEmpty; NameOnlyNumbers] "Asha Rao" ["x"%string]);
    [lia | reflexivity].
Defined.

(** ** Properties of the menu loop *)

Lemma refresh_bus_no cast_undef (fleet : list Bus) (today : Date) :
  map bus_no (refresh cast_undef fleet today) = map bus_no fleet.
Proof.
  unfold refresh. rewrite map_map. apply map_ext. intros b.
  destruct (update_same_inputs cast_undef b today) as (_ & _ & H & _).
  exact H.
Qed.

Lemma refresh_idem cast_undef (fleet : list Bus) (d1 d2 : Date) :
  refresh cast_undef (refresh cast_undef fleet d1) d2
  = refresh cast_undef fleet d2.
Proof.
  unfold refresh. rewrite map_map. apply map_ext. intros b.
  pose proof (update_same_inputs cast_undef b d1) as H.
  destruct (update_maintenance_status cast_undef b d1) as [].
  destruct b as []. unfold same_inputs in H.
  cbn [bus_code driver_name bus_no last_service current_mileage
       last_service_mileage service_interval_km service_interval_days
       service_history_count avg_daily_km fuel_efficiency] in H.
  destruct H as (-> & -> & -> & -> & -> & -> & -> & -> & -> & -> & ->).
  reflexivity.
Qed.

Lemma add_bus_NoDup (fleet : list Bus) (room : bool)
    (codes : list string) (numbers : list Z) (d : BusDetails) :
  NoDup (map bus_no fleet) ->
  NoDup (map bus_no (snd (add_bus fleet room codes numbers d))).
Proof.
  intros Hnd.
  destruct (add_bus_cases fleet room codes numbers d)
    as [-> | (c & no & _ & _ & _ & Hno & ->)]; [exact Hnd|].
  rewrite map_app. cbn [map new_bus bus_no].
  apply NoDup_insert_middle; rewrite app_nil_r; [exact Hnd|].
  intros Hin. apply in_map_iff in Hin as (x & Hx & Hinx).
  exact (Hno x Hinx Hx).
Qed.

Lemma edit_NoDup (fleet : list Bus) (pos : Z) (codes : list string)
    (numbers : list Z) (d : BusDetails) :
  NoDup (map bus_no fleet) ->
  NoDup (map bus_no (snd (edit_bus_by_position fleet pos codes numbers d))).
Proof.
  intros Hnd.
  destruct (edit_cases fleet pos codes numbers d)
    as [-> | (l1 & b & l2 & b' & -> & _ & -> & _ & Hno)]; [exact Hnd|].
  rewrite map_bus_no_middle in *.
  destruct Hno as [-> | Hno]; [exact Hnd|].
  apply NoDup_remove_1 in Hnd. apply NoDup_insert_middle; assumption.
Qed.

(** The fleet splits at the first record with a number, or has none. *)
Lemma first_with_number (fleet : list Bus) (no : Z) :
  (forall b, In b fleet -> bus_no b <> no)
  \/ exists l1 b l2,
       fleet = l1 ++ b :: l2 /\ bus_no b = no
       /\ (forall x, In x l1 -> bus_no x <> no).
Proof.
  destruct (existsb (fun b => bus_no b =? no) fleet) eqn:E.
  - right. apply existsb_exists in E as (b0 & Hin & Hb0).
    apply Z.eqb_eq in Hb0.
    exact (split_at_first fleet no (ex_intro _ b0 (conj Hin Hb0))).
  - left. intros b Hin Hb.
    assert (Ht : existsb (fun b => bus_no b =? no) fleet = true).
    { apply existsb_exists. exists b. split; [exact Hin|].
      apply Z.eqb_eq, Hb. }
    rewrite Ht in E. discriminate E.
Qed.

Lemma delete_NoDup (fleet : list Bus) (no : Z) :
  NoDup (map bus_no fleet) -> NoDup (map bus_no (snd (delete_bus fleet no))).
Proof.
  intros Hnd.
  destruct (first_with_number fleet no)
    as [H | (l1 & b & l2 & -> & Hb & Hl1)].
  - rewrite (delete_bus_absent fleet no H). exact Hnd.
  - rewrite (delete_bus_first l1 l2 b no Hb Hl1). cbn [snd].
    rewrite map_bus_no_middle in Hnd. apply NoDup_remove_1 in Hnd.
    rewrite map_app. exact Hnd.
Qed.

Lemma update_mileage_bus_no (fleet : list Bus) (no : Z) (km : float) :
  map bus_no (snd (update_mileage fleet no km)) = map bus_no fleet.
Proof.
  unfold update_mileage, find_bus_index.
  destruct (first_with_number fleet no)
    as [H | (l1 & b & l2 & -> & Hb & Hl1)].
  - rewrite (find_bus_index_from_absent 0 fleet no H). reflexivity.
  - rewrite (find_bus_index_from_first 0 l1 l2 b no Hl1 Hb).
    destruct (Z.eqb_spec (Z.of_nat (0 + List.length l1)) (-1)) as [E | _];
      [lia|].
    rewrite Nat2Z.id. cbn [Nat.add].
    rewrite nth_error_middle, array_set_middle. cbn [snd].
    rewrite !map_bus_no_middle. reflexivity.
Qed.

Lemma menu_turn_NoDup cast_undef (st : list Bus * Date) (c : Command) :
  NoDup (map bus_no (fst st)) ->
  NoDup (map bus_no (fst (menu_turn cast_undef st c))).
Proof.
  destruct st as [fleet today]. cbn [fst]. intros Hnd.
  assert (Hr : NoDup (map bus_no (refresh cast_undef fleet today)))
    by (rewrite refresh_bus_no; exact Hnd).
  destruct c; cbn [menu_turn fst summarize_maintenance]; try exact Hr.
  - rewrite refresh_bus_no. exact Hr.
  - apply add_bus_NoDup, Hr.
  - apply edit_NoDup, Hr.
  - rewrite update_mileage_bus_no. exact Hr.
  - apply delete_NoDup, Hr.
Qed.

(** X29. Through any sequence of menu choices, however their prompts are
    answered and whether or not the array can grow when a bus is added, a
    fleet whose bus numbers are pairwise distinct keeps them
    pairwise distinct: no add, edit, mileage update, delete or change of
    date ever gives two records the same number. *)
Theorem menu_keeps_numbers_distinct cast_undef (cmds : list Command)
    (fleet : list Bus) (today : Date) :
  NoDup (map bus_no fleet) ->
  NoDup (map bus_no (fst (run_menu cast_undef (fleet, today) cmds))).
Proof.
  change fleet with (fst (fleet, today)) at 1.
  generalize (fleet, today). clear fleet today.
  induction cmds as [|c cmds IH]; intros st Hnd; [exact Hnd|].
  destruct c; cbn [run_menu];
    try (apply IH, menu_turn_NoDup, Hnd).
  apply menu_turn_NoDup, Hnd.
Qed.

Lemma menu_keeps_numbers_distinct_witness :
  NoDup (map bus_no
           (fst (run_menu INT_MIN (fleet_chd, mkDate 1 6 2024)
                   [AddBus true ["chd-101a"; "chd-202b"]%string [7; 8]
                      details_example;
                    AddBus false ["chd-303c"%string] [9] details_example;
                    EditBus 2 [""%string] [7; 9] details_example;
                    UpdateMileage 9 (float_of_int 90);
                    DeleteBus 7; ChangeDate (mkDate 1 9 2024); SaveExit]))).
Proof.
  apply (menu_keeps_numbers_distinct INT_MIN).
  cbn. constructor; [intros [] | constructor].
Defined.

(** X30. What "Save & exit" finds in the fleet is evaluated: when the
    menu has run up to a "Save & exit", every record of the fleet carries
    the status, kmLeft, healthScore and nextDueDate that evaluating it on
    the current reference date gives, also the records added or edited
    or given a new mileage since the last display. *)
Theorem saved_fleet_is_evaluated cast_undef (cmds : list Command)
    (st : list Bus * Date) :
  In SaveExit cmds ->
  let '(fleet, today) := run_menu cast_undef st cmds in
  refresh cast_undef fleet today = fleet.
Proof.
  revert st. induction cmds as [|c cmds IH]; intros st Hin; [destruct Hin|].
  destruct c; cbn [run_menu];
    try (apply IH; destruct Hin as [Hc | Hin];
         [discriminate Hc | exact Hin]).
  destruct st as [fleet today]. cbn [menu_turn]. apply refresh_idem.
Qed.

Lemma saved_fleet_is_evaluated_witness :
  let '(fleet, today) :=
    run_menu INT_MIN (fleet_chd, mkDate 1 6 2024)
      [AddBus true ["chd-202b"%string] [8] details_example;
       UpdateMileage 8 (float_of_int 90); SaveExit; DeleteBus 8] in
  refresh INT_MIN fleet today = fleet.
Proof.
  apply (saved_fleet_is_evaluated INT_MIN
           [AddBus true ["chd-202b"%string] [8] details_example;
            UpdateMileage 8 (float_of_int 90); SaveExit; DeleteBus 8]
           (fleet_chd, mkDate 1 6 2024)).
  right. right. left. reflexivity.
Defined.
